(** * Khabind: incremental native-binding build pipeline

    A shallow embedding of [src/Khabind.ts] (function [generateBindings] and
    its local helpers [ensureEmscripten], [addSources] and [compileSource]),
    with the properties of the pipeline proved over it.

    Conventions.
    - JavaScript strings are [string]; paths are assumed ASCII, so that
      [String.length] is the JavaScript [length].
    - A [Date] compared with [>] is its millisecond count, an integer [Z].
    - The file system is a finite tree of regular files and directories,
      all of which can be stat'ed and listed: there are no dangling
      links, no unreadable directories and no invalid dates. It is the
      tree the run starts with: what the subprocesses write during the
      run is not in it, so a property of a whole run that compares the
      run with this tree assumes that no unit looks at a file another
      unit's compiler writes, and says so in a hypothesis.
    - A subprocess can be started: [spawn] and [spawnSync] of a
      non-empty command give a process with an stderr stream. Nothing is
      proved here about what the pipeline does when the toolchain's
      binaries are missing.
    - Effects (log lines, reads of the environment, subprocesses) are
      recorded in an event trace carried by the state.
    - The promise scheduler interleaves compilation units; the interleaving
      is an explicit schedule, and the theorems quantify over all of them. *)

From Stdlib Require Import String Ascii List ZArith Bool Arith Lia.
Import ListNotations.

Local Open Scope list_scope.
Local Open Scope string_scope.

(* ================================================================== *)
(** ** JavaScript string primitives *)

Module JS.

(** [s.endsWith(suffix)]. *)
Definition endsWith (s suffix : string) : bool :=
  (String.length suffix <=? String.length s)%nat &&
  String.eqb
    (substring (String.length s - String.length suffix)
               (String.length suffix) s)
    suffix.

(** [s.startsWith(prefix)]. *)
Definition startsWith (s p : string) : bool := String.prefix p s.

(** [s.substr(start, len)]: at most [len] characters from [start]. *)
Definition substr (s : string) (start len : nat) : string :=
  substring start len s.

(** [s.split(sep)] for a one-character separator; the pieces are
    accumulated in [cur]. [split_on "/" "" = [""]], as in JavaScript. *)
Fixpoint split_from (sep : ascii) (cur : string) (s : string) : list string :=
  match s with
  | EmptyString => [cur]
  | String c r =>
      if Ascii.eqb c sep then cur :: split_from sep "" r
      else split_from sep (cur ++ String c "") r
  end.

Definition split_on (sep : ascii) (s : string) : list string :=
  split_from sep "" s.

(** [l.join(sep)]. *)
Definition join (sep : string) (l : list string) : string :=
  String.concat sep l.

(** [l.reduce((a, b) => a + ' ' + b)], without an initial value: it
    throws a [TypeError] on the empty array, here [None]. *)
Definition reduce_spaces (l : list string) : option string :=
  match l with
  | [] => None
  | a :: r => Some (fold_left (fun a b => a ++ " " ++ b) r a)
  end.

End JS.

(* ================================================================== *)
(** ** Node's [path] module, POSIX flavour

    [path] is a library of the platform, not of the repository; these are
    its POSIX algorithms on segments. [cwd] is the working directory of the
    process, which [resolve] falls back on. *)

Module Path.

Definition isAbsolute (p : string) : bool := JS.startsWith p "/".

(** [normalizeString]: drops empty and ["."] segments, and resolves
    [".."] against the segment before it. [acc] is the reversed result. *)
Fixpoint normalize_segs (allowAboveRoot : bool) (acc segs : list string)
  : list string :=
  match segs with
  | [] => rev acc
  | s :: r =>
      if String.eqb s "" || String.eqb s "." then
        normalize_segs allowAboveRoot acc r
      else if String.eqb s ".." then
        match acc with
        | top :: acc' =>
            if String.eqb top ".." then
              normalize_segs allowAboveRoot
                (if allowAboveRoot then ".." :: acc else acc) r
            else normalize_segs allowAboveRoot acc' r
        | [] =>
            normalize_segs allowAboveRoot
              (if allowAboveRoot then [".."] else []) r
        end
      else normalize_segs allowAboveRoot (s :: acc) r
  end.

Definition normalizeString (p : string) (allowAboveRoot : bool) : string :=
  JS.join "/" (normalize_segs allowAboveRoot [] (JS.split_on "/" p)).

Definition normalize (p : string) : string :=
  if String.eqb p "" then "."
  else
    let abs := isAbsolute p in
    let trailing := JS.endsWith p "/" in
    let q := normalizeString p (negb abs) in
    if String.eqb q "" then
      (if abs then "/" else if trailing then "./" else ".")
    else
      let q' := if trailing then q ++ "/" else q in
      if abs then "/" ++ q' else q'.

(** [path.join(...args)]. *)
Definition join (args : list string) : string :=
  match filter (fun a => negb (String.eqb a "")) args with
  | [] => "."
  | a :: r => normalize (fold_left (fun j b => j ++ "/" ++ b) r a)
  end.

(** The right-to-left loop of [path.resolve]: arguments are prepended
    until an absolute one is met. [rargs] is the argument list reversed,
    followed by the working directory. *)
Fixpoint resolve_loop (rargs : list string) (resolved : string)
  : string * bool :=
  match rargs with
  | [] => (resolved, false)
  | p :: r =>
      if String.eqb p "" then resolve_loop r resolved
      else
        let resolved' := p ++ "/" ++ resolved in
        if isAbsolute p then (resolved', true)
        else resolve_loop r resolved'
  end.

(** [path.resolve(...args)]. *)
Definition resolve (cwd : string) (args : list string) : string :=
  let '(p, abs) := resolve_loop (rev args ++ [cwd])%list "" in
  let q := normalizeString p (negb abs) in
  if abs then "/" ++ q
  else if String.eqb q "" then "." else q.

(** The segments of a path once resolved. *)
Definition segments (cwd p : string) : list string :=
  normalize_segs false [] (JS.split_on "/" (resolve cwd [p])).

Fixpoint drop_common (a b : list string) : list string * list string :=
  match a, b with
  | x :: a', y :: b' =>
      if String.eqb x y then drop_common a' b' else (a, b)
  | _, _ => (a, b)
  end.

(** [path.relative(from, to)]: both are resolved, their common leading
    segments are dropped, and each remaining segment of [from] becomes
    [".."]. *)
Definition relative (cwd from to : string) : string :=
  if String.eqb from to then ""
  else
    let f := resolve cwd [from] in
    let t := resolve cwd [to] in
    if String.eqb f t then ""
    else
      let '(fr, tr) := drop_common (segments cwd f) (segments cwd t) in
      JS.join "/" (map (fun _ => "..") fr ++ tr)%list.

(** Index of the last ["."] of [s], if any. *)
Fixpoint last_dot (i : nat) (s : string) : option nat :=
  match s with
  | EmptyString => None
  | String c r =>
      match last_dot (S i) r with
      | Some j => Some j
      | None => if Ascii.eqb c "." then Some i else None
      end
  end.

(** [path.basename(p)]: the last non-empty segment. *)
Definition basename (p : string) : string :=
  last (filter (fun s => negb (String.eqb s "")) (JS.split_on "/" p)) "".

(** [path.extname(p)]: from the last ["."] of the base name to its end;
    empty when there is no dot, when the only dot leads the name, and
    for [".."]. *)
Definition extname (p : string) : string :=
  let b := basename p in
  if String.eqb b ".." then ""
  else
    match last_dot 0 b with
    | None | Some 0 => ""
    | Some i => substring i (String.length b - i) b
    end.

(** [path.dirname(p)], on segments. *)
Definition dirname (p : string) : string :=
  let segs := filter (fun s => negb (String.eqb s "")) (JS.split_on "/" p) in
  let d := JS.join "/" (removelast segs) in
  if isAbsolute p then "/" ++ d
  else if String.eqb d "" then "." else d.

End Path.

(* ================================================================== *)
(** ** The file system: a tree of files and directories *)

Module FS.

Inductive node : Type :=
| File (mtime : Z)
| Dir (mtime : Z) (items : entries)
with entries : Type :=
| Nil
| Entry (name : string) (child : node) (rest : entries).

(** What [fs.statSync] returns, as far as the pipeline looks at it. *)
Record Stats := mkStats { isDirectory : bool; mtime : Z }.

Definition stats_of (n : node) : Stats :=
  match n with
  | File m => mkStats false m
  | Dir m _ => mkStats true m
  end.

Fixpoint find (name : string) (es : entries) : option node :=
  match es with
  | Nil => None
  | Entry n c rest => if String.eqb n name then Some c else find name rest
  end.

Fixpoint lookup (n : node) (segs : list string) : option node :=
  match segs with
  | [] => Some n
  | s :: r =>
      match n with
      | File _ => None
      | Dir _ es =>
          match find s es with
          | Some c => lookup c r
          | None => None
          end
      end
  end.

(** Some component of the path [segs], below [n], is there and is not a
    directory: a regular file stands where a directory is wanted. *)
Fixpoint blocked (n : node) (segs : list string) : bool :=
  match n with
  | File _ => true
  | Dir _ es =>
      match segs with
      | [] => false
      | s :: r =>
          match find s es with
          | Some c => blocked c r
          | None => false
          end
      end
  end.

End FS.

(* ================================================================== *)
(** ** The world the pipeline runs in *)

(** Everything outside the program that one run observes: the working
    directory, the file-system tree, the [EMSCRIPTEN] environment variable
    ([None] when unset), [os.cpus().length], and what the external programs
    answer: the compiler (the chunks it writes on stderr and its exit
    code), the linker (stderr, stdout, exit status) and the Haxe binding
    generator ([None] when [executeHaxe] resolves, [Some e] when it
    rejects with [e]). *)
Record World := mkWorld {
  cwd : string;
  root : FS.node;
  env_EMSCRIPTEN : option string;
  cpus : nat;
  emcc_compile : string -> list string -> list string * Z;
  emcc_link : string -> list string -> string * string * Z;
  haxe : option string
}.

Record KhabindOptions := mkKhabindOptions {
  idlFile : string;
  nativeLib : string;
  sourcesDir : string;
  chopPrefix : string;
  autoGC : bool;
  includes : list string;
  emccOptimizationLevel : string;
  emccArgs : list string
}.

(** The fields of [Options] that [generateBindings] reads. *)
Record Options := mkOptions {
  target : string;
  opt_haxe : string;
  kha : string
}.

(** Observable effects, in program order. *)
Inductive event : Type :=
| LogInfo (text : string)
| LogError (text : string)
| ReadEnv (name : string)
| ExecuteHaxe (from : string) (haxeDir : string) (args : list string)
| WriteFile (file content : string)
| EnsureDir (dir : string)
| Spawn (command : string) (args : list string) (dir : string)
| SpawnSync (command : string) (args : list string) (dir : string).

(** The outcome of a call that may throw. *)
Inductive result (A : Type) : Type :=
| Ok (a : A)
| Throw (err : string).
Arguments Ok {A} a.
Arguments Throw {A} err.

(** The mutable variables that the local functions of [generateBindings]
    close over, and the trace. [emsdk] is declared a string but receives
    [process.env.EMSCRIPTEN], which may be [undefined]: [None] here. *)
Record closure := mkClosure {
  emsdk : option string;
  emcc : string;
  sourceFiles : list string;
  targetFiles : list string;
  invalidateCache : bool;
  trace : list event
}.

Definition set_emsdk (v : option string) (c : closure) : closure :=
  mkClosure v (emcc c) (sourceFiles c) (targetFiles c) (invalidateCache c) (trace c).
Definition set_emcc (v : string) (c : closure) : closure :=
  mkClosure (emsdk c) v (sourceFiles c) (targetFiles c) (invalidateCache c) (trace c).
Definition set_sourceFiles (v : list string) (c : closure) : closure :=
  mkClosure (emsdk c) (emcc c) v (targetFiles c) (invalidateCache c) (trace c).
Definition push_targetFile (v : string) (c : closure) : closure :=
  mkClosure (emsdk c) (emcc c) (sourceFiles c) (targetFiles c ++ [v])%list
            (invalidateCache c) (trace c).
Definition set_invalidateCache (v : bool) (c : closure) : closure :=
  mkClosure (emsdk c) (emcc c) (sourceFiles c) (targetFiles c) v (trace c).
Definition emit (e : event) (c : closure) : closure :=
  mkClosure (emsdk c) (emcc c) (sourceFiles c) (targetFiles c) (invalidateCache c)
            (trace c ++ [e])%list.

(** A computation over the closure that may throw. *)
Definition M (A : Type) : Type := closure -> result A * closure.

Definition ret {A} (a : A) : M A := fun c => (Ok a, c).
Definition throw {A} (e : string) : M A := fun c => (Throw e, c).
Definition bind {A B} (m : M A) (k : A -> M B) : M B :=
  fun c => match m c with
           | (Ok a, c') => k a c'
           | (Throw e, c') => (Throw e, c')
           end.
Definition modify (f : closure -> closure) : M unit := fun c => (Ok tt, f c).
Definition get {A} (f : closure -> A) : M A := fun c => (Ok (f c), c).

Notation "x <- m ;; k" := (bind m (fun x => k))
  (at level 61, m at next level, right associativity).
Notation "m ;;; k" := (bind m (fun _ => k))
  (at level 61, right associativity).

(** [x != ""] for a value that is a string or [undefined]: [undefined] is
    not loosely equal to the empty string. *)
Definition neq_empty (v : option string) : bool :=
  match v with
  | None => true
  | Some s => negb (String.eqb s "")
  end.

Definition no_EMSCRIPTEN : string :=
  "EMSCRIPTEN environment variable not set cannot compile C++ library for Javascript".

(** Where a compilation unit stands. [compileSource] suspends while it
    waits for the file system, then while the compiler runs. A unit whose
    body threw is [Abandoned]: the body is an [async] executor, so the
    exception rejects a promise nobody holds and the unit's own promise is
    never settled. *)
Inductive phase : Type :=
| AwaitFs
| AwaitClose (command : string) (args : list string)
| Abandoned.

Record job := mkJob { file : string; targetFile : string; at_phase : phase }.

(** How a promise settles. *)
Inductive settlement : Type :=
| Resolve
| Reject (err : string).

Inductive progress : Type :=
| Pending (j : job)
| Settled (s : settlement).

(** The state of [Throttle.all]: the tasks not started yet, the units in
    flight in start order, the first rejection, and the closure variables
    the units share. *)
Record pool := mkPool {
  waiting : list string;
  running : list job;
  failure : option string;
  vars : closure
}.

(** How a call of [generateBindings] ends: its promise resolves, rejects,
    or stays pending for ever. *)
Inductive outcome : Type :=
| Returned
| Rejected (err : string)
| NeverSettles.

Section Pipeline.

Variable w : World.
Variable libRoot : string.
Variable bindOpts : KhabindOptions.
Variable options : Options.
Variable korehl : bool.

Definition resolve (args : list string) : string := Path.resolve (cwd w) args.

(** [fs.statSync(p)], [None] when it throws for a missing path. The tree
    is the one the run starts with: what the subprocesses write during the
    run is not part of the model, and every entry of the tree can be
    stat'ed. *)
Definition statSync (p : string) : option FS.Stats :=
  option_map FS.stats_of (FS.lookup (root w) (Path.segments (cwd w) p)).

(** [fs.existsSync(p)], also [fs.pathExists(p)]. *)
Definition existsSync (p : string) : bool :=
  match statSync p with Some _ => true | None => false end.

Definition ENOENT (p : string) : string :=
  "ENOENT: no such file or directory, stat '" ++ p ++ "'".

Definition stat {A} (p : string) (k : FS.Stats -> M A) : M A :=
  match statSync p with
  | Some st => k st
  | None => throw (ENOENT p)
  end.

(* ---------------------------------------------------------------- *)
(** *** Staleness of the generated bindings (lines 37-50) *)

Definition khafile : string := resolve [libRoot; "khafile.js"].
Definition webidlFile : string := resolve [libRoot; idlFile bindOpts].
Definition jsLibrary : string :=
  resolve [libRoot; "khabind"; nativeLib bindOpts ++ ".js"].

(** The pair [(recompileAll, rebuildBindings)]. *)
Definition evaluateModifiedTimes : M (bool * bool) :=
  if existsSync jsLibrary then
    stat khafile (fun k =>
    stat jsLibrary (fun j =>
      if (FS.mtime k >? FS.mtime j)%Z then ret (true, false)
      else
        stat webidlFile (fun i =>
        stat jsLibrary (fun j' =>
          if (FS.mtime i >? FS.mtime j')%Z then ret (false, true)
          else ret (false, false)))))
  else ret (false, true).

(* ---------------------------------------------------------------- *)
(** *** The toolchain (lines 73-84) *)

Definition ensureEmscripten : M unit :=
  fun c =>
    if neq_empty (emsdk c) then (Ok tt, c)
    else
      let c1 := set_emsdk (env_EMSCRIPTEN w) (emit (ReadEnv "EMSCRIPTEN") c) in
      match emsdk c1 with
      | None => (Throw no_EMSCRIPTEN, emit (LogError no_EMSCRIPTEN) c1)
      | Some sdk => (Ok tt, set_emcc (Path.join [sdk; "emcc"]) c1)
      end.

Definition optimizationArg : string :=
  if String.eqb (emccOptimizationLevel bindOpts) "" then "-O2"
  else "-O" ++ emccOptimizationLevel bindOpts.

Definition sourcesDirAbs : string := resolve [libRoot; sourcesDir bindOpts].

(* ---------------------------------------------------------------- *)
(** *** Source scan (lines 92-102)

    [addSources_node dir n] is the body of [addSources(dir)] once
    [dir] is known to exist and to be the node [n]: the entries of [n]
    are what [readdirSync(dir)] lists, in listing order, and the child
    of an entry is what [statSync(path.resolve(dir, item))] describes.
    Every entry listed is in the tree and can be stat'ed, so the two
    [statSync] calls and [readdirSync] do not throw here; the scan of a
    tree with an entry that cannot be stat'ed (a dangling link) is not
    modelled, and nothing below is stated about it. *)

Definition compilable (item : string) : bool :=
  JS.endsWith item ".cpp" || JS.endsWith item ".c".

Fixpoint addSources_node (dir : string) (n : FS.node) (acc : list string)
  : list string :=
  match n with
  | FS.File _ => acc
  | FS.Dir _ es => addSources_items dir es acc
  end
with addSources_items (dir : string) (es : FS.entries) (acc : list string)
  : list string :=
  match es with
  | FS.Nil => acc
  | FS.Entry item child rest =>
      let acc' :=
        match child with
        | FS.Dir _ _ => addSources_node (resolve [dir; item]) child acc
        | FS.File _ =>
            if compilable item then (acc ++ [resolve [dir; item]])%list
            else acc
        end in
      addSources_items dir rest acc'
  end.

Definition addSources (dir : string) : M unit :=
  fun c =>
    match FS.lookup (root w) (Path.segments (cwd w) dir) with
    | None => (Ok tt, c)
    | Some n => (Ok tt, set_sourceFiles (addSources_node dir n (sourceFiles c)) c)
    end.

(* ---------------------------------------------------------------- *)
(** *** One compilation unit (lines 109-150) *)

Definition relativeTargetFile (file : string) : string :=
  let relativeSource := Path.relative (cwd w) libRoot file in
  JS.substr relativeSource 0
    (String.length file - String.length (Path.extname file)) ++ ".bc".

Definition targetFile_of (file : string) : string :=
  resolve [libRoot; "khabind"; "bytecode"; relativeTargetFile file].

(** [fs.ensureDirSync(dir)] of fs-extra: it creates what is missing of
    [dir], and throws when a component of the path is there and is not a
    directory. The directories it creates hold nothing the run looks at,
    so the tree stays as it is. *)
Definition ensureDirSync (dir : string) : M unit :=
  modify (emit (EnsureDir dir)) ;;;
  if FS.blocked (root w) (Path.segments (cwd w) dir) then
    throw ("EEXIST: file already exists, mkdir '" ++ dir ++ "'")
  else ret tt.

(** Lines 111-116, up to the first [await]. When [ensureDirSync] throws,
    the executor is left before the object file is pushed, and the unit
    is abandoned. *)
Definition compileSource_begin (file : string) (c : closure) : job * closure :=
  let targetFile := targetFile_of file in
  match ensureDirSync (Path.dirname targetFile) c with
  | (Ok _, c1) => (mkJob file targetFile AwaitFs, push_targetFile targetFile c1)
  | (Throw _, c1) => (mkJob file targetFile Abandoned, c1)
  end.

(** Lines 118-124: the value of [needsRecompile]. *)
Definition checkModifiedTimes (recompileAll : bool) (file targetFile : string)
  : M bool :=
  if existsSync targetFile then
    stale <- (if recompileAll then ret true
              else stat file (fun s => stat targetFile (fun t =>
                     ret (FS.mtime s >? FS.mtime t)%Z))) ;;
    if stale : bool then
      ensureEmscripten ;;; modify (set_invalidateCache true) ;;; ret true
    else ret false
  else
    ensureEmscripten ;;; modify (set_invalidateCache true) ;;; ret true.

(** [child_process.spawn]: throws on an empty command. *)
Definition spawn (command : string) (args : list string) (dir : string) : M unit :=
  if String.eqb command "" then
    throw "The argument 'file' cannot be empty. Received ''"
  else modify (emit (Spawn command args dir)).

(** Lines 127-133; returns the command line it started. *)
Definition compileSource_spawn (j : job) : M (string * list string) :=
  modify (emit (LogInfo ("    Compiling " ++ Path.relative (cwd w) libRoot (file j)))) ;;;
  command <- get emcc ;;
  let args := [optimizationArg; "-I" ++ sourcesDirAbs; "-c"; file j;
               "-o"; targetFile j] in
  spawn command args libRoot ;;;
  ret (command, args).

(** Lines 135-137: [stderr += data.toString()] for each chunk. *)
Definition accumulate (chunks : list string) : string :=
  fold_left (fun stderr data => stderr ++ data) chunks "".

(** Lines 139-145: the handler of the [close] event. *)
Definition on_close (stderr : string) (code : Z) : settlement :=
  if negb (String.eqb stderr "") then Reject stderr else Resolve.

(** From one suspension of [compileSource] to the next. The [await]s of
    lines 119-120 only read the file system; all that touches the shared
    variables ([ensureEmscripten], the two flags, the spawn) runs in one
    synchronous stretch after the last of them, so the three are one
    suspension here. *)
Definition compileSource_step (recompileAll : bool) (j : job) (c : closure)
  : progress * closure :=
  match at_phase j with
  | AwaitFs =>
      match checkModifiedTimes recompileAll (file j) (targetFile j) c with
      | (Ok true, c1) =>
          match compileSource_spawn j c1 with
          | (Ok (command, args), c2) =>
              (Pending (mkJob (file j) (targetFile j) (AwaitClose command args)), c2)
          | (Throw _, c2) =>
              (Pending (mkJob (file j) (targetFile j) Abandoned), c2)
          end
      | (Ok false, c1) => (Settled Resolve, c1)
      | (Throw _, c1) => (Pending (mkJob (file j) (targetFile j) Abandoned), c1)
      end
  | AwaitClose command args =>
      let '(chunks, code) := emcc_compile w command args in
      (Settled (on_close (accumulate chunks) code), c)
  | Abandoned => (Pending j, c)
  end.

(* ---------------------------------------------------------------- *)
(** *** The job runner (lines 153-159)

    [Throttle.all(jobs, {maxInProgress, failFast: true})] of
    promise-parallel-throttle: it starts the first [maxInProgress] tasks;
    each task that resolves starts the next waiting one, unless a task
    has failed; the first task that rejects rejects the whole call at
    once with its error, without waiting for the units in flight. *)

Definition executeTask (p : pool) : pool :=
  match waiting p with
  | [] => p
  | f :: rest =>
      let '(j, c) := compileSource_begin f (vars p) in
      mkPool rest (running p ++ [j])%list (failure p) c
  end.

Definition start (tasks : list string) (c : closure) : pool :=
  Nat.iter (Nat.min (cpus w) (List.length tasks)) executeTask
           (mkPool tasks [] None c).

Fixpoint remove_nth {A} (i : nat) (l : list A) : list A :=
  match l, i with
  | [], _ => []
  | _ :: r, O => r
  | x :: r, S i' => x :: remove_nth i' r
  end.

Fixpoint replace_nth {A} (i : nat) (y : A) (l : list A) : list A :=
  match l, i with
  | [], _ => []
  | _ :: r, O => y :: r
  | x :: r, S i' => x :: replace_nth i' y r
  end.

(** The event loop lets the [i]-th unit in flight run to its next
    suspension. *)
Definition step (recompileAll : bool) (i : nat) (p : pool) : pool :=
  match nth_error (running p) i with
  | None => p
  | Some j =>
      match compileSource_step recompileAll j (vars p) with
      | (Pending j', c) =>
          mkPool (waiting p) (replace_nth i j' (running p)) (failure p) c
      | (Settled Resolve, c) =>
          let p' := mkPool (waiting p) (remove_nth i (running p)) (failure p) c in
          match failure p with
          | Some _ => p'
          | None => executeTask p'
          end
      | (Settled (Reject e), c) =>
          mkPool (waiting p) (remove_nth i (running p))
                 (match failure p with Some e0 => Some e0 | None => Some e end) c
      end
  end.

(** Whether, and how, the promise of [Throttle.all] has settled. *)
Definition settled (p : pool) : option settlement :=
  match failure p with
  | Some e => Some (Reject e)
  | None =>
      match waiting p, running p with
      | [], [] => Some Resolve
      | _, _ => None
      end
  end.

(** The units advance in the order the schedule gives, until the call
    settles: the caller resumes then. *)
Fixpoint run_jobs (recompileAll : bool) (schedule : list nat) (p : pool) : pool :=
  match schedule with
  | [] => p
  | i :: rest =>
      match settled p with
      | Some _ => p
      | None => run_jobs recompileAll rest (step recompileAll i p)
      end
  end.

(* ---------------------------------------------------------------- *)
(** *** Link (lines 162-182) *)

Definition finalLibrary : string :=
  Path.join [libRoot; "khabind"; nativeLib bindOpts ++ ".js"].

(** [child_process.spawnSync] of a process that could be started: the
    answer then has the process' stderr and stdout. When the program
    cannot be started [spawnSync] answers with a null stderr, on which
    line 176 throws; the world has no such answer, so what is proved of
    the link holds for a linker that starts. *)
Definition spawnSync (command : string) (args : list string) (dir : string)
  : M (string * string * Z) :=
  if String.eqb command "" then
    throw "The argument 'file' cannot be empty. Received ''"
  else
    modify (emit (SpawnSync command args dir)) ;;;
    ret (emcc_link w command args).

Definition linking : string := "    Linking Javascript Library".

(** Lines 165-170: the linker's own arguments, from the joined
    [emccArgs]. *)
Definition link_args (joined : string) : list string :=
  let exportName := "EXPORT_NAME=" ++ nativeLib bindOpts in
  let output := Path.join ["khabind"; nativeLib bindOpts] ++ ".js" in
  ([optimizationArg; "-s"; exportName;
    "-s"; "MODULARIZE=1"; "-s"; "SINGLE_FILE=1"; "-s"; "WASM=0"]
   ++ JS.split_on " " joined
   ++ ["-o"; output])%list.

Definition linkStage : M unit :=
  invalidate <- get invalidateCache ;;
  if invalidate || negb (existsSync finalLibrary) then
    modify (emit (LogInfo linking)) ;;;
    ensureEmscripten ;;;
    match JS.reduce_spaces (emccArgs bindOpts) with
    | None => throw "Reduce of empty array with no initial value"
    | Some joined =>
        let exportName := "EXPORT_NAME=" ++ nativeLib bindOpts in
        let output := Path.join ["khabind"; nativeLib bindOpts] ++ ".js" in
        let args :=
          ([optimizationArg; "-s"; exportName;
            "-s"; "MODULARIZE=1"; "-s"; "SINGLE_FILE=1"; "-s"; "WASM=0"]
           ++ JS.split_on " " joined
           ++ ["-o"; output])%list in
        modify (emit (LogInfo ("    running emcc: emcc " ++ JS.join " " args))) ;;;
        command <- get emcc ;;
        objects <- get targetFiles ;;
        output <- spawnSync command (objects ++ args)%list libRoot ;;
        let '(stderr, stdout, status) := output in
        (if negb (String.eqb stderr "") then modify (emit (LogError stderr))
         else ret tt) ;;;
        (if negb (String.eqb stdout "") then modify (emit (LogInfo stdout))
         else ret tt)
    end
  else ret tt.

(* ---------------------------------------------------------------- *)
(** *** The pipeline (lines 28-186) *)

Definition unsupported : bool :=
  negb (String.eqb (target options) "krom")
  && negb (JS.endsWith (target options) "html5")
  && negb korehl.

Definition webTarget : bool :=
  String.eqb (target options) "krom" || JS.endsWith (target options) "html5".

Definition dquote : string := String (Ascii.ascii_of_nat 34) EmptyString.

Definition string_of_bool (b : bool) : string := if b then "true" else "false".

Definition executeHaxe (from haxeDir : string) (args : list string) : M unit :=
  modify (emit (ExecuteHaxe from haxeDir args)) ;;;
  match haxe w with
  | None => ret tt
  | Some e => throw e
  end.

Definition korefileContent : string :=
  "let project = new Project('" ++ Path.basename libRoot ++ "', __dirname);
" ++ "project.addFile('" ++ sourcesDir bindOpts ++ "/**');
" ++ "project.addIncludeDir('" ++ sourcesDir bindOpts ++ "');
" ++ "project.addFile('khabind/" ++ nativeLib bindOpts ++ ".cpp');
" ++ "resolve(project);
".

(** Lines 34-69; returns [recompileAll]. *)
Definition bindingsStage : M bool :=
  modify (emit (LogInfo ("Generating bindings for: " ++ Path.basename libRoot))) ;;;
  flags <- evaluateModifiedTimes ;;
  let '(recompileAll, rebuildBindings) := flags in
  (if recompileAll || rebuildBindings then
     executeHaxe libRoot (opt_haxe options)
       ["-cp"; resolve [kha options; "Sources"];
        "-cp"; resolve [kha options; "Tools"; "webidl"];
        "--macro";
        "kha.internal.WebIdlBinder.generate(" ++ string_of_bool recompileAll ++ ")"]
   else ret tt) ;;;
  modify (emit (WriteFile (resolve [libRoot; "korefile.js"]) korefileContent)) ;;;
  ret recompileAll.

(** Lines 104-106. *)
Definition scanStage : M unit :=
  addSources sourcesDirAbs ;;;
  addSources (resolve [libRoot; "khabind"]).

Definition done_message : string :=
  "Done generating bindings for: " ++ Path.basename libRoot.

Definition initial : closure := mkClosure (Some "") "" [] [] false [].

(** The closure and the pool when [Throttle.all] settles, if it does
    under the schedule. *)
Definition jobsStage (recompileAll : bool) (schedule : list nat) (c : closure)
  : pool :=
  run_jobs recompileAll schedule (start (sourceFiles c) c).

(** Lines 157-159: the handler of a rejection logs it, and the pipeline
    goes on. *)
Definition catch_log (s : settlement) (c : closure) : closure :=
  match s with
  | Resolve => c
  | Reject err => emit (LogInfo err) c
  end.

Definition generateBindings (schedule : list nat) : outcome * list event :=
  if unsupported then
    (Returned,
     [LogInfo ("WARNING: Auto-binding library " ++ dquote
               ++ Path.basename libRoot ++ dquote
               ++ " to Haxe for target " ++ target options
               ++ " is not supported.")])
  else
    match bindingsStage initial with
    | (Throw e, c) => (Rejected e, trace c)
    | (Ok recompileAll, c) =>
        if webTarget then
          let '(_, c1) := scanStage c in
          let p := jobsStage recompileAll schedule c1 in
          match settled p with
          | None => (NeverSettles, trace (vars p))
          | Some s =>
              let c2 := match s with
                        | Resolve => vars p
                        | Reject err => emit (LogInfo err) (vars p)
                        end in
              match linkStage c2 with
              | (Throw e, c3) => (Rejected e, trace c3)
              | (Ok _, c3) => (Returned, trace (emit (LogInfo done_message) c3))
              end
          end
        else (Returned, trace (emit (LogInfo done_message) c))
    end.

End Pipeline.

(* ================================================================== *)
(** ** A sample library on disk *)

Module Sample.

Import FS.

(** [/lib]: a library [mylib] with two sources under [src], bindings
    generated at time 20, and one object file, for [src/foo.cpp]. *)
Definition bytecode : node :=
  Dir 21 (Entry "src" (Dir 21 (Entry "foo.cpp.bc" (File 22) Nil)) Nil).

Definition lib_at (khafile_mtime : Z) (bc : entries) : node :=
  Dir 1
    (Entry "khafile.js" (File khafile_mtime)
    (Entry "mylib.idl" (File 5)
    (Entry "src"
       (Dir 2
          (Entry "foo.cpp" (File 7)
          (Entry "notes.txt" (File 7)
          (Entry "sub" (Dir 3 (Entry "bar.c" (File 8) Nil))
           Nil))))
    (Entry "khabind"
       (Dir 20
          (Entry "mylib.js" (File 20)
          (Entry "mylib.cpp" (File 20) bc)))
     Nil)))).

Definition lib (bc : entries) : node := lib_at 10 bc.

Definition disk (bc : entries) : node := Dir 0 (Entry "lib" (lib bc) Nil).

Definition quiet_compiler (command : string) (args : list string)
  : list string * Z := ([], 0%Z).

Definition quiet_linker (command : string) (args : list string)
  : string * string * Z := ("", "", 0%Z).

Definition world (bc : entries) (env : option string) : World :=
  mkWorld "/home" (disk bc) env 4 quiet_compiler quiet_linker None.

(** An object file for [src/sub/bar.c] with the mtime of its source. *)
Definition bytecode_same_time : node :=
  Dir 21 (Entry "src" (Dir 21 (Entry "sub" (Dir 21 (Entry "bar.c.bc" (File 8) Nil)) Nil)) Nil).

(** The same library before anything was generated: no [khabind]. *)
Definition bare_disk : node :=
  Dir 0
    (Entry "lib"
       (Dir 1
          (Entry "khafile.js" (File 10)
          (Entry "mylib.idl" (File 5)
          (Entry "src" (Dir 2 (Entry "foo.cpp" (File 7) Nil)) Nil))))
     Nil).

Definition bare_world (env : option string) : World :=
  mkWorld "/home" bare_disk env 4 quiet_compiler quiet_linker None.

(** A compiler that complains about [bar.c] on stderr and exits with 0. *)
Definition picky_compiler (command : string) (args : list string)
  : list string * Z :=
  if existsb (String.eqb "/lib/src/sub/bar.c") args
  then (["bar.c:1: "; "warning: unused variable"], 0%Z)
  else ([], 0%Z).

(** A linker that writes on both streams and exits with 1. *)
Definition noisy_linker (command : string) (args : list string)
  : string * string * Z := ("ld: warning", "linked", 1%Z).

Definition bindOpts : KhabindOptions :=
  mkKhabindOptions "mylib.idl" "mylib" "src" "" false [] "" ["-s"; "X=1"].

Definition options : Options := mkOptions "krom" "/haxe" "/kha".

(** The library after [khafile.js] was edited, at time 30. *)
Definition reconfigured_world : World :=
  mkWorld "/home" (Dir 0 (Entry "lib" (lib_at 30 Nil) Nil)) (Some "/emsdk") 4
          quiet_compiler quiet_linker None.

(** An object file, newer than its source, for each of the three
    sources. *)
Definition bytecode_full : node :=
  Dir 21
    (Entry "src"
       (Dir 21
          (Entry "foo.cpp.bc" (File 22)
          (Entry "sub" (Dir 21 (Entry "bar.c.bc" (File 22) Nil)) Nil)))
    (Entry "khabind" (Dir 21 (Entry "mylib.cpp.bc" (File 22) Nil)) Nil)).

(** Everything is up to date, and there is no toolchain. *)
Definition idle_world : World := world (Entry "bytecode" bytecode_full Nil) None.

(** Every source is stale, and [EMSCRIPTEN] is set to the empty string. *)
Definition empty_env_world : World := world Nil (Some "").

(** The library without any object file, with the toolchain at
    [/emsdk]: every source is stale. *)
Definition fresh_world : World := world Nil (Some "/emsdk").

(** One object file, for [src/foo.cpp], newer than its source. *)
Definition one_object_world : World :=
  world (Entry "bytecode" bytecode Nil) (Some "/emsdk").

(** One object file, for [src/sub/bar.c], with the mtime of its source. *)
Definition same_time_world : World :=
  world (Entry "bytecode" bytecode_same_time Nil) (Some "/emsdk").

(** A compiler that rejects [src/foo.cpp], the first source. *)
Definition strict_compiler (command : string) (args : list string)
  : list string * Z :=
  if existsb (String.eqb "/lib/src/foo.cpp") args
  then (["foo.cpp:1: error"], 1%Z)
  else ([], 0%Z).

(** The library after [khafile.js] was edited, on a machine with one
    processor, with the compiler that rejects the first source. *)
Definition single_world : World :=
  mkWorld "/home" (Dir 0 (Entry "lib" (lib_at 30 Nil) Nil)) (Some "/emsdk") 1
          strict_compiler quiet_linker None.

(** The closure after the bindings stage. *)
Definition bound (w : World) : closure :=
  snd (bindingsStage w "/lib" bindOpts options initial).

(** Each unit in flight in turn, the oldest first. *)
Definition schedule : list nat := [0; 0; 0; 0; 0; 0].

(** The closure the link stage starts from when the units settle with [s]
    under [schedule], without a full rebuild. *)
Definition settled_closure (w : World) (s : settlement) : closure :=
  catch_log s
    (vars (jobsStage w "/lib" bindOpts false schedule
             (snd (scanStage w "/lib" bindOpts (bound w))))).

End Sample.


(* ================================================================== *)
(** ** Vocabulary of the specification *)

(** The tri-state verdict of the staleness evaluation, read off the two
    flags the code computes. *)
Inductive StalenessVerdict : Type :=
| NoOp
| RebuildBindingsOnly
| RebuildAll.

Definition verdict_of (flags : bool * bool) : StalenessVerdict :=
  match flags with
  | (true, _) => RebuildAll
  | (false, true) => RebuildBindingsOnly
  | (false, false) => NoOp
  end.

(** The evaluation as the specification words it: [binding] is the mtime
    of the generated binding when it exists. *)
Definition evaluate (config description : Z) (binding : option Z)
  : StalenessVerdict :=
  match binding with
  | None => RebuildBindingsOnly
  | Some b =>
      if (config >? b)%Z then RebuildAll
      else if (description >? b)%Z then RebuildBindingsOnly
      else NoOp
  end.

(** The mtime [statSync] reports for a path, when the path exists. *)
Definition mtime_at (w : World) (p : string) : option Z :=
  option_map FS.mtime (statSync w p).

(** [InEntries item child es]: the directory listing [es] has the entry
    [item], which is the node [child]. *)
Inductive InEntries (item : string) (child : FS.node) : FS.entries -> Prop :=
| in_first rest : InEntries item child (FS.Entry item child rest)
| in_rest item' child' rest :
    InEntries item child rest ->
    InEntries item child (FS.Entry item' child' rest).

(** A name ends in [suffix]: it is [suffix], or what follows its first
    character ends in [suffix]. *)
Fixpoint ends_in (suffix s : string) : bool :=
  String.eqb s suffix
  || match s with
     | EmptyString => false
     | String _ r => ends_in suffix r
     end.

(** A name with a compilable extension. *)
Definition Compilable (item : string) : Prop :=
  exists stem, item = stem ++ ".cpp" \/ item = stem ++ ".c".

(** [Discovered w dir n p]: below the directory [n], found at path [dir],
    at any depth, there is a file with a compilable name whose path is
    [p]. *)
Inductive Discovered (w : World) : string -> FS.node -> string -> Prop :=
| discovered_here dir m es item fm :
    InEntries item (FS.File fm) es ->
    Compilable item ->
    Discovered w dir (FS.Dir m es) (resolve w [dir; item])
| discovered_below dir m es item cm ces p :
    InEntries item (FS.Dir cm ces) es ->
    Discovered w (resolve w [dir; item]) (FS.Dir cm ces) p ->
    Discovered w dir (FS.Dir m es) p.

(** The discovery as the specification words it: a walk of any depth
    that collects the files whose names end in [.cpp] or [.c], each once,
    the entries of a directory in listing order and the files below a
    subdirectory in the place of its entry. *)
Fixpoint walk (w : World) (dir : string) (n : FS.node) : list string :=
  match n with
  | FS.File _ => []
  | FS.Dir _ es => walk_entries w dir es
  end
with walk_entries (w : World) (dir : string) (es : FS.entries) : list string :=
  match es with
  | FS.Nil => []
  | FS.Entry item child rest =>
      ((match child with
        | FS.File _ =>
            if ends_in ".cpp" item || ends_in ".c" item
            then [resolve w [dir; item]] else []
        | FS.Dir _ _ => walk w (resolve w [dir; item]) child
        end)
       ++ walk_entries w dir rest)%list
  end.

(** What the discovery of the root [dir] yields: a root that is missing,
    or that is a file, yields nothing. *)
Definition discovery (w : World) (dir : string) : list string :=
  match FS.lookup (root w) (Path.segments (cwd w) dir) with
  | None => []
  | Some n => walk w dir n
  end.

(** How many files below a node have a compilable name. *)
Fixpoint matching_files (n : FS.node) : nat :=
  match n with
  | FS.File _ => 0
  | FS.Dir _ es => matching_entries es
  end
with matching_entries (es : FS.entries) : nat :=
  match es with
  | FS.Nil => 0
  | FS.Entry item child rest =>
      match child with
      | FS.File _ => if ends_in ".cpp" item || ends_in ".c" item then 1 else 0
      | FS.Dir _ _ => matching_files child
      end
      + matching_entries rest
  end.

Definition is_ReadEnv (e : event) : bool :=
  match e with ReadEnv _ => true | _ => false end.

Definition is_Spawn (e : event) : bool :=
  match e with Spawn _ _ _ => true | _ => false end.

Definition is_SpawnSync (e : event) : bool :=
  match e with SpawnSync _ _ _ => true | _ => false end.

(** How often the environment was read. *)
Definition env_reads (tr : list event) : nat :=
  List.length (filter is_ReadEnv tr).

(** At least one compiler process was started: a source was compiled. *)
Definition compiled (tr : list event) : bool := existsb is_Spawn tr.

(** The linker was invoked. *)
Definition linked (tr : list event) : bool := existsb is_SpawnSync tr.

(** The same world with other external programs. *)
Definition with_compiler (w : World)
  (f : string -> list string -> list string * Z) : World :=
  mkWorld (cwd w) (root w) (env_EMSCRIPTEN w) (cpus w) f (emcc_link w) (haxe w).

Definition with_linker (w : World)
  (f : string -> list string -> string * string * Z) : World :=
  mkWorld (cwd w) (root w) (env_EMSCRIPTEN w) (cpus w) (emcc_compile w) f (haxe w).


(** What the checks of lines 119-124 amount to for one unit, on the
    tree the run starts with: it is up to date, it is stale, or
    [fs.stat] rejected. *)
Inductive decision : Type :=
| UpToDate
| Stale
| StatFailed.

Definition decide (w : World) (recompileAll : bool) (file targetFile : string)
  : decision :=
  if existsSync w targetFile then
    if recompileAll then Stale
    else
      match statSync w file, statSync w targetFile with
      | Some s, Some t =>
          if (FS.mtime s >? FS.mtime t)%Z then Stale else UpToDate
      | _, _ => StatFailed
      end
  else Stale.

(** The object artifact is newer than the source. *)
Definition artifact_newer (w : World) (file targetFile : string) : Prop :=
  exists s t, mtime_at w file = Some s /\ mtime_at w targetFile = Some t
              /\ (t > s)%Z.

(** The object artifact is not older than the source. *)
Definition artifact_not_older (w : World) (file targetFile : string) : Prop :=
  exists s t, mtime_at w file = Some s /\ mtime_at w targetFile = Some t
              /\ (t >= s)%Z.

(** The unit resolves without starting the compiler. *)
Definition skipped (w : World) (libRoot : string) (bindOpts : KhabindOptions)
  (recompileAll : bool) (j : job) (c : closure) : Prop :=
  fst (compileSource_step w libRoot bindOpts recompileAll j c) = Settled Resolve.

(** The rule for skipping a unit, with "newer" read as a later mtime. *)
Definition skipped_iff_newer (w : World) (libRoot : string)
  (bindOpts : KhabindOptions) (recompileAll : bool) (j : job) (c : closure)
  : Prop :=
  skipped w libRoot bindOpts recompileAll j c <->
  existsSync w (targetFile j) = true
  /\ artifact_newer w (file j) (targetFile j)
  /\ recompileAll = false.

(** The toolchain is resolved already, or can be. *)
Definition toolchain_ready (w : World) (c : closure) : Prop :=
  (neq_empty (emsdk c) = true /\ emcc c <> "")
  \/ (neq_empty (emsdk c) = false /\ env_EMSCRIPTEN w <> None).

(** The command line of a unit's compiler process. *)
Definition compile_args (w : World) (libRoot : string) (bindOpts : KhabindOptions)
  (j : job) : list string :=
  [optimizationArg bindOpts; "-I" ++ sourcesDirAbs w libRoot bindOpts; "-c";
   file j; "-o"; targetFile j].

Definition compiling (w : World) (libRoot : string) (j : job) : event :=
  LogInfo ("    Compiling " ++ Path.relative (cwd w) libRoot (file j)).

Definition abandon (j : job) : job := mkJob (file j) (targetFile j) Abandoned.

(** The directory of the object file of [f] can be ensured: no regular
    file stands in the way. *)
Definition ensured (w : World) (libRoot : string) (f : string) : bool :=
  negb (FS.blocked (root w)
          (Path.segments (cwd w) (Path.dirname (targetFile_of w libRoot f)))).

(** ** Invariants of a run *)

(** The three states of the toolchain variables: not asked for yet;
    asked for and absent; resolved. Only an [EMSCRIPTEN] set to the empty
    string is read more than once. *)
Definition toolchain_inv (w : World) (c : closure) : Prop :=
  (emsdk c = Some "" /\ emcc c = "" /\ env_reads (trace c) = 0)
  \/ (emsdk c = None /\ emcc c = "" /\ env_EMSCRIPTEN w = None
      /\ env_reads (trace c) = 1)
  \/ (exists sdk,
        env_EMSCRIPTEN w = Some sdk /\ emsdk c = Some sdk
        /\ emcc c = Path.join [sdk; "emcc"]
        /\ 1 <= env_reads (trace c)
        /\ (sdk <> "" -> env_reads (trace c) = 1)).

(** What holds of the closure while the units run: a compiler was started
    only after the cache was invalidated and with a resolved compiler; the
    cache was invalidated only by a unit that started the compiler, or
    that found the toolchain absent; the linker has not run. *)
Record closure_inv (w : World) (c : closure) : Prop := mkClosureInv {
  inv_toolchain : toolchain_inv w c;
  inv_compiled :
    compiled (trace c) = true -> invalidateCache c = true /\ emcc c <> "";
  inv_changed :
    invalidateCache c = true -> compiled (trace c) = true \/ emsdk c = None;
  inv_unlinked : linked (trace c) = false
}.

(** The closure before any unit has run. *)
Record fresh (c : closure) : Prop := mkFresh {
  fresh_emsdk : emsdk c = Some "";
  fresh_emcc : emcc c = "";
  fresh_cache : invalidateCache c = false;
  fresh_reads : env_reads (trace c) = 0;
  fresh_compiled : compiled (trace c) = false;
  fresh_linked : linked (trace c) = false
}.

(** What holds of the pool of [tasks] at every point of a run. *)
Record pool_inv (w : World) (libRoot : string) (recompileAll : bool)
  (tasks : list string) (p : pool) : Prop := mkPoolInv {
  inv_closure : closure_inv w (vars p);
  inv_abandoned :
    emsdk (vars p) = None ->
    exists j, In j (running p) /\ at_phase j = Abandoned;
  inv_failure : failure p <> None -> compiled (trace (vars p)) = true;
  inv_closing :
    forall j command args,
      In j (running p) -> at_phase j = AwaitClose command args ->
      compiled (trace (vars p)) = true;
  inv_need :
    env_reads (trace (vars p)) <> 0 ->
    exists f, In f tasks
              /\ decide w recompileAll f (targetFile_of w libRoot f) = Stale;
  inv_jobs :
    forall j, In j (running p) ->
      In (file j) tasks /\ targetFile j = targetFile_of w libRoot (file j);
  inv_waiting : incl (waiting p) tasks
}.

(** [c'] differs from [c] at most by the sources found and by events
    that are neither a read of the environment nor a subprocess. *)
Record neutral (c c' : closure) : Prop := mkNeutral {
  neutral_emsdk : emsdk c' = emsdk c;
  neutral_emcc : emcc c' = emcc c;
  neutral_cache : invalidateCache c' = invalidateCache c;
  neutral_reads : env_reads (trace c') = env_reads (trace c);
  neutral_compiled : compiled (trace c') = compiled (trace c);
  neutral_linked : linked (trace c') = linked (trace c)
}.

Definition running_emcc (bindOpts : KhabindOptions) (joined : string) : event :=
  LogInfo ("    running emcc: emcc " ++ JS.join " " (link_args bindOpts joined)).

(** What the link stage logs of the linker's output: stderr as an error,
    then stdout as information, each only when not empty. *)
Definition link_diagnostics (stderr stdout : string) : list event :=
  ((if String.eqb stderr "" then [] else [LogError stderr])
   ++ (if String.eqb stdout "" then [] else [LogInfo stdout]))%list.

(** The units of a run settle with the rejection [err]. *)
Definition compile_rejects (w : World) (libRoot : string)
  (bindOpts : KhabindOptions) (options : Options) (schedule : list nat)
  (err : string) : Prop :=
  exists recompileAll c,
    bindingsStage w libRoot bindOpts options initial = (Ok recompileAll, c)
    /\ settled (jobsStage w libRoot bindOpts recompileAll schedule
                  (snd (scanStage w libRoot bindOpts c)))
       = Some (Reject err).

(** A rejected compile ends the pipeline with its message, and the
    linker is not invoked. *)
Definition compile_failure_is_terminal (w : World) (libRoot : string)
  (bindOpts : KhabindOptions) (options : Options) (korehl : bool)
  (schedule : list nat) : Prop :=
  forall err,
    compile_rejects w libRoot bindOpts options schedule err ->
    fst (generateBindings w libRoot bindOpts options korehl schedule)
    = Rejected err
    /\ linked (snd (generateBindings w libRoot bindOpts options korehl schedule))
       = false.

(** A pool in which nothing is stale: no unit has failed, every unit in
    flight waits for the file system and is up to date, and every task
    that waits is up to date and will find the directory of its object
    file. *)
Record idle (w : World) (libRoot : string) (recompileAll : bool) (p : pool)
  : Prop := mkIdle {
  idle_failure : failure p = None;
  idle_running :
    forall j, In j (running p) ->
      at_phase j = AwaitFs
      /\ decide w recompileAll (file j) (targetFile j) = UpToDate;
  idle_waiting :
    forall f, In f (waiting p) ->
      decide w recompileAll f (targetFile_of w libRoot f) = UpToDate
      /\ ensured w libRoot f = true
}.

(* ================================================================== *)
(** ** Helpers of [src/main.ts] *)

Module Main.

(** [s.replace(/[...]/g, r)] for a class of single characters and a
    one-character replacement: every character of the class becomes
    [r]. *)
Fixpoint replace_class (cls : ascii -> bool) (r : ascii) (s : string) : string :=
  match s with
  | EmptyString => EmptyString
  | String c rest =>
      String (if cls c then r else c) (replace_class cls r rest)
  end.

(** The class [[-@\ \.\/\\]] of [fixName]. *)
Definition fix_class (c : ascii) : bool :=
  Ascii.eqb c "-" || Ascii.eqb c "@" || Ascii.eqb c " " || Ascii.eqb c "."
  || Ascii.eqb c "/" || Ascii.eqb c "\".

(** [name[0] === '0' || ... || name[0] === '9']. *)
Definition is_digit (c : ascii) : bool :=
  Ascii.eqb c "0" || Ascii.eqb c "1" || Ascii.eqb c "2" || Ascii.eqb c "3"
  || Ascii.eqb c "4" || Ascii.eqb c "5" || Ascii.eqb c "6" || Ascii.eqb c "7"
  || Ascii.eqb c "8" || Ascii.eqb c "9".

(** Lines 38-45. On the empty string [name[0]] is [undefined]. *)
Definition fixName (name : string) : string :=
  let name := replace_class fix_class "_" name in
  match name with
  | String c _ => if is_digit c then "_" ++ name else name
  | EmptyString => name
  end.

(** The class [[\\\/]] of [safeName]. *)
Definition slash_class (c : ascii) : bool :=
  Ascii.eqb c "\" || Ascii.eqb c "/".

(** Lines 47-49. *)
Definition safeName (name : string) : string :=
  replace_class slash_class "_" name.

(** Lines 227-241. *)
Definition checkKorePlatform (platform : string) : bool :=
  String.eqb platform "windows"
  || String.eqb platform "windowsapp"
  || String.eqb platform "ios"
  || String.eqb platform "osx"
  || String.eqb platform "android"
  || String.eqb platform "linux"
  || String.eqb platform "html5"
  || String.eqb platform "tizen"
  || String.eqb platform "pi"
  || String.eqb platform "tvos"
  || String.eqb platform "ps4"
  || String.eqb platform "xboxone"
  || String.eqb platform "switch".

(** Lines 243-249. *)
Definition koreplatform (platform : string) : string :=
  if JS.endsWith platform "-native" then
    JS.substr platform 0 (String.length platform - String.length "-native")
  else if JS.endsWith platform "-native-hl" then
    JS.substr platform 0 (String.length platform - String.length "-native-hl")
  else if JS.endsWith platform "-hl" then
    JS.substr platform 0 (String.length platform - String.length "-hl")
  else platform.

(** A JavaScript object with string keys that are not array indices: its
    properties in insertion order. *)
Definition object (V : Type) : Type := list (string * V).

(** [o[k]], [None] for [undefined]. *)
Fixpoint obj_get {V} (k : string) (o : object V) : option V :=
  match o with
  | [] => None
  | (k', v) :: rest => if String.eqb k' k then Some v else obj_get k rest
  end.

(** The own property [k] of [o] becomes [v]: an existing property keeps
    its place, a new one goes last. *)
Fixpoint obj_store {V} (k : string) (v : V) (o : object V) : object V :=
  match o with
  | [] => [(k, v)]
  | (k', v') :: rest =>
      if String.eqb k' k then (k, v) :: rest
      else (k', v') :: obj_store k v rest
  end.

(** [o[k] = v] for an object that started as [{}] and whose values are
    plain data, as JSON gives them. The key [__proto__] is the prototype
    accessor that [{}] inherits: assigning to it creates no own property
    (an object or [null] becomes the prototype, any other value is
    dropped), and the own properties are all [JSON.stringify] writes. *)
Definition obj_set {V} (k : string) (v : V) (o : object V) : object V :=
  if String.eqb k "__proto__" then o else obj_store k v o.

(** Lines 71-80 of [createKorefile]: the options without a [_native]
    suffix are copied, then each [x_native] option is stored as [x]. *)
Definition koreTargetOptions {V} (targetOptions : object V) : object V :=
  let copied :=
    fold_left
      (fun kore (kv : string * V) =>
         if JS.endsWith (fst kv) "_native" then kore
         else obj_set (fst kv) (snd kv) kore)
      targetOptions [] in
  fold_left
    (fun kore (kv : string * V) =>
       if JS.endsWith (fst kv) "_native" then
         obj_set (JS.substr (fst kv) 0
                    (String.length (fst kv) - String.length "_native"))
                 (snd kv) kore
       else kore)
    targetOptions copied.

(** The value the last matching entry gives to [k], when the entries
    matching [sel] are stored under the key [key] computes. *)
Fixpoint last_stored {V} (sel : string -> bool) (key : string -> string)
  (k : string) (l : Main.object V) : option V :=
  match l with
  | [] => None
  | (k', v) :: rest =>
      match last_stored sel key k rest with
      | Some x => Some x
      | None => if sel k' && String.eqb (key k') k then Some v else None
      end
  end.

(** Every character of [s] satisfies [p]. *)
Fixpoint all_chars (p : ascii -> bool) (s : string) : bool :=
  match s with
  | EmptyString => true
  | String c rest => p c && all_chars p rest
  end.

End Main.

(** The number of compiler processes started. *)
Definition spawns (tr : list event) : nat := List.length (filter is_Spawn tr).

Definition is_Stale (d : decision) : bool :=
  match d with Stale => true | _ => false end.

(** How many of the files are stale on the tree the run starts with. *)
Definition stale_files (w : World) (libRoot : string) (recompileAll : bool)
  (files : list string) : nat :=
  List.length
    (filter (fun f => is_Stale (decide w recompileAll f (targetFile_of w libRoot f)))
       files).

(** A unit in flight that is stale and whose compiler was not started. *)
Definition pending_stale (w : World) (recompileAll : bool) (j : job) : bool :=
  match at_phase j with
  | AwaitClose _ _ => false
  | _ => is_Stale (decide w recompileAll (file j) (targetFile j))
  end.

(** A unit whose compiler process is running. *)
Definition compiling_now (j : job) : bool :=
  match at_phase j with AwaitClose _ _ => true | _ => false end.

(** The closure after the events [es], in order. *)
Definition emits (es : list event) (c : closure) : closure :=
  fold_left (fun c e => emit e c) es c.

(** The three effects of the bindings stage (lines 34, 55-59 and 69). *)
Definition generating (libRoot : string) : event :=
  LogInfo ("Generating bindings for: " ++ Path.basename libRoot).

Definition haxe_call (w : World) (libRoot : string) (options : Options)
  (recompileAll : bool) : event :=
  ExecuteHaxe libRoot (opt_haxe options)
    ["-cp"; resolve w [kha options; "Sources"];
     "-cp"; resolve w [kha options; "Tools"; "webidl"];
     "--macro";
     "kha.internal.WebIdlBinder.generate(" ++ string_of_bool recompileAll ++ ")"].

Definition korefile_written (w : World) (libRoot : string)
  (bindOpts : KhabindOptions) : event :=
  WriteFile (resolve w [libRoot; "korefile.js"]) (korefileContent libRoot bindOpts).

(** How many of the units in flight satisfy [f]. *)
Definition count_jobs (f : job -> bool) (l : list job) : nat :=
  List.length (filter f l).

(** The object files of those of the first [k] of the [files] whose
    directory can be ensured. *)
Definition objects_of (w : World) (libRoot : string) (k : nat)
  (files : list string) : list string :=
  map (targetFile_of w libRoot) (filter (ensured w libRoot) (firstn k files)).

(** A unit in flight is abandoned: the pool will not resolve. *)
Definition stuck (p : pool) : Prop :=
  exists j, In j (running p) /\ at_phase j = Abandoned.

(** What holds of the pool of [tasks] started from the closure [c0], at
    every point of a run: the tasks start in order and each pushes its
    object file when it starts, unless its directory cannot be ensured,
    and then its unit stays abandoned; the list of sources is not
    touched; and one compiler was started for each stale unit that got
    that far. *)
Record started_inv (w : World) (libRoot : string) (recompileAll : bool)
  (tasks : list string) (c0 : closure) (p : pool) : Prop := mkStartedInv {
  started_prefix :
    exists k,
      k <= List.length tasks
      /\ waiting p = skipn k tasks
      /\ targetFiles (vars p)
         = (targetFiles c0 ++ objects_of w libRoot k tasks)%list
      /\ ((forall f, In f (firstn k tasks) -> ensured w libRoot f = true)
          \/ stuck p);
  started_sources : sourceFiles (vars p) = sourceFiles c0;
  started_spawns :
    spawns (trace (vars p)) + stale_files w libRoot recompileAll (waiting p)
    + count_jobs (pending_stale w recompileAll) (running p)
    = spawns (trace c0) + stale_files w libRoot recompileAll tasks
}.

(** The sources a run finds once the bindings stage has left the closure
    [c], and the pool of their units when the runner hands back. *)
Definition found (w : World) (libRoot : string) (bindOpts : KhabindOptions)
  (c : closure) : list string :=
  sourceFiles (snd (scanStage w libRoot bindOpts c)).

Definition units (w : World) (libRoot : string) (bindOpts : KhabindOptions)
  (recompileAll : bool) (schedule : list nat) (c : closure) : pool :=
  jobsStage w libRoot bindOpts recompileAll schedule
    (snd (scanStage w libRoot bindOpts c)).

(** The compiler process of the source [f], with the toolchain at [sdk]
    (lines 130-133). *)
Definition compile_of (w : World) (libRoot : string) (bindOpts : KhabindOptions)
  (sdk f : string) : event :=
  Spawn (Path.join [sdk; "emcc"])
    [optimizationArg bindOpts; "-I" ++ sourcesDirAbs w libRoot bindOpts; "-c";
     f; "-o"; targetFile_of w libRoot f]
    libRoot.

(** Every compiler process of the trace compiles a stale file among
    [files], with the command line of [compile_of], after the directory of
    its object file was ensured and the compile was announced. *)
Definition compiles_only (w : World) (libRoot : string)
  (bindOpts : KhabindOptions) (recompileAll : bool) (files : list string)
  (tr : list event) : Prop :=
  forall pre command args dir post,
    tr = (pre ++ Spawn command args dir :: post)%list ->
    exists f sdk,
      In f files
      /\ decide w recompileAll f (targetFile_of w libRoot f) = Stale
      /\ env_EMSCRIPTEN w = Some sdk
      /\ Spawn command args dir = compile_of w libRoot bindOpts sdk f
      /\ In (EnsureDir (Path.dirname (targetFile_of w libRoot f))) pre
      /\ In (LogInfo ("    Compiling " ++ Path.relative (cwd w) libRoot f)) pre.

(** What holds of the trace while the units of [tasks] run: the compiler
    processes are as [compiles_only] has them, and the directory of the
    object file of every unit in flight was ensured. *)
Record ordered_inv (w : World) (libRoot : string) (bindOpts : KhabindOptions)
  (recompileAll : bool) (tasks : list string) (p : pool) : Prop := mkOrderedInv {
  ord_trace :
    compiles_only w libRoot bindOpts recompileAll tasks (trace (vars p));
  ord_dirs :
    forall j, In j (running p) ->
      In (EnsureDir (Path.dirname (targetFile j))) (trace (vars p))
}.

(** The source [f] was compiled in a run with the trace [tr]: a compiler
    process was started on it. *)
Definition compiled_source (w : World) (libRoot : string)
  (bindOpts : KhabindOptions) (f : string) (tr : list event) : Prop :=
  exists sdk, In (compile_of w libRoot bindOpts sdk f) tr.

(** Some compiler process of [tr] has [f] among its arguments. *)
Definition spawned_on (f : string) (tr : list event) : bool :=
  existsb (fun e => match e with
                    | Spawn _ args _ => existsb (String.eqb f) args
                    | _ => false
                    end) tr.

(** Each of the [files] has an object file of its own: none is listed
    twice and no two share an object file. *)
Definition objects_distinct (w : World) (libRoot : string)
  (files : list string) : Prop :=
  NoDup (map (targetFile_of w libRoot) files).

(** The claim's "in particular": under the full-rebuild flag, and for a
    source without an object file, every source found is compiled. *)
Definition every_source_compiled (w : World) (libRoot : string)
  (bindOpts : KhabindOptions) (options : Options) (korehl : bool)
  (schedule : list nat) : Prop :=
  forall recompileAll c f,
    bindingsStage w libRoot bindOpts options initial = (Ok recompileAll, c) ->
    In f (found w libRoot bindOpts c) ->
    recompileAll = true \/ existsSync w (targetFile_of w libRoot f) = false ->
    compiled_source w libRoot bindOpts f
      (snd (generateBindings w libRoot bindOpts options korehl schedule)).

(** What holds of each task that was started, at every point of a run:
    its unit is in flight and has not started the compiler, or the
    source is up to date, or the source was compiled. *)
Definition served_inv (w : World) (libRoot : string)
  (bindOpts : KhabindOptions) (recompileAll : bool) (tasks : list string)
  (p : pool) : Prop :=
  exists k,
    waiting p = skipn k tasks
    /\ forall f, In f (firstn k tasks) ->
         (exists j, In j (running p) /\ file j = f /\ compiling_now j = false)
         \/ decide w recompileAll f (targetFile_of w libRoot f) = UpToDate
         \/ compiled_source w libRoot bindOpts f (trace (vars p)).

(* ================================================================== *)
(** * Properties *)

(** ** Staleness of the bindings *)

Lemma existsSync_mtime_at w p :
  existsSync w p = match mtime_at w p with Some _ => true | None => false end.
Proof.
  unfold existsSync, mtime_at. destruct (statSync w p); reflexivity.
Qed.

(** C1. The evaluation at pipeline start has no effect on the closure and
    depends on the existence of the binding and on the three mtimes only,
    in this order: without a binding the verdict is [RebuildBindingsOnly];
    with a binding older than the configuration file it is [RebuildAll],
    whatever the description file; otherwise it is [RebuildBindingsOnly]
    when the description file is newer than the binding, and [NoOp]
    when it is not. *)
Theorem staleness_verdict :
  forall w libRoot bindOpts c,
    (mtime_at w (jsLibrary w libRoot bindOpts) = None ->
     exists flags,
       evaluateModifiedTimes w libRoot bindOpts c = (Ok flags, c) /\
       verdict_of flags = RebuildBindingsOnly) /\
    (forall config binding,
       mtime_at w (jsLibrary w libRoot bindOpts) = Some binding ->
       mtime_at w (khafile w libRoot) = Some config ->
       (config > binding)%Z ->
       exists flags,
         evaluateModifiedTimes w libRoot bindOpts c = (Ok flags, c) /\
         verdict_of flags = RebuildAll) /\
    (forall config description,
       mtime_at w (khafile w libRoot) = Some config ->
       mtime_at w (webidlFile w libRoot bindOpts) = Some description ->
       exists flags,
         evaluateModifiedTimes w libRoot bindOpts c = (Ok flags, c) /\
         verdict_of flags =
           evaluate config description (mtime_at w (jsLibrary w libRoot bindOpts))).
Proof.
  intros w libRoot bindOpts c.
  unfold evaluateModifiedTimes. rewrite existsSync_mtime_at.
  unfold stat, mtime_at.
  repeat split.
  - intros Hb. destruct (statSync w (jsLibrary w libRoot bindOpts)); [discriminate|].
    exists (false, true). split; reflexivity.
  - intros config binding Hb Hk Hgt.
    destruct (statSync w (jsLibrary w libRoot bindOpts)) as [j|]; [|discriminate].
    destruct (statSync w (khafile w libRoot)) as [k|]; [|discriminate].
    simpl in Hb, Hk. injection Hb as Hb. injection Hk as Hk. subst.
    simpl. apply Z.gt_lt, Z.gtb_lt in Hgt. rewrite Hgt.
    exists (true, false). split; reflexivity.
  - intros config description Hk Hi.
    destruct (statSync w (khafile w libRoot)) as [k|]; [|discriminate].
    destruct (statSync w (webidlFile w libRoot bindOpts)) as [i|]; [|discriminate].
    simpl in Hk, Hi. injection Hk as Hk. injection Hi as Hi. subst.
    destruct (statSync w (jsLibrary w libRoot bindOpts)) as [j|]; simpl.
    + destruct (FS.mtime k >? FS.mtime j)%Z.
      * exists (true, false). split; reflexivity.
      * destruct (FS.mtime i >? FS.mtime j)%Z.
        -- exists (false, true). split; reflexivity.
        -- exists (false, false). split; reflexivity.
    + exists (false, true). split; reflexivity.
Qed.

Lemma staleness_verdict_witness :
  (exists flags,
     evaluateModifiedTimes (Sample.bare_world None) "/lib" Sample.bindOpts initial
     = (Ok flags, initial)
     /\ verdict_of flags = RebuildBindingsOnly)
  /\ (exists flags,
        evaluateModifiedTimes Sample.reconfigured_world "/lib" Sample.bindOpts initial
        = (Ok flags, initial)
        /\ verdict_of flags = RebuildAll)
  /\ (exists flags,
        evaluateModifiedTimes Sample.fresh_world "/lib" Sample.bindOpts initial
        = (Ok flags, initial)
        /\ verdict_of flags = evaluate 10 5 (Some 20%Z)).
Proof.
  destruct (staleness_verdict (Sample.bare_world None) "/lib" Sample.bindOpts initial)
    as [H1 _].
  destruct (staleness_verdict Sample.reconfigured_world "/lib" Sample.bindOpts initial)
    as [_ [H2 _]].
  destruct (staleness_verdict Sample.fresh_world "/lib" Sample.bindOpts initial)
    as [_ [_ H3]].
  split; [apply H1; reflexivity|].
  split; [apply (H2 30%Z 20%Z); [reflexivity | reflexivity | lia]|].
  apply (H3 10%Z 5%Z); reflexivity.
Defined.

(** ** Object paths *)

Lemma substring_all s : forall n, (String.length s <= n)%nat -> substring 0 n s = s.
Proof.
  induction s as [|a s IH]; intros [|n] H; simpl in *; try reflexivity; try lia.
  f_equal. apply IH. lia.
Qed.

(** The prefix [compileSource] keeps of the relative path is measured on
    the absolute path: whenever that is long enough, which it is for a
    source below [libRoot], nothing is cut and [".bc"] is appended after
    the source's own extension. *)
Lemma relativeTargetFile_appends w libRoot file :
  (String.length (Path.relative (cwd w) libRoot file)
   + String.length (Path.extname file) <= String.length file)%nat ->
  relativeTargetFile w libRoot file = Path.relative (cwd w) libRoot file ++ ".bc".
Proof.
  intros H. unfold relativeTargetFile, JS.substr.
  rewrite substring_all by lia. reflexivity.
Qed.

Lemma relativeTargetFile_appends_witness :
  relativeTargetFile (Sample.world FS.Nil None) "/lib" "/lib/sub/foo.cpp"
  = "sub/foo.cpp.bc".
Proof.
  apply (relativeTargetFile_appends (Sample.world FS.Nil None) "/lib" "/lib/sub/foo.cpp").
  vm_compute. lia.
Defined.

(** C2. For the source [/lib/sub/foo.cpp] of the library rooted at [/lib]
    the object path the code derives is
    [/lib/khabind/bytecode/sub/foo.cpp.bc]: the relative structure is
    preserved under [khabind/bytecode], but the extension is not replaced;
    the path with the extension replaced, [sub/foo.bc], is not what the
    code computes. *)
Theorem object_path_at_sub_foo_cpp :
  targetFile_of (Sample.world FS.Nil None) "/lib" "/lib/sub/foo.cpp"
  = "/lib/khabind/bytecode/sub/foo.cpp.bc"
  /\ targetFile_of (Sample.world FS.Nil None) "/lib" "/lib/sub/foo.cpp"
     <> "/lib/khabind/bytecode/sub/foo.bc".
Proof.
  split; [reflexivity | discriminate].
Qed.

(** ** Classification of a compile *)

Lemma accumulate_from acc chunks :
  fold_left (fun stderr data : string => stderr ++ data) chunks acc
  = acc ++ accumulate chunks.
Proof.
  unfold accumulate. revert acc.
  induction chunks as [|d r IH]; intros acc; simpl.
  - induction acc; simpl; congruence.
  - rewrite IH. rewrite (IH d).
    clear. induction acc; simpl; congruence.
Qed.

(** The accumulated text is empty exactly when every chunk is. *)
Lemma accumulate_empty chunks :
  accumulate chunks = "" <-> Forall (fun d => d = "") chunks.
Proof.
  induction chunks as [|d r IH].
  - split; [constructor | reflexivity].
  - unfold accumulate. simpl. rewrite accumulate_from. split.
    + intros H. destruct d; [|discriminate]. constructor; [reflexivity|].
      apply IH. exact H.
    + intros H. inversion H; subst. simpl. apply IH. assumption.
Qed.

Lemma on_close_empty code : on_close "" code = Resolve.
Proof. reflexivity. Qed.

Lemma on_close_text stderr code : stderr <> "" -> on_close stderr code = Reject stderr.
Proof.
  intros H. unfold on_close. destruct (String.eqb_spec stderr ""); [contradiction|reflexivity].
Qed.

(** ** The list of sources *)

Lemma set_sourceFiles_same c : set_sourceFiles (sourceFiles c) c = c.
Proof. destruct c; reflexivity. Qed.

Lemma no_member_nil {A} (l : list A) : (forall x, ~ In x l) -> l = [].
Proof.
  destruct l as [|a l]; [reflexivity|]. intros H. exfalso. apply (H a). left. reflexivity.
Qed.

(** ** The decision of one unit *)

Lemma normalize_nonempty p : Path.normalize p <> "".
Proof.
  unfold Path.normalize.
  destruct (String.eqb p ""); [discriminate|].
  destruct (String.eqb_spec (Path.normalizeString p (negb (Path.isAbsolute p))) "") as [E|N].
  - destruct (Path.isAbsolute p); [discriminate|].
    destruct (JS.endsWith p "/"); discriminate.
  - destruct (Path.isAbsolute p); [discriminate|].
    destruct (JS.endsWith p "/"); [|assumption].
    destruct (Path.normalizeString p (negb false)); [contradiction | discriminate].
Qed.

Lemma join_nonempty args : Path.join args <> "".
Proof.
  unfold Path.join.
  destruct (filter _ args); [discriminate | apply normalize_nonempty].
Qed.

Lemma ensureEmscripten_cached w c :
  neq_empty (emsdk c) = true -> ensureEmscripten w c = (Ok tt, c).
Proof. intros H. unfold ensureEmscripten. now rewrite H. Qed.

Lemma ensureEmscripten_absent w c :
  neq_empty (emsdk c) = false -> env_EMSCRIPTEN w = None ->
  ensureEmscripten w c
  = (Throw no_EMSCRIPTEN,
     emit (LogError no_EMSCRIPTEN)
       (set_emsdk None (emit (ReadEnv "EMSCRIPTEN") c))).
Proof. intros H E. unfold ensureEmscripten. rewrite H. simpl. now rewrite E. Qed.

Lemma ensureEmscripten_present w c sdk :
  neq_empty (emsdk c) = false -> env_EMSCRIPTEN w = Some sdk ->
  ensureEmscripten w c
  = (Ok tt,
     set_emcc (Path.join [sdk; "emcc"])
       (set_emsdk (Some sdk) (emit (ReadEnv "EMSCRIPTEN") c))).
Proof. intros H E. unfold ensureEmscripten. rewrite H. simpl. now rewrite E. Qed.

Lemma ensureEmscripten_ready w c :
  toolchain_ready w c ->
  exists c', ensureEmscripten w c = (Ok tt, c') /\ emcc c' <> ""
             /\ invalidateCache c' = invalidateCache c
             /\ targetFiles c' = targetFiles c
             /\ exists pre, trace c' = (trace c ++ pre)%list.
Proof.
  intros [[H E]|[H E]].
  - exists c. rewrite (ensureEmscripten_cached w c H).
    repeat split; auto. exists []. now rewrite app_nil_r.
  - destruct (env_EMSCRIPTEN w) as [sdk|] eqn:Henv; [|contradiction].
    rewrite (ensureEmscripten_present w c sdk H Henv).
    eexists. split; [reflexivity|]. simpl.
    repeat split; [apply join_nonempty|]. eexists. reflexivity.
Qed.

(** [checkModifiedTimes] through [decide]. *)
Lemma checkModifiedTimes_decide w recompileAll file targetFile c :
  checkModifiedTimes w recompileAll file targetFile c =
  match decide w recompileAll file targetFile with
  | UpToDate => (Ok false, c)
  | StatFailed =>
      (Throw (ENOENT (match statSync w file with
                      | None => file | Some _ => targetFile end)), c)
  | Stale =>
      match ensureEmscripten w c with
      | (Ok _, c') => (Ok true, set_invalidateCache true c')
      | (Throw e, c') => (Throw e, c')
      end
  end.
Proof.
  unfold checkModifiedTimes, decide.
  destruct (existsSync w targetFile).
  - destruct recompileAll.
    + unfold bind, ret, modify. destruct (ensureEmscripten w c) as [[[]|e] c']; reflexivity.
    + unfold stat. destruct (statSync w file) as [s|]; [|reflexivity].
      destruct (statSync w targetFile) as [t|]; [|reflexivity].
      unfold bind, ret, modify.
      destruct (FS.mtime s >? FS.mtime t)%Z; [|reflexivity].
      destruct (ensureEmscripten w c) as [[[]|e] c']; reflexivity.
  - unfold bind, ret, modify. destruct (ensureEmscripten w c) as [[[]|e] c']; reflexivity.
Qed.

Lemma compileSource_spawn_eq w libRoot bindOpts j c :
  compileSource_spawn w libRoot bindOpts j c =
  if String.eqb (emcc c) "" then
    (Throw "The argument 'file' cannot be empty. Received ''",
     emit (compiling w libRoot j) c)
  else
    (Ok (emcc c, compile_args w libRoot bindOpts j),
     emit (Spawn (emcc c) (compile_args w libRoot bindOpts j) libRoot)
       (emit (compiling w libRoot j) c)).
Proof.
  unfold compileSource_spawn, bind, modify, get, spawn. simpl.
  destruct (String.eqb (emcc c) ""); reflexivity.
Qed.


(** A unit that waits for the file system, through [decide]. *)
Lemma compileSource_step_AwaitFs w libRoot bindOpts recompileAll j c :
  at_phase j = AwaitFs ->
  compileSource_step w libRoot bindOpts recompileAll j c =
  match decide w recompileAll (file j) (targetFile j) with
  | UpToDate => (Settled Resolve, c)
  | StatFailed => (Pending (abandon j), c)
  | Stale =>
      match ensureEmscripten w c with
      | (Throw _, c') => (Pending (abandon j), c')
      | (Ok _, c') =>
          let c1 := emit (compiling w libRoot j) (set_invalidateCache true c') in
          if String.eqb (emcc c') "" then (Pending (abandon j), c1)
          else
            (Pending (mkJob (file j) (targetFile j)
                        (AwaitClose (emcc c') (compile_args w libRoot bindOpts j))),
             emit (Spawn (emcc c') (compile_args w libRoot bindOpts j) libRoot) c1)
      end
  end.
Proof.
  intros Hph. unfold compileSource_step. rewrite Hph.
  rewrite checkModifiedTimes_decide.
  destruct (decide w recompileAll (file j) (targetFile j)); try reflexivity.
  destruct (ensureEmscripten w c) as [[[]|e] c']; [|reflexivity].
  rewrite compileSource_spawn_eq. simpl.
  destruct (String.eqb (emcc c') ""); reflexivity.
Qed.

Lemma decide_UpToDate w recompileAll file targetFile :
  decide w recompileAll file targetFile = UpToDate <->
  existsSync w targetFile = true
  /\ artifact_not_older w file targetFile
  /\ recompileAll = false.
Proof.
  unfold decide, artifact_not_older, mtime_at.
  destruct (existsSync w targetFile).
  - destruct recompileAll.
    + split; [discriminate | intros [_ [_ H]]; discriminate].
    + destruct (statSync w file) as [s|]; simpl.
      * destruct (statSync w targetFile) as [t|]; simpl.
        -- destruct (Z.gtb_spec (FS.mtime s) (FS.mtime t)).
           ++ split; [discriminate|].
              intros [_ [[s' [t' [Hs [Ht Hge]]]] _]].
              injection Hs as <-. injection Ht as <-. lia.
           ++ split; [|reflexivity]. intros _.
              repeat split. exists (FS.mtime s), (FS.mtime t).
              repeat split. lia.
        -- split; [discriminate|].
           intros [_ [[s' [t' [_ [Ht _]]]] _]]. discriminate.
      * split; [discriminate|].
        intros [_ [[s' [t' [Hs _]]] _]]. discriminate.
  - split; [discriminate | intros [H _]; discriminate].
Qed.

Lemma skipped_decide w libRoot bindOpts recompileAll j c :
  at_phase j = AwaitFs ->
  skipped w libRoot bindOpts recompileAll j c <->
  decide w recompileAll (file j) (targetFile j) = UpToDate.
Proof.
  intros Hph. unfold skipped.
  rewrite (compileSource_step_AwaitFs _ _ _ _ _ _ Hph).
  destruct (decide w recompileAll (file j) (targetFile j)).
  - simpl. tauto.
  - destruct (ensureEmscripten w c) as [[[]|e] c']; simpl.
    + destruct (String.eqb (emcc c') ""); simpl; split; discriminate.
    + split; discriminate.
  - simpl. split; discriminate.
Qed.

(** ** Events of the trace *)

Lemma env_reads_app tr tr' : env_reads (tr ++ tr') = env_reads tr + env_reads tr'.
Proof. unfold env_reads. now rewrite filter_app, length_app. Qed.

Lemma compiled_app tr tr' : compiled (tr ++ tr') = compiled tr || compiled tr'.
Proof. apply existsb_app. Qed.

Lemma linked_app tr tr' : linked (tr ++ tr') = linked tr || linked tr'.
Proof. apply existsb_app. Qed.

Lemma env_reads_emit e c :
  env_reads (trace (emit e c))
  = env_reads (trace c) + (if is_ReadEnv e then 1 else 0).
Proof. simpl. rewrite env_reads_app. unfold env_reads. simpl. now destruct (is_ReadEnv e). Qed.

Lemma compiled_emit e c :
  compiled (trace (emit e c)) = compiled (trace c) || is_Spawn e.
Proof. simpl. rewrite compiled_app. simpl. now rewrite orb_false_r. Qed.

Lemma linked_emit e c :
  linked (trace (emit e c)) = linked (trace c) || is_SpawnSync e.
Proof. simpl. rewrite linked_app. simpl. now rewrite orb_false_r. Qed.

Lemma compiled_In tr :
  compiled tr = true <-> exists command args dir, In (Spawn command args dir) tr.
Proof.
  unfold compiled. rewrite existsb_exists. split.
  - intros [[] [Hin He]]; try discriminate. eauto.
  - intros [command [args [dir H]]]. eexists. split; [exact H | reflexivity].
Qed.

Lemma linked_In tr :
  linked tr = true <-> exists command args dir, In (SpawnSync command args dir) tr.
Proof.
  unfold linked. rewrite existsb_exists. split.
  - intros [[] [Hin He]]; try discriminate. eauto.
  - intros [command [args [dir H]]]. eexists. split; [exact H | reflexivity].
Qed.

(** Projections of an updated closure. *)
Lemma emsdk_emit e c : emsdk (emit e c) = emsdk c. Proof. reflexivity. Qed.
Lemma emcc_emit e c : emcc (emit e c) = emcc c. Proof. reflexivity. Qed.
Lemma cache_emit e c : invalidateCache (emit e c) = invalidateCache c.
Proof. reflexivity. Qed.
Lemma emsdk_set_cache b c : emsdk (set_invalidateCache b c) = emsdk c.
Proof. reflexivity. Qed.
Lemma emcc_set_cache b c : emcc (set_invalidateCache b c) = emcc c.
Proof. reflexivity. Qed.
Lemma cache_set_cache b c : invalidateCache (set_invalidateCache b c) = b.
Proof. reflexivity. Qed.
Lemma trace_set_cache b c : trace (set_invalidateCache b c) = trace c.
Proof. reflexivity. Qed.
Lemma emsdk_push t c : emsdk (push_targetFile t c) = emsdk c. Proof. reflexivity. Qed.
Lemma emcc_push t c : emcc (push_targetFile t c) = emcc c. Proof. reflexivity. Qed.
Lemma cache_push t c : invalidateCache (push_targetFile t c) = invalidateCache c.
Proof. reflexivity. Qed.
Lemma trace_push t c : trace (push_targetFile t c) = trace c. Proof. reflexivity. Qed.
Lemma emsdk_set_sources l c : emsdk (set_sourceFiles l c) = emsdk c.
Proof. reflexivity. Qed.
Lemma emcc_set_sources l c : emcc (set_sourceFiles l c) = emcc c.
Proof. reflexivity. Qed.
Lemma cache_set_sources l c : invalidateCache (set_sourceFiles l c) = invalidateCache c.
Proof. reflexivity. Qed.
Lemma trace_set_sources l c : trace (set_sourceFiles l c) = trace c.
Proof. reflexivity. Qed.
Lemma is_ReadEnv_compiling w libRoot j : is_ReadEnv (compiling w libRoot j) = false.
Proof. reflexivity. Qed.
Lemma is_Spawn_compiling w libRoot j : is_Spawn (compiling w libRoot j) = false.
Proof. reflexivity. Qed.
Lemma is_SpawnSync_compiling w libRoot j : is_SpawnSync (compiling w libRoot j) = false.
Proof. reflexivity. Qed.

Lemma env_reads_one e : env_reads [e] = if is_ReadEnv e then 1 else 0.
Proof. unfold env_reads. simpl. now destruct (is_ReadEnv e). Qed.
Lemma compiled_one e : compiled [e] = is_Spawn e.
Proof. unfold compiled. simpl. apply orb_false_r. Qed.
Lemma linked_one e : linked [e] = is_SpawnSync e.
Proof. unfold linked. simpl. apply orb_false_r. Qed.

Create Rewrite HintDb closure.

#[local] Hint Rewrite
  emsdk_emit emcc_emit cache_emit env_reads_emit compiled_emit linked_emit
  emsdk_set_cache emcc_set_cache cache_set_cache trace_set_cache
  emsdk_push emcc_push cache_push trace_push
  emsdk_set_sources emcc_set_sources cache_set_sources trace_set_sources
  is_ReadEnv_compiling is_Spawn_compiling is_SpawnSync_compiling
  env_reads_app compiled_app linked_app env_reads_one compiled_one linked_one
  orb_false_r orb_true_r Nat.add_0_r : closure.

Ltac closure_simpl :=
  autorewrite with closure; cbn [is_Spawn is_ReadEnv is_SpawnSync];
  autorewrite with closure.

(** ** The toolchain variables *)

Lemma fresh_closure_inv w c : fresh c -> closure_inv w c.
Proof.
  intros [H1 H2 H3 H4 H5 H6]. constructor.
  - left. auto.
  - rewrite H5. discriminate.
  - rewrite H3. discriminate.
  - assumption.
Qed.

Lemma toolchain_resolved w c :
  toolchain_inv w c -> emcc c <> "" ->
  exists sdk, env_EMSCRIPTEN w = Some sdk /\ emsdk c = Some sdk.
Proof.
  intros [[_ [E _]]|[[_ [E _]]|[sdk [H1 [H2 _]]]]] Hne; try contradiction.
  exists sdk. auto.
Qed.

Lemma toolchain_ready_of_inv w c :
  toolchain_inv w c -> emcc c <> "" -> toolchain_ready w c.
Proof.
  intros Hinv Hne. destruct (toolchain_resolved w c Hinv Hne) as [sdk [He Hs]].
  unfold toolchain_ready. rewrite Hs, He. simpl.
  destruct (String.eqb sdk ""); [right | left]; split; auto; discriminate.
Qed.

Lemma toolchain_reads_le w c :
  toolchain_inv w c -> env_EMSCRIPTEN w <> Some "" -> env_reads (trace c) <= 1.
Proof.
  intros [[_ [_ H]]|[[_ [_ [_ H]]]|[sdk [He [_ [_ [_ H]]]]]]] Hne; try lia.
  rewrite H; [lia|]. intros ->. contradiction.
Qed.

(** The resolver keeps the toolchain variables in one of the three
    states, and touches nothing else but the trace. *)
Lemma ensureEmscripten_inv w c r c' :
  toolchain_inv w c -> ensureEmscripten w c = (r, c') ->
  toolchain_inv w c'
  /\ invalidateCache c' = invalidateCache c
  /\ targetFiles c' = targetFiles c
  /\ sourceFiles c' = sourceFiles c
  /\ compiled (trace c') = compiled (trace c)
  /\ linked (trace c') = linked (trace c)
  /\ (emcc c <> "" -> emcc c' <> "")
  /\ (emsdk c = None -> c' = c /\ r = Ok tt)
  /\ (r = Ok tt -> emsdk c <> None -> emcc c' <> "")
  /\ (r <> Ok tt -> emsdk c' = None /\ emsdk c = Some "" /\ r = Throw no_EMSCRIPTEN)
  /\ (r = Ok tt -> emsdk c' = None -> emsdk c = None).
Proof.
  intros Hinv. unfold ensureEmscripten.
  destruct Hinv as [[H1 [H2 H3]]|[[H1 [H2 [H3 H4]]]|[sdk [H1 [H2 [H3 [H4 H5]]]]]]].
  - rewrite H1. simpl.
    destruct (env_EMSCRIPTEN w) as [sdk|] eqn:Henv; intros H; injection H as <- <-.
    + split.
      { right. right. exists sdk. simpl. rewrite env_reads_app, H3. simpl.
        repeat split; auto. }
      simpl. rewrite compiled_app, linked_app. simpl. rewrite !orb_false_r.
      repeat split; auto; try congruence; intros; apply join_nonempty.
    + split.
      { right. left. simpl. rewrite !env_reads_app, H3. simpl. auto. }
      simpl. rewrite <- !app_assoc, compiled_app, linked_app. simpl.
      rewrite !orb_false_r.
      repeat split; auto; try congruence.
  - rewrite H1. simpl. intros H; injection H as <- <-.
    split; [right; left; auto|]. repeat split; auto; congruence.
  - rewrite H2. simpl.
    destruct (String.eqb_spec sdk "") as [->|Hne]; simpl.
    + rewrite H1. intros H; injection H as <- <-.
      split.
      { right. right. exists "". simpl. rewrite env_reads_app. simpl.
        repeat split; auto; try lia. congruence. }
      simpl. rewrite compiled_app, linked_app. simpl. rewrite !orb_false_r.
      repeat split; auto; try congruence; intros; apply join_nonempty.
    + intros H; injection H as <- <-.
      split; [right; right; exists sdk; auto|].
      repeat split; auto; try congruence.
      intros; rewrite H3; apply join_nonempty.
Qed.

Lemma toolchain_inv_same w c c' :
  emsdk c' = emsdk c -> emcc c' = emcc c ->
  env_reads (trace c') = env_reads (trace c) ->
  toolchain_inv w c -> toolchain_inv w c'.
Proof.
  unfold toolchain_inv. intros -> -> ->. tauto.
Qed.

Lemma closure_inv_same w c c' :
  emsdk c' = emsdk c -> emcc c' = emcc c ->
  invalidateCache c' = invalidateCache c ->
  env_reads (trace c') = env_reads (trace c) ->
  compiled (trace c') = compiled (trace c) ->
  linked (trace c') = linked (trace c) ->
  closure_inv w c -> closure_inv w c'.
Proof.
  intros H1 H2 H3 H4 H5 H6 [I1 I2 I3 I4]. constructor.
  - now apply (toolchain_inv_same w c).
  - rewrite H5, H3, H2. assumption.
  - rewrite H3, H5, H1. assumption.
  - now rewrite H6.
Qed.

(** ** One step of a unit *)

Lemma step_AwaitFs_inv w libRoot bindOpts recompileAll j c pr c' :
  at_phase j = AwaitFs -> closure_inv w c ->
  compileSource_step w libRoot bindOpts recompileAll j c = (pr, c') ->
  closure_inv w c'
  /\ (compiled (trace c) = true -> compiled (trace c') = true)
  /\ sourceFiles c' = sourceFiles c
  /\ targetFiles c' = targetFiles c
  /\ (env_reads (trace c') <> 0 ->
      env_reads (trace c) <> 0
      \/ decide w recompileAll (file j) (targetFile j) = Stale)
  /\ ((pr = Settled Resolve /\ c' = c
       /\ decide w recompileAll (file j) (targetFile j) = UpToDate)
      \/ (pr = Pending (abandon j) /\ (emsdk c' = None \/ c' = c))
      \/ (exists command args,
            pr = Pending (mkJob (file j) (targetFile j) (AwaitClose command args))
            /\ emcc c' <> "" /\ emsdk c' <> None
            /\ invalidateCache c' = true
            /\ compiled (trace c') = true
            /\ decide w recompileAll (file j) (targetFile j) = Stale)).
Proof.
  intros Hph Hinv. rewrite (compileSource_step_AwaitFs _ _ _ _ _ _ Hph).
  destruct (decide w recompileAll (file j) (targetFile j)) eqn:Hd.
  - intros H; injection H as <- <-. split; [assumption|]. repeat split; auto.
  - destruct (ensureEmscripten w c) as [r c1] eqn:He.
    destruct (ensureEmscripten_inv w c r c1 (inv_toolchain _ _ Hinv) He)
      as [T [Hic [Htf [Hsf [Hco [Hli [Hmono [Hnone [Hok [Hthrow Hstay]]]]]]]]]].
    destruct Hinv as [I1 I2 I3 I4].
    destruct r as [[]|e].
    + (* the toolchain answered *)
      cbv zeta.
      destruct (String.eqb_spec (emcc c1) "") as [Hemp|Hne];
        intros H; injection H as <- <-.
      * assert (Hn : emsdk c = None).
        { destruct (emsdk c) eqn:E; [|reflexivity].
          exfalso. apply Hok; [reflexivity | discriminate | assumption]. }
        destruct (Hnone Hn) as [-> _].
        split; [|split; [|split; [|split; [|split]]]].
        -- constructor; autorewrite with closure.
           ++ apply (toolchain_inv_same w c); autorewrite with closure; auto.
           ++ intros Hc. destruct (I2 Hc). contradiction.
           ++ intros _. right. assumption.
           ++ assumption.
        -- autorewrite with closure. auto.
        -- reflexivity.
        -- reflexivity.
        -- autorewrite with closure. auto.
        -- right. left. split; [reflexivity|]. left. assumption.
      * split; [|split; [|split; [|split; [|split]]]].
        -- constructor; autorewrite with closure.
           ++ apply (toolchain_inv_same w c1); autorewrite with closure; auto.
           ++ intros _. auto.
           ++ intros _. left. reflexivity.
           ++ congruence.
        -- autorewrite with closure. auto.
        -- assumption.
        -- assumption.
        -- intros _. right. reflexivity.
        -- right. right. do 2 eexists. split; [reflexivity|].
           autorewrite with closure.
           split; [assumption|]. split; [|auto].
           intros Hn. apply Hne.
           destruct T as [[_ [E _]]|[[_ [E _]]|[sdk [_ [E _]]]]]; congruence.
    + (* the toolchain is absent *)
      intros H; injection H as <- <-.
      destruct Hthrow as [Hn [Hs _]]; [discriminate|].
      split; [|split; [|split; [|split; [|split]]]]; auto.
      * constructor; auto.
        -- rewrite Hco, Hic. intros Hc. destruct (I2 Hc). auto.
        -- now rewrite Hli.
      * congruence.
  - intros H; injection H as <- <-. split; [assumption|]. repeat split; auto.
Qed.

Lemma step_AwaitClose_eq w libRoot bindOpts recompileAll j c command args :
  at_phase j = AwaitClose command args ->
  compileSource_step w libRoot bindOpts recompileAll j c
  = (Settled (on_close (accumulate (fst (emcc_compile w command args)))
                       (snd (emcc_compile w command args))), c).
Proof.
  intros Hph. unfold compileSource_step. rewrite Hph.
  destruct (emcc_compile w command args). reflexivity.
Qed.

Lemma step_Abandoned_eq w libRoot bindOpts recompileAll j c :
  at_phase j = Abandoned ->
  compileSource_step w libRoot bindOpts recompileAll j c = (Pending j, c).
Proof. intros Hph. unfold compileSource_step. now rewrite Hph. Qed.

(** A unit that waits for the file system does not fail at its next
    step: it is skipped, abandoned, or starts the compiler. *)
Lemma step_AwaitFs_not_rejected w libRoot bindOpts recompileAll j c err :
  at_phase j = AwaitFs ->
  fst (compileSource_step w libRoot bindOpts recompileAll j c)
  <> Settled (Reject err).
Proof.
  intros Hph. rewrite (compileSource_step_AwaitFs _ _ _ _ _ _ Hph).
  destruct (decide w recompileAll (file j) (targetFile j)); try discriminate.
  destruct (ensureEmscripten w c) as [[[]|e] c']; try discriminate.
  cbv zeta. destruct (String.eqb (emcc c') ""); discriminate.
Qed.

(** C5. A unit fails if and only if its compiler process has closed and
    the text accumulated from the process's stderr is not empty; the
    failure carries that text. The exit code plays no part: with empty
    stderr the unit succeeds, and with text on stderr it fails, for every
    exit code, 0 included. *)
Theorem compile_fails_iff_stderr :
  forall w libRoot bindOpts recompileAll j c,
    (forall err,
       fst (compileSource_step w libRoot bindOpts recompileAll j c)
       = Settled (Reject err)
       <-> exists command args,
             at_phase j = AwaitClose command args
             /\ accumulate (fst (emcc_compile w command args)) = err
             /\ err <> "") /\
    (forall command args chunks code,
       at_phase j = AwaitClose command args ->
       emcc_compile w command args = (chunks, code) ->
       (accumulate chunks = "" ->
        compileSource_step w libRoot bindOpts recompileAll j c
        = (Settled Resolve, c))
       /\ (accumulate chunks <> "" ->
           compileSource_step w libRoot bindOpts recompileAll j c
           = (Settled (Reject (accumulate chunks)), c))).
Proof.
  intros w libRoot bindOpts rc j c. split.
  - intros err. split.
    + intros H. destruct (at_phase j) as [|command args|] eqn:Hph.
      * exfalso. revert H. now apply step_AwaitFs_not_rejected.
      * rewrite (step_AwaitClose_eq _ _ _ _ _ _ _ _ Hph) in H. cbn [fst] in H.
        exists command, args. split; [reflexivity|].
        destruct (String.eqb_spec
                    (accumulate (fst (emcc_compile w command args))) "")
          as [He|Hne].
        -- rewrite He, on_close_empty in H. discriminate.
        -- rewrite (on_close_text _ _ Hne) in H. injection H as <-. auto.
      * rewrite (step_Abandoned_eq _ _ _ _ _ _ Hph) in H. discriminate.
    + intros [command [args [Hph [<- Hne]]]].
      rewrite (step_AwaitClose_eq _ _ _ _ _ _ _ _ Hph). cbn [fst].
      now rewrite (on_close_text _ _ Hne).
  - intros command args chunks code Hph Hrun.
    rewrite (step_AwaitClose_eq _ _ _ _ _ _ _ _ Hph), Hrun. cbn [fst snd].
    split; intros H.
    + now rewrite H, on_close_empty.
    + now rewrite (on_close_text _ _ H).
Qed.

Lemma compile_fails_iff_stderr_witness :
  fst (compileSource_step
         (with_compiler Sample.fresh_world
            (fun _ _ => (["warning: "; "unused"], 0%Z)))
         "/lib" Sample.bindOpts false
         (mkJob "/lib/src/foo.cpp" "/lib/khabind/bytecode/src/foo.cpp.bc"
            (AwaitClose "/emsdk/emcc" ["-c"]))
         initial)
  = Settled (Reject "warning: unused")
  /\ compileSource_step
       (with_compiler Sample.fresh_world (fun _ _ => ([""; ""], 1%Z)))
       "/lib" Sample.bindOpts false
       (mkJob "/lib/src/foo.cpp" "/lib/khabind/bytecode/src/foo.cpp.bc"
          (AwaitClose "/emsdk/emcc" ["-c"]))
       initial
     = (Settled Resolve, initial).
Proof.
  destruct (compile_fails_iff_stderr
              (with_compiler Sample.fresh_world
                 (fun _ _ => (["warning: "; "unused"], 0%Z)))
              "/lib" Sample.bindOpts false
              (mkJob "/lib/src/foo.cpp" "/lib/khabind/bytecode/src/foo.cpp.bc"
                 (AwaitClose "/emsdk/emcc" ["-c"]))
              initial) as [H1 _].
  destruct (compile_fails_iff_stderr
              (with_compiler Sample.fresh_world (fun _ _ => ([""; ""], 1%Z)))
              "/lib" Sample.bindOpts false
              (mkJob "/lib/src/foo.cpp" "/lib/khabind/bytecode/src/foo.cpp.bc"
                 (AwaitClose "/emsdk/emcc" ["-c"]))
              initial) as [_ H2].
  split.
  - apply H1. exists "/emsdk/emcc", ["-c"].
    split; [reflexivity | split; [reflexivity | discriminate]].
  - apply (H2 "/emsdk/emcc" ["-c"] [""; ""] 1%Z); reflexivity.
Defined.

(** ** Lists of units *)

Lemma In_remove_nth {A} (l : list A) : forall i y,
  In y (remove_nth i l) -> In y l.
Proof.
  induction l as [|x l IH]; intros [|i] y; simpl; auto.
  intros [H|H]; eauto.
Qed.

Lemma In_keep_remove_nth {A} (l : list A) : forall i x y,
  nth_error l i = Some x -> In y l -> y = x \/ In y (remove_nth i l).
Proof.
  induction l as [|a l IH]; intros [|i] x y; simpl; try discriminate.
  - intros H [Hy|Hy]; [left; congruence | auto].
  - intros H [Hy|Hy]; [auto|]. destruct (IH i x y H Hy); auto.
Qed.

Lemma In_replace_nth {A} (l : list A) : forall i z y,
  In y (replace_nth i z l) -> y = z \/ In y l.
Proof.
  induction l as [|a l IH]; intros [|i] z y; simpl; auto.
  - intros [H|H]; auto.
  - intros [H|H]; auto. destruct (IH i z y H); auto.
Qed.

Lemma In_keep_replace_nth {A} (l : list A) : forall i x z y,
  nth_error l i = Some x -> In y l -> y = x \/ In y (replace_nth i z l).
Proof.
  induction l as [|a l IH]; intros [|i] x z y; simpl; try discriminate.
  - intros H [Hy|Hy]; [left; congruence | auto].
  - intros H [Hy|Hy]; [auto|]. destruct (IH i x z y H Hy); auto.
Qed.

Lemma In_new_replace_nth {A} (l : list A) : forall i x z,
  nth_error l i = Some x -> In z (replace_nth i z l).
Proof.
  induction l as [|a l IH]; intros [|i] x z; simpl; try discriminate; eauto.
Qed.

Lemma replace_nth_same {A} (l : list A) : forall i x,
  nth_error l i = Some x -> replace_nth i x l = l.
Proof.
  induction l as [|a l IH]; intros [|i] x; simpl; try discriminate.
  - congruence.
  - intros H. f_equal. eauto.
Qed.

(** ** The start of a unit *)

Lemma compileSource_begin_cases w libRoot f c :
  compileSource_begin w libRoot f c
  = if ensured w libRoot f then
      (mkJob f (targetFile_of w libRoot f) AwaitFs,
       push_targetFile (targetFile_of w libRoot f)
         (emit (EnsureDir (Path.dirname (targetFile_of w libRoot f))) c))
    else
      (mkJob f (targetFile_of w libRoot f) Abandoned,
       emit (EnsureDir (Path.dirname (targetFile_of w libRoot f))) c).
Proof.
  unfold compileSource_begin, ensureDirSync, ensured, bind, modify, throw, ret.
  destruct (FS.blocked _ _); reflexivity.
Qed.

(** ** The invariant of the pool *)

Section PoolInvariant.

Variable w : World.
Variable libRoot : string.
Variable bindOpts : KhabindOptions.
Variable recompileAll : bool.
Variable tasks : list string.

Let Inv := pool_inv w libRoot recompileAll tasks.

Lemma executeTask_inv p : Inv p -> Inv (executeTask w libRoot p).
Proof.
  intros HI. unfold executeTask.
  destruct (waiting p) as [|f rest] eqn:Hw; [exact HI|].
  destruct HI as [IC IA IF ICl IN IJ IW]. rewrite Hw in IW.
  rewrite compileSource_begin_cases.
  destruct (ensured w libRoot f); constructor; simpl.
  all: try (apply (closure_inv_same w (vars p)); autorewrite with closure; auto).
  all: try (intros Hn; destruct (IA Hn) as [j [Hj Hp]]; exists j;
            split; [apply in_or_app; auto | assumption]).
  all: try (closure_simpl; assumption).
  all: try (intros j command args Hj Hp; closure_simpl; apply in_app_or in Hj;
            destruct Hj as [Hj|[<-|[]]]; [eauto | discriminate]).
  all: try (intros j Hj; apply in_app_or in Hj;
            destruct Hj as [Hj|[<-|[]]]; [auto|];
            simpl; split; [apply IW; left; reflexivity | reflexivity]).
  all: intros x Hx; apply IW; right; assumption.
Qed.

Lemma start_inv c :
  fresh c -> pool_inv w libRoot recompileAll tasks (start w libRoot tasks c).
Proof.
  intros Hf. unfold start.
  induction (Nat.min (cpus w) (List.length tasks)) as [|n IH]; simpl.
  - destruct Hf as [H1 H2 H3 H4 H5 H6].
    constructor; simpl; try congruence; try tauto.
    apply fresh_closure_inv. constructor; assumption.
  - apply executeTask_inv. exact IH.
Qed.

Lemma step_inv i p : Inv p -> Inv (step w libRoot bindOpts recompileAll i p).
Proof.
  intros HI. unfold step.
  destruct (nth_error (running p) i) as [j|] eqn:Hnth; [|assumption].
  assert (Hin : In j (running p)) by (eapply nth_error_In; eassumption).
  destruct (at_phase j) as [|command args|] eqn:Hph.
  - (* the unit waits for the file system *)
    destruct (compileSource_step w libRoot bindOpts recompileAll j (vars p))
      as [pr c'] eqn:Hstep.
    destruct HI as [IC IA IF ICl IN IJ IW].
    destruct (step_AwaitFs_inv _ _ _ _ _ _ _ _ Hph IC Hstep)
      as [IC' [Hmono [_ [_ [Hreads Hcases]]]]].
    destruct (IJ j Hin) as [Hfile Htarget].
    assert (IN' : env_reads (trace c') <> 0 ->
                  exists f, In f tasks /\
                    decide w recompileAll f (targetFile_of w libRoot f) = Stale).
    { intros Hr. destruct (Hreads Hr) as [H|H]; [auto|].
      exists (file j). rewrite <- Htarget. auto. }
    destruct Hcases as [[-> [-> Hd]]|[[-> Hab]|[cmd [args [-> [Hne [Hsdk [_ [Hcomp _]]]]]]]]].
    + (* skipped *)
      assert (HI' : Inv (mkPool (waiting p) (remove_nth i (running p))
                                (failure p) (vars p))).
      { constructor; simpl; auto.
        - intros Hn. destruct (IA Hn) as [j0 [Hj0 Hp0]]. exists j0.
          split; [|assumption].
          destruct (In_keep_remove_nth _ _ _ _ Hnth Hj0) as [->|H]; [congruence|exact H].
        - intros j0 command args Hj0. apply In_remove_nth in Hj0. eauto.
        - intros j0 Hj0. apply In_remove_nth in Hj0. auto. }
      destruct (failure p); [exact HI' | apply executeTask_inv; exact HI'].
    + (* abandoned *)
      constructor; simpl; auto.
      * intros Hn. exists (abandon j). split; [|reflexivity].
        eapply In_new_replace_nth; eassumption.
      * intros j0 command args Hj0 Hp0.
        apply In_replace_nth in Hj0. destruct Hj0 as [->|Hj0]; [discriminate|].
        apply Hmono. eauto.
      * intros j0 Hj0. apply In_replace_nth in Hj0.
        destruct Hj0 as [->|Hj0]; [simpl; auto | auto].
    + (* the compiler is started *)
      constructor; simpl; auto.
      * intros Hn. contradiction.
      * intros j0 Hj0. apply In_replace_nth in Hj0.
        destruct Hj0 as [->|Hj0]; [simpl; auto | auto].
  - (* the compiler closes *)
    rewrite (step_AwaitClose_eq _ _ _ _ _ _ _ _ Hph).
    destruct HI as [IC IA IF ICl IN IJ IW].
    assert (Hne : compiled (trace (vars p)) = true) by eauto.
    assert (HI' : forall fl, (fl <> None -> compiled (trace (vars p)) = true) ->
                  Inv (mkPool (waiting p) (remove_nth i (running p)) fl (vars p))).
    { intros fl Hfl. constructor; simpl; auto.
      - intros Hn. destruct (IA Hn) as [j0 [Hj0 Hp0]]. exists j0.
        split; [|assumption].
        destruct (In_keep_remove_nth _ _ _ _ Hnth Hj0) as [->|H]; [congruence|exact H].
      - intros j0 Hj0. apply In_remove_nth in Hj0. auto. }
    destruct (on_close _ _).
    + destruct (failure p) eqn:Hf.
      * apply HI'. auto.
      * apply executeTask_inv. apply HI'. auto.
    + apply HI'. auto.
  - (* the unit is abandoned *)
    rewrite (step_Abandoned_eq _ _ _ _ _ _ Hph).
    rewrite (replace_nth_same _ _ _ Hnth).
    destruct p; exact HI.
Qed.

Lemma run_jobs_inv schedule :
  forall p, Inv p -> Inv (run_jobs w libRoot bindOpts recompileAll schedule p).
Proof.
  induction schedule as [|i rest IH]; intros p HI; simpl; [assumption|].
  destruct (settled p); [assumption|].
  apply IH, step_inv, HI.
Qed.

End PoolInvariant.

(** ** The stages around the units *)

Lemma neutral_refl c : neutral c c.
Proof. constructor; reflexivity. Qed.

Lemma neutral_trans c1 c2 c3 : neutral c1 c2 -> neutral c2 c3 -> neutral c1 c3.
Proof. intros [] []. constructor; congruence. Qed.

Lemma neutral_fresh c c' : neutral c c' -> fresh c -> fresh c'.
Proof. intros [] []. constructor; congruence. Qed.

Lemma initial_fresh : fresh initial.
Proof. constructor; reflexivity. Qed.

Lemma evaluateModifiedTimes_pure w libRoot bindOpts c :
  snd (evaluateModifiedTimes w libRoot bindOpts c) = c.
Proof.
  unfold evaluateModifiedTimes, stat, ret, throw.
  destruct (existsSync w _); [|reflexivity].
  destruct (statSync w (khafile w libRoot)); [|reflexivity].
  destruct (statSync w (jsLibrary w libRoot bindOpts)); [|reflexivity].
  destruct (_ >? _)%Z; [reflexivity|].
  destruct (statSync w (webidlFile w libRoot bindOpts)); [|reflexivity].
  destruct (_ >? _)%Z; reflexivity.
Qed.

Lemma bindingsStage_neutral w libRoot bindOpts options c :
  neutral c (snd (bindingsStage w libRoot bindOpts options c)).
Proof.
  unfold bindingsStage, bind, modify. simpl.
  match goal with |- context [evaluateModifiedTimes w libRoot bindOpts ?c0] =>
    assert (Hp := evaluateModifiedTimes_pure w libRoot bindOpts c0);
    destruct (evaluateModifiedTimes w libRoot bindOpts c0) as [[[rc rb]|e] c1]
  end; simpl in Hp; subst c1; simpl.
  - destruct (rc || rb); unfold executeHaxe, bind, modify, ret, throw; simpl.
    + destruct (haxe w); simpl; constructor; simpl; closure_simpl; reflexivity.
    + constructor; simpl; closure_simpl; reflexivity.
  - constructor; simpl; closure_simpl; reflexivity.
Qed.

Lemma addSources_neutral w dir c : neutral c (snd (addSources w dir c)).
Proof.
  unfold addSources. destruct (FS.lookup _ _); simpl; constructor; reflexivity.
Qed.

Lemma scanStage_neutral w libRoot bindOpts c :
  neutral c (snd (scanStage w libRoot bindOpts c)).
Proof.
  unfold scanStage, bind.
  assert (H1 := addSources_neutral w (sourcesDirAbs w libRoot bindOpts) c).
  destruct (addSources w (sourcesDirAbs w libRoot bindOpts) c) as [[[]|e] c1];
    simpl in *; [|assumption].
  eapply neutral_trans; [exact H1 | apply addSources_neutral].
Qed.

Lemma prepared_fresh w libRoot bindOpts options :
  fresh (snd (scanStage w libRoot bindOpts
                (snd (bindingsStage w libRoot bindOpts options initial)))).
Proof.
  eapply neutral_fresh; [apply scanStage_neutral|].
  eapply neutral_fresh; [apply bindingsStage_neutral | apply initial_fresh].
Qed.

(** The pool of a run satisfies the invariant at every schedule. *)
Lemma jobsStage_inv w libRoot bindOpts recompileAll schedule c :
  fresh c ->
  pool_inv w libRoot recompileAll (sourceFiles c)
    (jobsStage w libRoot bindOpts recompileAll schedule c).
Proof.
  intros Hf. unfold jobsStage. apply run_jobs_inv. apply start_inv. exact Hf.
Qed.

(** ** The link stage *)

Lemma linkStage_skip w libRoot bindOpts c :
  invalidateCache c = false -> existsSync w (finalLibrary libRoot bindOpts) = true ->
  linkStage w libRoot bindOpts c = (Ok tt, c).
Proof.
  intros H1 H2. unfold linkStage, bind, get. now rewrite H1, H2.
Qed.

Lemma linkStage_run w libRoot bindOpts c :
  invalidateCache c = true \/ existsSync w (finalLibrary libRoot bindOpts) = false ->
  linkStage w libRoot bindOpts c =
  match ensureEmscripten w (emit (LogInfo linking) c) with
  | (Throw e, c1) => (Throw e, c1)
  | (Ok _, c1) =>
      match JS.reduce_spaces (emccArgs bindOpts) with
      | None => (Throw "Reduce of empty array with no initial value", c1)
      | Some joined =>
          let c2 := emit (running_emcc bindOpts joined) c1 in
          if String.eqb (emcc c1) "" then
            (Throw "The argument 'file' cannot be empty. Received ''", c2)
          else
            let args := (targetFiles c1 ++ link_args bindOpts joined)%list in
            let '(stderr, stdout, status) := emcc_link w (emcc c1) args in
            (Ok tt,
             mkClosure (emsdk c1) (emcc c1) (sourceFiles c1) (targetFiles c1)
               (invalidateCache c1)
               (trace c2 ++ SpawnSync (emcc c1) args libRoot
                  :: link_diagnostics stderr stdout)%list)
      end
  end.
Proof.
  intros Hc. unfold linkStage, bind, get, modify.
  assert (Hcond : invalidateCache c || negb (existsSync w (finalLibrary libRoot bindOpts)) = true).
  { destruct Hc as [-> | ->]; [reflexivity | apply orb_true_r]. }
  rewrite Hcond.
  destruct (ensureEmscripten w (emit (LogInfo linking) c)) as [[[]|e] c1]; [|reflexivity].
  destruct (JS.reduce_spaces (emccArgs bindOpts)) as [joined|]; [|reflexivity].
  unfold spawnSync. simpl.
  destruct (String.eqb (emcc c1) ""); [reflexivity|].
  unfold bind, modify, ret. simpl.
  destruct (emcc_link w (emcc c1) _) as [[stderr stdout] status].
  unfold link_diagnostics, emit.
  destruct (String.eqb stderr ""), (String.eqb stdout ""); simpl;
    rewrite <- ?app_assoc; reflexivity.
Qed.

Lemma In_link_diagnostics_error stderr stdout e :
  In (LogError e) (link_diagnostics stderr stdout) <-> e = stderr /\ stderr <> "".
Proof.
  unfold link_diagnostics. rewrite in_app_iff.
  destruct (String.eqb_spec stderr "") as [E1|N1],
           (String.eqb_spec stdout "") as [E2|N2]; simpl;
    intuition congruence.
Qed.

Lemma In_link_diagnostics_info stderr stdout i :
  In (LogInfo i) (link_diagnostics stderr stdout) <-> i = stdout /\ stdout <> "".
Proof.
  unfold link_diagnostics. rewrite in_app_iff.
  destruct (String.eqb_spec stderr "") as [E1|N1],
           (String.eqb_spec stdout "") as [E2|N2]; simpl;
    intuition congruence.
Qed.

(** Once the linker has been invoked the stage completes. *)
Lemma linkStage_invoked w libRoot bindOpts c r c' :
  linkStage w libRoot bindOpts c = (r, c') ->
  closure_inv w c ->
  linked (trace c') = true -> r = Ok tt.
Proof.
  intros Hl Hinv Hlinked.
  destruct (invalidateCache c) eqn:Hi;
    [|destruct (existsSync w (finalLibrary libRoot bindOpts)) eqn:He].
  2:{ rewrite (linkStage_skip _ _ _ _ Hi He) in Hl. injection Hl as <- <-.
      reflexivity. }
  all: rewrite linkStage_run in Hl by auto.
  all: destruct (ensureEmscripten w (emit (LogInfo linking) c)) as [r1 c1] eqn:Hens.
  all: assert (T : toolchain_inv w (emit (LogInfo linking) c))
         by (apply (toolchain_inv_same w c);
             [reflexivity | reflexivity | closure_simpl; reflexivity
             | apply Hinv]).
  all: destruct (ensureEmscripten_inv _ _ _ _ T Hens)
         as [_ [_ [_ [_ [_ [Hli _]]]]]].
  all: assert (Hl1 : linked (trace c1) = false)
         by (rewrite Hli; closure_simpl; apply Hinv).
  all: destruct r1 as [[]|e];
         [|injection Hl as <- <-; congruence].
  all: destruct (JS.reduce_spaces (emccArgs bindOpts)) as [joined|];
         [|injection Hl as <- <-; congruence].
  all: cbv zeta in Hl.
  all: destruct (String.eqb (emcc c1) "");
         [injection Hl as <- <-; revert Hlinked; unfold running_emcc;
          closure_simpl; congruence|].
  all: destruct (emcc_link w (emcc c1) _) as [[stderr stdout] status].
  all: injection Hl as <- <-; reflexivity.
Qed.

(** What the linker answers plays no part in how the stage ends. *)
Lemma linkStage_outcome_any_linker w libRoot bindOpts c link' :
  fst (linkStage (with_linker w link') libRoot bindOpts c)
  = fst (linkStage w libRoot bindOpts c).
Proof.
  unfold linkStage, bind, get, modify.
  change (existsSync (with_linker w link')) with (existsSync w).
  destruct (invalidateCache c || negb (existsSync w (finalLibrary libRoot bindOpts)));
    [|reflexivity].
  change (ensureEmscripten (with_linker w link')) with (ensureEmscripten w).
  destruct (ensureEmscripten w _) as [[[]|e] c1]; [|reflexivity].
  destruct (JS.reduce_spaces (emccArgs bindOpts)) as [joined|]; [|reflexivity].
  unfold spawnSync. simpl.
  destruct (String.eqb (emcc c1) ""); [reflexivity|].
  unfold bind, modify, ret. simpl.
  destruct (link' (emcc c1) _) as [[e1 o1] s1].
  destruct (emcc_link w (emcc c1) _) as [[e2 o2] s2].
  destruct (String.eqb e1 ""), (String.eqb o1 ""),
           (String.eqb e2 ""), (String.eqb o2 ""); reflexivity.
Qed.

(** A link stage that runs with a toolchain that resolves and with link
    arguments invokes the linker and completes. *)
Lemma linkStage_completes w libRoot bindOpts c joined :
  invalidateCache c = true
  \/ existsSync w (finalLibrary libRoot bindOpts) = false ->
  toolchain_ready w c ->
  JS.reduce_spaces (emccArgs bindOpts) = Some joined ->
  exists c' pre command args stderr stdout status,
    linkStage w libRoot bindOpts c = (Ok tt, c')
    /\ emcc_link w command args = (stderr, stdout, status)
    /\ trace c'
       = (trace c ++ LogInfo linking :: pre ++ SpawnSync command args libRoot
            :: link_diagnostics stderr stdout)%list.
Proof.
  intros Hcond Hready Hargs.
  rewrite (linkStage_run _ _ _ _ Hcond), Hargs.
  assert (Hready' : toolchain_ready w (emit (LogInfo linking) c)) by exact Hready.
  destruct (ensureEmscripten_ready _ _ Hready')
    as [c1 [-> [Hne [_ [_ [pre Hpre]]]]]].
  cbv zeta. destruct (String.eqb_spec (emcc c1) ""); [contradiction|].
  destruct (emcc_link w (emcc c1) (targetFiles c1 ++ link_args bindOpts joined))
    as [[stderr stdout] status] eqn:Hlink.
  eexists. exists (pre ++ [running_emcc bindOpts joined])%list.
  exists (emcc c1), (targetFiles c1 ++ link_args bindOpts joined)%list.
  exists stderr, stdout, status.
  split; [reflexivity|]. split; [exact Hlink|].
  cbn [trace emit]. rewrite Hpre. cbn [trace emit].
  rewrite <- !app_assoc. reflexivity.
Qed.

(** C8. How the link stage ends does not depend on what the linker
    writes. When the stage runs with a toolchain that resolves and with
    link arguments, the linker is invoked and the stage completes,
    whatever its stderr, stdout and exit status: after the invocation it
    only logs stderr at error level when stderr is not empty, and stdout
    at information level when stdout is not empty. *)
Theorem link_stage_tolerates_stderr :
  forall w libRoot bindOpts c,
    (forall link',
       fst (linkStage (with_linker w link') libRoot bindOpts c)
       = fst (linkStage w libRoot bindOpts c)) /\
    (forall joined,
       invalidateCache c = true
       \/ existsSync w (finalLibrary libRoot bindOpts) = false ->
       toolchain_ready w c ->
       JS.reduce_spaces (emccArgs bindOpts) = Some joined ->
       exists c' pre command args stderr stdout status,
         linkStage w libRoot bindOpts c = (Ok tt, c')
         /\ emcc_link w command args = (stderr, stdout, status)
         /\ trace c'
            = (trace c ++ LogInfo linking :: pre
                 ++ SpawnSync command args libRoot
                 :: link_diagnostics stderr stdout)%list
         /\ (forall e, In (LogError e) (link_diagnostics stderr stdout)
                       <-> e = stderr /\ stderr <> "")
         /\ (forall i, In (LogInfo i) (link_diagnostics stderr stdout)
                       <-> i = stdout /\ stdout <> "")).
Proof.
  intros w libRoot bindOpts c. split.
  - intros link'. apply linkStage_outcome_any_linker.
  - intros joined Hcond Hready Hargs.
    destruct (linkStage_completes w libRoot bindOpts c joined Hcond Hready Hargs)
      as [c' [pre [command [args [stderr [stdout [status [H1 [H2 H3]]]]]]]]].
    exists c', pre, command, args, stderr, stdout, status.
    split; [exact H1|]. split; [exact H2|]. split; [exact H3|].
    split; intros x;
      [apply In_link_diagnostics_error | apply In_link_diagnostics_info].
Qed.

Lemma link_stage_tolerates_stderr_witness :
  let w := with_linker (Sample.world FS.Nil (Some "/emsdk")) Sample.noisy_linker in
  let c := set_invalidateCache true initial in
  exists c' pre command args,
    linkStage w "/lib" Sample.bindOpts c = (Ok tt, c')
    /\ trace c'
       = (trace c ++ LogInfo linking :: pre ++ SpawnSync command args "/lib"
            :: [LogError "ld: warning"; LogInfo "linked"])%list.
Proof.
  intros w c.
  destruct (link_stage_tolerates_stderr w "/lib" Sample.bindOpts c) as [_ H].
  destruct (H "-s X=1") as [c' [pre [command [args [e [o [st [H1 [H2 [H3 _]]]]]]]]]].
  - left. reflexivity.
  - right. split; [reflexivity | discriminate].
  - reflexivity.
  - exists c', pre, command, args. split; [exact H1|].
    injection H2 as <- <- _. exact H3.
Defined.

(** ** Exit codes *)

Section ExitCodes.

Variable w : World.
Variable compile' : string -> list string -> list string * Z.
Variable link' : string -> list string -> string * string * Z.
Hypothesis same_stderr :
  forall command args, fst (compile' command args) = fst (emcc_compile w command args).
Hypothesis same_output :
  forall command args, fst (link' command args) = fst (emcc_link w command args).

Let w' := with_linker (with_compiler w compile') link'.

Variable libRoot : string.
Variable bindOpts : KhabindOptions.

Lemma compileSource_step_codes recompileAll j c :
  compileSource_step w' libRoot bindOpts recompileAll j c
  = compileSource_step w libRoot bindOpts recompileAll j c.
Proof.
  unfold compileSource_step. destruct (at_phase j) as [|command args|].
  - reflexivity.
  - change (emcc_compile w' command args) with (compile' command args).
    specialize (same_stderr command args).
    destruct (compile' command args) as [chunks1 code1].
    destruct (emcc_compile w command args) as [chunks2 code2].
    simpl in same_stderr. subst. reflexivity.
  - reflexivity.
Qed.

Lemma step_codes recompileAll i p :
  step w' libRoot bindOpts recompileAll i p = step w libRoot bindOpts recompileAll i p.
Proof.
  unfold step. destruct (nth_error (running p) i); [|reflexivity].
  rewrite compileSource_step_codes. reflexivity.
Qed.

Lemma run_jobs_codes recompileAll schedule :
  forall p, run_jobs w' libRoot bindOpts recompileAll schedule p
            = run_jobs w libRoot bindOpts recompileAll schedule p.
Proof.
  induction schedule as [|i rest IH]; intros p; simpl; [reflexivity|].
  destruct (settled p); [reflexivity|].
  rewrite step_codes. apply IH.
Qed.

Lemma linkStage_codes c :
  linkStage w' libRoot bindOpts c = linkStage w libRoot bindOpts c.
Proof.
  unfold linkStage, bind, get, modify.
  change (existsSync w') with (existsSync w).
  destruct (invalidateCache c || negb (existsSync w (finalLibrary libRoot bindOpts)));
    [|reflexivity].
  change (ensureEmscripten w') with (ensureEmscripten w).
  destruct (ensureEmscripten w _) as [[[]|e] c1]; [|reflexivity].
  destruct (JS.reduce_spaces (emccArgs bindOpts)) as [joined|]; [|reflexivity].
  unfold spawnSync. simpl.
  destruct (String.eqb (emcc c1) ""); [reflexivity|].
  unfold bind, modify, ret. simpl.
  match goal with |- context [link' ?cmd ?args] =>
    specialize (same_output cmd args);
    destruct (link' cmd args) as [[e1 o1] s1];
    destruct (emcc_link w cmd args) as [[e2 o2] s2]
  end.
  simpl in same_output. injection same_output as -> ->. reflexivity.
Qed.

Lemma generateBindings_codes options korehl schedule :
  generateBindings w' libRoot bindOpts options korehl schedule
  = generateBindings w libRoot bindOpts options korehl schedule.
Proof.
  unfold generateBindings.
  destruct (unsupported options korehl); [reflexivity|].
  change (bindingsStage w') with (bindingsStage w).
  destruct (bindingsStage w libRoot bindOpts options initial) as [[rc|e] c];
    [|reflexivity].
  destruct (webTarget options); [|reflexivity].
  change (scanStage w') with (scanStage w).
  destruct (scanStage w libRoot bindOpts c) as [r c1].
  unfold jobsStage. change (start w') with (start w).
  rewrite run_jobs_codes.
  destruct (settled _) as [s|]; [|reflexivity].
  rewrite linkStage_codes. reflexivity.
Qed.

End ExitCodes.

(** C10. No exit code is looked at. A compiler process that ends with
    empty stderr makes its unit succeed even with a non-zero exit code; a
    linker that was invoked never fails the link stage, whatever its exit
    status; and a run is the same, outcome and trace, when the external
    programs answer with other exit codes. *)
Theorem exit_codes_are_ignored :
  forall w libRoot bindOpts options korehl,
    (forall recompileAll j c command args chunks code,
       at_phase j = AwaitClose command args ->
       emcc_compile w command args = (chunks, code) ->
       accumulate chunks = "" ->
       code <> 0%Z ->
       compileSource_step w libRoot bindOpts recompileAll j c
       = (Settled Resolve, c)) /\
    (forall c r c',
       closure_inv w c ->
       linkStage w libRoot bindOpts c = (r, c') ->
       linked (trace c') = true ->
       r = Ok tt) /\
    (forall compile' link' schedule,
       (forall command args,
          fst (compile' command args) = fst (emcc_compile w command args)) ->
       (forall command args,
          fst (link' command args) = fst (emcc_link w command args)) ->
       generateBindings (with_linker (with_compiler w compile') link')
         libRoot bindOpts options korehl schedule
       = generateBindings w libRoot bindOpts options korehl schedule).
Proof.
  intros w libRoot bindOpts options korehl. split; [|split].
  - intros rc j c command args chunks code Hph Hrun Hempty _.
    rewrite (step_AwaitClose_eq _ _ _ _ _ _ _ _ Hph), Hrun. simpl.
    rewrite Hempty. reflexivity.
  - intros c r c' Hinv Hl Hlinked. eapply linkStage_invoked; eassumption.
  - intros compile' link' schedule Hc Hl.
    apply generateBindings_codes; assumption.
Qed.

Lemma exit_codes_are_ignored_witness :
  let w := with_linker
             (with_compiler (Sample.bare_world (Some "/emsdk"))
                (fun _ _ => ([], 3%Z)))
             Sample.noisy_linker in
  let j := mkJob "/lib/src/foo.cpp" "/lib/khabind/bytecode/src/foo.cpp.bc"
             (AwaitClose "/emsdk/emcc" ["-c"]) in
  compileSource_step w "/lib" Sample.bindOpts false j initial
  = (Settled Resolve, initial)
  /\ fst (linkStage w "/lib" Sample.bindOpts initial) = Ok tt
  /\ generateBindings
       (with_linker (with_compiler w (fun _ _ => ([], 0%Z)))
          (fun _ _ => ("ld: warning", "linked", 0%Z)))
       "/lib" Sample.bindOpts Sample.options false [0; 0]
     = generateBindings w "/lib" Sample.bindOpts Sample.options false [0; 0].
Proof.
  intros w j.
  destruct (exit_codes_are_ignored w "/lib" Sample.bindOpts Sample.options false)
    as [H1 [H2 H3]].
  split; [|split].
  - apply (H1 false j initial "/emsdk/emcc" ["-c"] [] 3%Z);
      [reflexivity | reflexivity | reflexivity | discriminate].
  - apply (H2 initial (fst (linkStage w "/lib" Sample.bindOpts initial))
              (snd (linkStage w "/lib" Sample.bindOpts initial))).
    + apply fresh_closure_inv, initial_fresh.
    + reflexivity.
    + reflexivity.
  - apply H3; reflexivity.
Defined.

(** ** The run as a whole *)

Lemma webTarget_supported options korehl :
  webTarget options = true -> unsupported options korehl = false.
Proof.
  unfold webTarget, unsupported.
  destruct (String.eqb (target options) "krom"),
           (JS.endsWith (target options) "html5"); simpl; congruence.
Qed.

Lemma settled_Reject p e :
  settled p = Some (Reject e) -> failure p = Some e.
Proof.
  unfold settled. destruct (failure p); [congruence|].
  destruct (waiting p), (running p); discriminate.
Qed.

Lemma settled_Resolve p :
  settled p = Some Resolve -> failure p = None /\ running p = [].
Proof.
  unfold settled. destruct (failure p); [discriminate|].
  destruct (waiting p), (running p); try discriminate. auto.
Qed.

Lemma reduce_spaces_some l :
  l <> [] -> exists joined, JS.reduce_spaces l = Some joined.
Proof. destruct l; [contradiction | simpl; eauto]. Qed.

(** When the units have settled, the toolchain was not found absent, and
    the cache is invalidated exactly when a compiler was started. *)
Lemma settled_changed w libRoot recompileAll tasks p s :
  pool_inv w libRoot recompileAll tasks p ->
  settled p = Some s ->
  emsdk (vars p) <> None
  /\ (invalidateCache (vars p) = true <-> compiled (trace (vars p)) = true).
Proof.
  intros [[T I2 I3 I4] IA IF ICl IN IJ IW] Hs.
  assert (Hsdk : emsdk (vars p) <> None).
  { intros Hn. destruct (IA Hn) as [j [Hj Hp]].
    destruct s as [|e].
    - apply settled_Resolve in Hs. destruct Hs as [_ Hr].
      rewrite Hr in Hj. contradiction.
    - apply settled_Reject in Hs.
      assert (Hc : compiled (trace (vars p)) = true) by (apply IF; congruence).
      destruct (I2 Hc) as [_ Hne].
      destruct (toolchain_resolved w _ T Hne) as [sdk [_ H]]. congruence. }
  split; [exact Hsdk|]. split.
  - intros Hi. destruct (I3 Hi); [assumption | contradiction].
  - intros Hc. apply I2. exact Hc.
Qed.

Lemma catch_log_inv w s c : closure_inv w c -> closure_inv w (catch_log s c).
Proof.
  intros H. destruct s as [|e]; [exact H|].
  apply (closure_inv_same w c); simpl; closure_simpl; auto.
Qed.

Lemma catch_log_neutral s c : neutral c (catch_log s c).
Proof.
  destruct s as [|e]; [apply neutral_refl|].
  constructor; simpl; closure_simpl; reflexivity.
Qed.

(** C3, as the code has it. When a compile rejects, its message is logged
    at information level and the pipeline goes on into the link stage:
    the failing unit has invalidated the cache before it started the
    compiler, so with link arguments the linker is invoked, and the
    pipeline returns normally. *)
Theorem compile_failure_is_logged :
  forall w libRoot bindOpts options korehl schedule err,
    webTarget options = true ->
    compile_rejects w libRoot bindOpts options schedule err ->
    emccArgs bindOpts <> [] ->
    exists tr,
      generateBindings w libRoot bindOpts options korehl schedule = (Returned, tr)
      /\ In (LogInfo err) tr
      /\ compiled tr = true
      /\ linked tr = true.
Proof.
  intros w libRoot bindOpts options korehl schedule err Hweb [rc [c [Hb Hs]]] Hargs.
  unfold generateBindings.
  rewrite (webTarget_supported _ korehl Hweb), Hb, Hweb.
  assert (Hf : fresh (snd (scanStage w libRoot bindOpts c))).
  { assert (H := prepared_fresh w libRoot bindOpts options).
    rewrite Hb in H. exact H. }
  destruct (scanStage w libRoot bindOpts c) as [r c1]. simpl in Hs, Hf.
  assert (HI := jobsStage_inv w libRoot bindOpts rc schedule c1 Hf).
  set (p := jobsStage w libRoot bindOpts rc schedule c1) in *.
  rewrite Hs. cbn [catch_log].
  assert (Hc : compiled (trace (vars p)) = true).
  { apply (inv_failure _ _ _ _ _ HI). rewrite (settled_Reject _ _ Hs). discriminate. }
  destruct (inv_compiled _ _ (inv_closure _ _ _ _ _ HI) Hc) as [Hi Hne].
  destruct (reduce_spaces_some _ Hargs) as [joined Hj].
  destruct (linkStage_completes w libRoot bindOpts (emit (LogInfo err) (vars p)) joined)
    as [c' [pre [command [args [stderr [stdout [status [H1 [_ H3]]]]]]]]].
  - left. exact Hi.
  - apply toolchain_ready_of_inv; [|exact Hne].
    apply (toolchain_inv_same w (vars p));
      [reflexivity | reflexivity | closure_simpl; reflexivity
      | apply (inv_toolchain _ _ (inv_closure _ _ _ _ _ HI))].
  - exact Hj.
  - rewrite H1. eexists. split; [reflexivity|].
    cbn [trace emit]. rewrite H3. cbn [trace emit].
    split; [|split].
    + rewrite !in_app_iff. left. left. right. left. reflexivity.
    + rewrite !compiled_app, Hc. reflexivity.
    + rewrite linked_app. apply orb_true_iff. left.
      rewrite linked_app. apply orb_true_iff. right.
      change (LogInfo linking :: pre ++ SpawnSync command args libRoot
                :: link_diagnostics stderr stdout)%list
        with ([LogInfo linking] ++ pre ++ [SpawnSync command args libRoot]
                ++ link_diagnostics stderr stdout)%list.
      rewrite !linked_app. cbn [linked existsb is_SpawnSync].
      rewrite !orb_true_r. reflexivity.
Qed.

Lemma sample_compile_rejects :
  compile_rejects
    (with_compiler (Sample.world FS.Nil (Some "/emsdk")) Sample.picky_compiler)
    "/lib" Sample.bindOpts Sample.options [0; 0; 0; 0]
    "bar.c:1: warning: unused variable".
Proof.
  unfold compile_rejects.
  exists false.
  exists (snd (bindingsStage
                 (with_compiler (Sample.world FS.Nil (Some "/emsdk"))
                    Sample.picky_compiler)
                 "/lib" Sample.bindOpts Sample.options initial)).
  split; vm_compute; reflexivity.
Qed.

Lemma compile_failure_is_logged_witness :
  let w := with_compiler (Sample.world FS.Nil (Some "/emsdk")) Sample.picky_compiler in
  exists tr,
    generateBindings w "/lib" Sample.bindOpts Sample.options false [0; 0; 0; 0]
    = (Returned, tr)
    /\ In (LogInfo "bar.c:1: warning: unused variable") tr
    /\ compiled tr = true
    /\ linked tr = true.
Proof.
  intro w.
  apply (compile_failure_is_logged w "/lib" Sample.bindOpts Sample.options false
           [0; 0; 0; 0] "bar.c:1: warning: unused variable").
  - reflexivity.
  - exact sample_compile_rejects.
  - discriminate.
Defined.

(** C3, as stated, fails: the compile of [src/sub/bar.c] rejects, and the
    pipeline still returns normally (and has invoked the linker). *)
Lemma compile_failure_is_not_terminal :
  ~ compile_failure_is_terminal
      (with_compiler (Sample.world FS.Nil (Some "/emsdk")) Sample.picky_compiler)
      "/lib" Sample.bindOpts Sample.options false [0; 0; 0; 0].
Proof.
  intros H.
  destruct (H _ sample_compile_rejects) as [Hout _].
  vm_compute in Hout. discriminate.
Qed.

(** ** When the link stage runs *)

Lemma linked_with_SpawnSync pre command args dir rest :
  linked (pre ++ SpawnSync command args dir :: rest) = true.
Proof.
  rewrite linked_app. apply orb_true_iff. right. reflexivity.
Qed.

Lemma ensureEmscripten_trace w c :
  exists pre, trace (snd (ensureEmscripten w c)) = (trace c ++ pre)%list.
Proof.
  unfold ensureEmscripten. destruct (neq_empty (emsdk c)).
  - exists []. simpl. now rewrite app_nil_r.
  - simpl. destruct (env_EMSCRIPTEN w); simpl.
    + eexists. reflexivity.
    + rewrite <- app_assoc. eexists. reflexivity.
Qed.

Lemma toolchain_ready_env w c :
  toolchain_inv w c -> env_EMSCRIPTEN w <> None -> toolchain_ready w c.
Proof.
  intros [[H1 [H2 H3]]|[[H1 [H2 [H3 H4]]]|[sdk [H1 [H2 [H3 [H4 H5]]]]]]] Henv.
  - right. rewrite H1. auto.
  - contradiction.
  - unfold toolchain_ready. rewrite H2, H3. simpl.
    destruct (String.eqb sdk ""); [right | left]; split; auto.
    apply join_nonempty.
Qed.

(** A link stage that runs first logs that it links. *)
Lemma linkStage_enters w libRoot bindOpts c :
  invalidateCache c = true
  \/ existsSync w (finalLibrary libRoot bindOpts) = false ->
  exists r c' rest,
    linkStage w libRoot bindOpts c = (r, c')
    /\ trace c' = (trace c ++ LogInfo linking :: rest)%list.
Proof.
  intros Hcond. rewrite (linkStage_run _ _ _ _ Hcond).
  destruct (ensureEmscripten_trace w (emit (LogInfo linking) c)) as [pre Hpre].
  destruct (ensureEmscripten w (emit (LogInfo linking) c)) as [[[]|e] c1];
    simpl in Hpre; rewrite <- app_assoc in Hpre.
  - destruct (JS.reduce_spaces (emccArgs bindOpts)) as [joined|].
    + cbv zeta. destruct (String.eqb (emcc c1) "").
      * do 3 eexists. split; [reflexivity|]. cbn [trace emit].
        rewrite Hpre, <- app_assoc. reflexivity.
      * destruct (emcc_link w _ _) as [[stderr stdout] status].
        do 3 eexists. split; [reflexivity|]. cbn [trace emit].
        rewrite Hpre, <- !app_assoc. reflexivity.
    + do 3 eexists. split; [reflexivity | exact Hpre].
  - do 3 eexists. split; [reflexivity | exact Hpre].
Qed.

(** C6. When the units have settled, the flag [invalidateCache] is set
    exactly when at least one compiler process was started, and no linker
    has run yet. The link stage then runs if and only if the flag is set
    or the final library does not exist: with the flag unset and the
    library present the stage does nothing at all, so no linker is
    invoked in the whole run; otherwise the stage logs that it links and,
    when the toolchain resolves and there are link arguments, invokes the
    linker. *)
Theorem link_runs_iff_changed :
  forall w libRoot bindOpts options korehl schedule recompileAll c s,
    bindingsStage w libRoot bindOpts options initial = (Ok recompileAll, c) ->
    settled (jobsStage w libRoot bindOpts recompileAll schedule
               (snd (scanStage w libRoot bindOpts c))) = Some s ->
    let c2 := catch_log s
                (vars (jobsStage w libRoot bindOpts recompileAll schedule
                         (snd (scanStage w libRoot bindOpts c)))) in
    (invalidateCache c2 = true <-> compiled (trace c2) = true)
    /\ linked (trace c2) = false
    /\ (invalidateCache c2 = false ->
        existsSync w (finalLibrary libRoot bindOpts) = true ->
        linkStage w libRoot bindOpts c2 = (Ok tt, c2))
    /\ (invalidateCache c2 = true
        \/ existsSync w (finalLibrary libRoot bindOpts) = false ->
        exists r c3 rest,
          linkStage w libRoot bindOpts c2 = (r, c3)
          /\ trace c3 = (trace c2 ++ LogInfo linking :: rest)%list
          /\ (env_EMSCRIPTEN w <> None -> emccArgs bindOpts <> [] ->
              r = Ok tt /\ linked rest = true))
    /\ (linked (snd (generateBindings w libRoot bindOpts options korehl schedule))
        = true ->
        invalidateCache c2 = true
        \/ existsSync w (finalLibrary libRoot bindOpts) = false).
Proof.
  intros w libRoot bindOpts options korehl schedule rc c s Hb.
  assert (Hf : fresh (snd (scanStage w libRoot bindOpts c))).
  { assert (H := prepared_fresh w libRoot bindOpts options).
    rewrite Hb in H. exact H. }
  assert (Hfc : fresh c).
  { assert (H := bindingsStage_neutral w libRoot bindOpts options initial).
    rewrite Hb in H. eapply neutral_fresh; [exact H | apply initial_fresh]. }
  unfold generateBindings. rewrite Hb.
  destruct (scanStage w libRoot bindOpts c) as [r0 c1]. cbn [snd] in Hf |- *.
  assert (HI := jobsStage_inv w libRoot bindOpts rc schedule c1 Hf).
  set (p := jobsStage w libRoot bindOpts rc schedule c1) in *.
  intros Hs. set (c2 := catch_log s (vars p)).
  destruct (settled_changed _ _ _ _ _ _ HI Hs) as [Hsdk Hiff].
  assert (HN := catch_log_neutral s (vars p)). fold c2 in HN.
  assert (HC : closure_inv w c2) by (apply catch_log_inv, HI).
  destruct HN as [N1 N2 N3 N5 N6 N7].
  split; [rewrite N3, N6; exact Hiff|].
  split; [apply HC|].
  split; [apply linkStage_skip|].
  split.
  - intros Hcond.
    destruct (env_EMSCRIPTEN w) as [sdk|] eqn:Henv;
      [destruct (emccArgs bindOpts) as [|a l] eqn:Hargs|].
    2:{ destruct (linkStage_completes w libRoot bindOpts c2
                    (fold_left (fun a b : string => a ++ " " ++ b) l a) Hcond)
          as [c' [pre [command [args [e [o [st [H1 [_ H3]]]]]]]]].
        - apply toolchain_ready_env; [apply HC | congruence].
        - rewrite Hargs. reflexivity.
        - exists (Ok tt), c'. eexists. split; [exact H1|]. split; [exact H3|].
          intros _ _. split; [reflexivity | apply linked_with_SpawnSync]. }
    all: destruct (linkStage_enters w libRoot bindOpts c2 Hcond)
           as [r [c3 [rest [H1 H2]]]].
    all: exists r, c3, rest; split; [exact H1|]; split; [exact H2|].
    all: intros H3 H4; congruence.
  - destruct (unsupported options korehl); [discriminate|].
    destruct (webTarget options).
    + rewrite Hs.
      change (match s with
              | Resolve => vars p
              | Reject err => emit (LogInfo err) (vars p)
              end) with c2.
      destruct (invalidateCache c2) eqn:Hi; [auto|].
      destruct (existsSync w (finalLibrary libRoot bindOpts)) eqn:He; [|auto].
      rewrite (linkStage_skip _ _ _ _ Hi He). cbn [snd].
      closure_simpl. rewrite (inv_unlinked _ _ HC). discriminate.
    + cbn [snd]. closure_simpl. rewrite (fresh_linked _ Hfc). discriminate.
Qed.

Lemma link_runs_iff_changed_witness :
  (invalidateCache (Sample.settled_closure Sample.fresh_world Resolve) = true
   <-> compiled (trace (Sample.settled_closure Sample.fresh_world Resolve)) = true)
  /\ linked (trace (Sample.settled_closure Sample.fresh_world Resolve)) = false.
Proof.
  assert (E1 : bindingsStage Sample.fresh_world "/lib" Sample.bindOpts
                 Sample.options initial
               = (Ok false, Sample.bound Sample.fresh_world))
    by (vm_compute; reflexivity).
  assert (E2 : settled (jobsStage Sample.fresh_world "/lib" Sample.bindOpts false
                          Sample.schedule
                          (snd (scanStage Sample.fresh_world "/lib" Sample.bindOpts
                                  (Sample.bound Sample.fresh_world))))
               = Some Resolve)
    by (vm_compute; reflexivity).
  pose proof (link_runs_iff_changed Sample.fresh_world "/lib" Sample.bindOpts
                Sample.options false Sample.schedule false
                (Sample.bound Sample.fresh_world) Resolve E1 E2) as H.
  cbv zeta in H. destruct H as [H1 [H2 _]].
  split; [exact H1 | exact H2].
Defined.

(** ** Reads of the environment *)

Lemma toolchain_started w c :
  toolchain_inv w c -> env_reads (trace c) = 0 ->
  emsdk c = Some "" /\ emcc c = "".
Proof.
  intros [[H1 [H2 H3]]|[[H1 [H2 [H3 H4]]]|[sdk [H1 [H2 [H3 [H4 H5]]]]]]] H0;
    [auto | lia | lia].
Qed.

(** The link stage keeps the toolchain variables in one of their three
    states, and reads the environment only when it runs. *)
Lemma linkStage_toolchain w libRoot bindOpts c :
  toolchain_inv w c ->
  toolchain_inv w (snd (linkStage w libRoot bindOpts c))
  /\ (env_reads (trace (snd (linkStage w libRoot bindOpts c)))
      <> env_reads (trace c) ->
      invalidateCache c = true
      \/ existsSync w (finalLibrary libRoot bindOpts) = false).
Proof.
  intros T.
  destruct (invalidateCache c) eqn:Hi;
    [|destruct (existsSync w (finalLibrary libRoot bindOpts)) eqn:He].
  2:{ rewrite (linkStage_skip _ _ _ _ Hi He). simpl. split; [exact T | congruence]. }
  all: split; [|auto].
  all: rewrite linkStage_run by auto.
  all: assert (T0 : toolchain_inv w (emit (LogInfo linking) c))
         by (apply (toolchain_inv_same w c);
             [reflexivity | reflexivity | closure_simpl; reflexivity | exact T]).
  all: destruct (ensureEmscripten w (emit (LogInfo linking) c)) as [r1 c1] eqn:Hens.
  all: destruct (ensureEmscripten_inv _ _ _ _ T0 Hens) as [T1 _].
  all: destruct r1 as [[]|e]; [|exact T1].
  all: destruct (JS.reduce_spaces (emccArgs bindOpts)) as [joined|]; [|exact T1].
  all: cbv zeta.
  all: destruct (String.eqb (emcc c1) "");
         [apply (toolchain_inv_same w c1);
          [reflexivity | reflexivity
          | cbn [snd]; unfold running_emcc; closure_simpl; reflexivity
          | exact T1]|].
  all: destruct (emcc_link w (emcc c1) _) as [[stderr stdout] status].
  all: apply (toolchain_inv_same w c1); [reflexivity | reflexivity | | exact T1].
  all: cbn [snd trace emit]; unfold running_emcc, link_diagnostics.
  all: destruct (String.eqb stderr ""), (String.eqb stdout "");
         closure_simpl; reflexivity.
Qed.

Ltac fold_catch_log s p :=
  change (match s with
          | Resolve => vars p
          | Reject err => emit (LogInfo err) (vars p)
          end) with (catch_log s (vars p)).

(** In every run the environment is read at most once, unless
    [EMSCRIPTEN] is set to the empty string. *)
Lemma generateBindings_reads w libRoot bindOpts options korehl schedule :
  env_EMSCRIPTEN w <> Some "" ->
  env_reads (snd (generateBindings w libRoot bindOpts options korehl schedule)) <= 1.
Proof.
  intros Henv. unfold generateBindings.
  destruct (unsupported options korehl).
  { cbn [snd]. rewrite env_reads_one. cbn. lia. }
  assert (HN := bindingsStage_neutral w libRoot bindOpts options initial).
  destruct (bindingsStage w libRoot bindOpts options initial) as [[rc|e] c];
    cbn [snd] in HN |- *.
  2:{ rewrite (neutral_reads _ _ HN), (fresh_reads _ initial_fresh). lia. }
  destruct (webTarget options).
  2:{ cbn [snd]. closure_simpl.
      rewrite (neutral_reads _ _ HN), (fresh_reads _ initial_fresh). lia. }
  assert (Hf : fresh (snd (scanStage w libRoot bindOpts c))).
  { eapply neutral_fresh; [apply scanStage_neutral|].
    eapply neutral_fresh; [exact HN | apply initial_fresh]. }
  destruct (scanStage w libRoot bindOpts c) as [r0 c1]. cbn [snd] in Hf.
  assert (HI := jobsStage_inv w libRoot bindOpts rc schedule c1 Hf).
  set (p := jobsStage w libRoot bindOpts rc schedule c1) in *.
  destruct (settled p) as [s|].
  - fold_catch_log s p.
    assert (HC : closure_inv w (catch_log s (vars p))) by (apply catch_log_inv, HI).
    destruct (linkStage_toolchain w libRoot bindOpts _ (inv_toolchain _ _ HC))
      as [T3 _].
    destruct (linkStage w libRoot bindOpts (catch_log s (vars p))) as [[[]|e] c3];
      cbn [snd] in *.
    + closure_simpl. apply (toolchain_reads_le w); assumption.
    + apply (toolchain_reads_le w); assumption.
  - cbn [snd]. apply (toolchain_reads_le w); [apply HI | assumption].
Qed.

(** The environment is read only for a stale source or for a missing
    final library. *)
Lemma generateBindings_lazy w libRoot bindOpts options korehl schedule rc c :
  bindingsStage w libRoot bindOpts options initial = (Ok rc, c) ->
  env_reads (snd (generateBindings w libRoot bindOpts options korehl schedule)) <> 0 ->
  (exists f,
     In f (sourceFiles (snd (scanStage w libRoot bindOpts c)))
     /\ decide w rc f (targetFile_of w libRoot f) = Stale)
  \/ existsSync w (finalLibrary libRoot bindOpts) = false.
Proof.
  intros Hb. unfold generateBindings.
  destruct (unsupported options korehl).
  { cbn [snd]. rewrite env_reads_one. cbn. congruence. }
  assert (HN := bindingsStage_neutral w libRoot bindOpts options initial).
  rewrite Hb in HN |- *. cbn [snd] in HN.
  destruct (webTarget options).
  2:{ cbn [snd]. closure_simpl.
      rewrite (neutral_reads _ _ HN), (fresh_reads _ initial_fresh). congruence. }
  assert (Hf : fresh (snd (scanStage w libRoot bindOpts c))).
  { eapply neutral_fresh; [apply scanStage_neutral|].
    eapply neutral_fresh; [exact HN | apply initial_fresh]. }
  destruct (scanStage w libRoot bindOpts c) as [r0 c1]. cbn [snd] in Hf |- *.
  assert (HI := jobsStage_inv w libRoot bindOpts rc schedule c1 Hf).
  set (p := jobsStage w libRoot bindOpts rc schedule c1) in *.
  destruct (settled p) as [s|].
  - fold_catch_log s p.
    assert (HC : closure_inv w (catch_log s (vars p))) by (apply catch_log_inv, HI).
    destruct (linkStage_toolchain w libRoot bindOpts _ (inv_toolchain _ _ HC))
      as [_ Hlazy].
    assert (HNc := catch_log_neutral s (vars p)).
    intros Hreads.
    assert (Hr : env_reads
                   (trace (snd (linkStage w libRoot bindOpts (catch_log s (vars p)))))
                 <> 0).
    { destruct (linkStage w libRoot bindOpts (catch_log s (vars p))) as [[[]|e] c3];
        cbn [snd] in *; [|exact Hreads].
      revert Hreads. closure_simpl. auto. }
    destruct (Nat.eq_dec (env_reads (trace (vars p))) 0) as [H0|Hn0].
    + destruct Hlazy as [Hi|He].
      * rewrite (neutral_reads _ _ HNc). congruence.
      * exfalso. rewrite (neutral_cache _ _ HNc) in Hi.
        destruct (toolchain_started w _ (inv_toolchain _ _ (inv_closure _ _ _ _ _ HI)) H0)
          as [Hsdk Hemcc].
        destruct (inv_changed _ _ (inv_closure _ _ _ _ _ HI) Hi) as [Hc|Hn];
          [|congruence].
        destruct (inv_compiled _ _ (inv_closure _ _ _ _ _ HI) Hc). contradiction.
      * right. exact He.
    + left. apply (inv_need _ _ _ _ _ HI). exact Hn0.
  - cbn [snd]. intros Hreads. left. apply (inv_need _ _ _ _ _ HI). exact Hreads.
Qed.

(** ** A run in which nothing is stale *)

Section Idle.

Variable w : World.
Variable libRoot : string.
Variable bindOpts : KhabindOptions.
Variable recompileAll : bool.

Lemma executeTask_idle p :
  idle w libRoot recompileAll p ->
  idle w libRoot recompileAll (executeTask w libRoot p)
  /\ neutral (vars p) (vars (executeTask w libRoot p))
  /\ List.length (waiting (executeTask w libRoot p))
     + List.length (running (executeTask w libRoot p))
     = List.length (waiting p) + List.length (running p)
  /\ (waiting (executeTask w libRoot p) <> []
      -> running (executeTask w libRoot p) <> []).
Proof.
  intros HI. unfold executeTask.
  destruct (waiting p) as [|f rest] eqn:Hw.
  - split; [exact HI|]. split; [apply neutral_refl|].
    split; [now rewrite Hw|]. rewrite Hw. congruence.
  - destruct HI as [I1 I2 I3]. rewrite Hw in I3.
    rewrite compileSource_begin_cases.
    destruct (I3 f (or_introl eq_refl)) as [Hup ->].
    cbn [waiting running vars failure].
    split; [|split; [|split]].
    + constructor; cbn [waiting running vars failure].
      * exact I1.
      * intros j Hj. apply in_app_or in Hj. destruct Hj as [Hj|[<-|[]]]; [auto|].
        cbn. split; [reflexivity | exact Hup].
      * intros f' Hf'. apply I3. right. exact Hf'.
    + constructor; closure_simpl; reflexivity.
    + rewrite length_app. simpl. lia.
    + intros _ H. apply app_eq_nil in H. destruct H as [_ H]. discriminate.
Qed.

Lemma start_idle tasks c :
  (forall f, In f tasks ->
             decide w recompileAll f (targetFile_of w libRoot f) = UpToDate
             /\ ensured w libRoot f = true) ->
  1 <= cpus w ->
  idle w libRoot recompileAll (start w libRoot tasks c)
  /\ neutral c (vars (start w libRoot tasks c))
  /\ List.length (waiting (start w libRoot tasks c))
     + List.length (running (start w libRoot tasks c))
     = List.length tasks
  /\ (waiting (start w libRoot tasks c) <> []
      -> running (start w libRoot tasks c) <> []).
Proof.
  intros Hup Hcpus. unfold start.
  assert (H0 : idle w libRoot recompileAll (mkPool tasks [] None c)).
  { constructor; cbn; [reflexivity | tauto | exact Hup]. }
  assert (Hiter : forall k,
            idle w libRoot recompileAll
              (Nat.iter k (executeTask w libRoot) (mkPool tasks [] None c))
            /\ neutral c (vars (Nat.iter k (executeTask w libRoot)
                                  (mkPool tasks [] None c)))
            /\ List.length (waiting (Nat.iter k (executeTask w libRoot)
                                       (mkPool tasks [] None c)))
               + List.length (running (Nat.iter k (executeTask w libRoot)
                                         (mkPool tasks [] None c)))
               = List.length tasks).
  { induction k as [|k [IH1 [IH2 IH3]]]; [|rewrite Nat.iter_succ].
    - split; [exact H0|]. split; [apply neutral_refl|]. cbn. lia.
    - destruct (executeTask_idle _ IH1) as [E1 [E2 [E3 _]]].
      split; [exact E1|]. split; [eapply neutral_trans; eassumption|].
      rewrite E3. exact IH3. }
  destruct (Hiter (Nat.min (cpus w) (List.length tasks))) as [K1 [K2 K3]].
  split; [exact K1|]. split; [exact K2|]. split; [exact K3|].
  destruct (Nat.min (cpus w) (List.length tasks)) as [|k] eqn:Hk.
  - cbn. destruct tasks as [|f tasks']; [congruence|]. simpl in Hk. lia.
  - rewrite Nat.iter_succ.
    destruct (Hiter k) as [IH1 _].
    apply (executeTask_idle _ IH1).
Qed.

Lemma run_idle : forall n p,
  idle w libRoot recompileAll p ->
  (waiting p <> [] -> running p <> []) ->
  List.length (waiting p) + List.length (running p) = n ->
  settled (run_jobs w libRoot bindOpts recompileAll (repeat 0 n) p) = Some Resolve
  /\ neutral (vars p)
       (vars (run_jobs w libRoot bindOpts recompileAll (repeat 0 n) p)).
Proof.
  induction n as [|n IH]; intros p HI Hne Hlen.
  - cbn. destruct HI as [I1 _ _]. unfold settled. rewrite I1.
    destruct (waiting p), (running p); try discriminate.
    split; [reflexivity | apply neutral_refl].
  - cbn [repeat run_jobs].
    destruct (running p) as [|j rs] eqn:Hr.
    { destruct (waiting p); [discriminate | exfalso; apply Hne; congruence]. }
    assert (Hs : settled p = None).
    { unfold settled. rewrite (idle_failure _ _ _ _ HI), Hr.
      destruct (waiting p); reflexivity. }
    rewrite Hs.
    assert (Hj : at_phase j = AwaitFs
                 /\ decide w recompileAll (file j) (targetFile j) = UpToDate).
    { apply (idle_running _ _ _ _ HI). rewrite Hr. left. reflexivity. }
    destruct Hj as [Hph Hd].
    assert (Hstep : step w libRoot bindOpts recompileAll 0 p
                    = executeTask w libRoot (mkPool (waiting p) rs None (vars p))).
    { unfold step. rewrite Hr. cbn [nth_error].
      rewrite (compileSource_step_AwaitFs _ _ _ _ _ _ Hph), Hd.
      rewrite (idle_failure _ _ _ _ HI). reflexivity. }
    rewrite Hstep.
    assert (HI1 : idle w libRoot recompileAll (mkPool (waiting p) rs None (vars p))).
    { destruct HI as [I1 I2 I3]. constructor; cbn; [reflexivity | | exact I3].
      intros j' Hj'. apply I2. rewrite Hr. right. exact Hj'. }
    destruct (executeTask_idle _ HI1) as [E1 [E2 [E3 E4]]].
    destruct (IH _ E1 E4) as [R1 R2].
    + rewrite E3. cbn. simpl in Hlen. lia.
    + split; [exact R1|]. eapply neutral_trans; [exact E2 | exact R2].
Qed.

End Idle.

(** With nothing stale and the final library in place, the run that lets
    each unit check its files returns normally without reading the
    environment and without starting any compiler or linker. *)
Lemma generateBindings_idle w libRoot bindOpts options korehl rc c :
  bindingsStage w libRoot bindOpts options initial = (Ok rc, c) ->
  (forall f, In f (found w libRoot bindOpts c) ->
             decide w rc f (targetFile_of w libRoot f) = UpToDate
             /\ ensured w libRoot f = true) ->
  existsSync w (finalLibrary libRoot bindOpts) = true ->
  1 <= cpus w ->
  exists tr,
    generateBindings w libRoot bindOpts options korehl
      (repeat 0 (List.length (found w libRoot bindOpts c)))
    = (Returned, tr)
    /\ env_reads tr = 0 /\ compiled tr = false /\ linked tr = false.
Proof.
  unfold found. intros Hb Hup Hfinal Hcpus. unfold generateBindings.
  destruct (unsupported options korehl).
  { eexists. split; [reflexivity|].
    rewrite env_reads_one, compiled_one, linked_one. cbn. auto. }
  assert (Hfc : fresh c).
  { assert (H := bindingsStage_neutral w libRoot bindOpts options initial).
    rewrite Hb in H. eapply neutral_fresh; [exact H | apply initial_fresh]. }
  rewrite Hb.
  destruct (webTarget options).
  2:{ eexists. split; [reflexivity|]. closure_simpl.
      destruct Hfc as [_ _ _ H1 H2 H3]. rewrite H1, H2, H3. auto. }
  assert (Hf : fresh (snd (scanStage w libRoot bindOpts c))).
  { eapply neutral_fresh; [apply scanStage_neutral | exact Hfc]. }
  destruct (scanStage w libRoot bindOpts c) as [r0 c1]. cbn [snd] in *.
  unfold jobsStage.
  destruct (start_idle w libRoot rc (sourceFiles c1) c1 Hup Hcpus)
    as [K1 [K2 [K3 K4]]].
  destruct (run_idle w libRoot bindOpts rc _ _ K1 K4 K3) as [R1 R2].
  rewrite R1.
  set (p := run_jobs w libRoot bindOpts rc _ _) in *.
  assert (HN : neutral c1 (vars p)) by (eapply neutral_trans; eassumption).
  assert (Hfp : fresh (vars p)) by (eapply neutral_fresh; eassumption).
  rewrite (linkStage_skip w libRoot bindOpts (vars p) (fresh_cache _ Hfp) Hfinal).
  eexists. split; [reflexivity|]. closure_simpl.
  destruct Hfp as [_ _ _ H1 H2 H3]. rewrite H1, H2, H3. auto.
Qed.

(** With [EMSCRIPTEN] set to the empty string a call of the resolver
    reads the environment and leaves the toolchain variable empty, so
    that the next call reads again. *)
Lemma ensureEmscripten_not_memoized w c :
  env_EMSCRIPTEN w = Some "" -> emsdk c = Some "" ->
  emsdk (snd (ensureEmscripten w c)) = Some ""
  /\ env_reads (trace (snd (ensureEmscripten w c))) = S (env_reads (trace c)).
Proof.
  intros Henv Hs.
  rewrite (ensureEmscripten_present w c ""); [|now rewrite Hs | exact Henv].
  cbn [snd emsdk set_emcc set_emsdk trace emit].
  rewrite env_reads_app, env_reads_one. cbn [is_ReadEnv].
  split; [reflexivity | lia].
Qed.

(** C7, where the code departs from it. The resolver takes the empty
    string for "not resolved yet" (line 76), and the empty string is also
    what it stores when [EMSCRIPTEN] is set to the empty string: a call
    then leaves the toolchain variable as it found it, and the next call
    reads the environment again. Two calls in a row read it twice, and
    the run of the sample library, with three stale sources and a link,
    reads it four times. *)
Theorem empty_EMSCRIPTEN_is_read_again :
  env_reads
    (snd (generateBindings Sample.empty_env_world "/lib" Sample.bindOpts
            Sample.options false Sample.schedule))
  = 4
  /\ emsdk (snd (ensureEmscripten Sample.empty_env_world initial)) = Some ""
  /\ trace
       (snd (ensureEmscripten Sample.empty_env_world
               (snd (ensureEmscripten Sample.empty_env_world initial))))
     = [ReadEnv "EMSCRIPTEN"; ReadEnv "EMSCRIPTEN"].
Proof.
  split; [vm_compute; reflexivity|].
  split; [apply ensureEmscripten_not_memoized; reflexivity|].
  vm_compute. reflexivity.
Qed.

(** X17. Unless [EMSCRIPTEN] is set to the empty string, a run reads the
    environment at most once, under every schedule. It reads it only for
    a source that is stale or for a final library that is missing. And a
    call of the resolver that finds the toolchain variable set to a path
    returns at once, changing nothing. *)
Theorem toolchain_read_once_and_lazily :
  forall w libRoot bindOpts options korehl schedule,
    (env_EMSCRIPTEN w <> Some "" ->
     env_reads (snd (generateBindings w libRoot bindOpts options korehl schedule))
     <= 1) /\
    (forall rc c,
       bindingsStage w libRoot bindOpts options initial = (Ok rc, c) ->
       env_reads (snd (generateBindings w libRoot bindOpts options korehl schedule))
       <> 0 ->
       (exists f,
          In f (found w libRoot bindOpts c)
          /\ decide w rc f (targetFile_of w libRoot f) = Stale)
       \/ existsSync w (finalLibrary libRoot bindOpts) = false) /\
    (forall c sdk,
       emsdk c = Some sdk -> sdk <> "" -> ensureEmscripten w c = (Ok tt, c)).
Proof.
  intros w libRoot bindOpts options korehl schedule.
  split; [apply generateBindings_reads|].
  split; [intros rc c; apply generateBindings_lazy|].
  intros c sdk Hs Hne. apply ensureEmscripten_cached. rewrite Hs. cbn.
  destruct (String.eqb_spec sdk ""); [contradiction | reflexivity].
Qed.

Lemma toolchain_read_once_and_lazily_witness :
  env_reads (snd (generateBindings Sample.fresh_world "/lib" Sample.bindOpts
                    Sample.options false Sample.schedule)) <= 1
  /\ ensureEmscripten Sample.fresh_world (set_emsdk (Some "/emsdk") initial)
     = (Ok tt, set_emsdk (Some "/emsdk") initial).
Proof.
  destruct (toolchain_read_once_and_lazily Sample.fresh_world "/lib"
              Sample.bindOpts Sample.options false Sample.schedule)
    as [H1 [_ H3]].
  split; [apply H1; discriminate|].
  apply (H3 _ "/emsdk"); [reflexivity | discriminate].
Defined.

(** X18. A run in which no source found is stale, every object directory
    is in place and the final library exists needs no toolchain: it reads
    the environment under no schedule, and once each unit has had its
    turn it returns normally, having started no compiler and no linker,
    whatever [EMSCRIPTEN] holds. *)
Theorem idle_run_needs_no_toolchain :
  forall w libRoot bindOpts options korehl rc c,
    bindingsStage w libRoot bindOpts options initial = (Ok rc, c) ->
    (forall f, In f (found w libRoot bindOpts c) ->
               decide w rc f (targetFile_of w libRoot f) = UpToDate
               /\ ensured w libRoot f = true) ->
    existsSync w (finalLibrary libRoot bindOpts) = true ->
    1 <= cpus w ->
    (forall schedule,
       env_reads (snd (generateBindings w libRoot bindOpts options korehl schedule))
       = 0) /\
    exists tr,
      generateBindings w libRoot bindOpts options korehl
        (repeat 0 (List.length (found w libRoot bindOpts c)))
      = (Returned, tr)
      /\ compiled tr = false /\ linked tr = false.
Proof.
  intros w libRoot bindOpts options korehl rc c Hb Hup Hfinal Hcpus. split.
  - intros schedule.
    destruct (Nat.eq_dec
                (env_reads
                   (snd (generateBindings w libRoot bindOpts options korehl
                           schedule))) 0) as [E|N]; [exact E|].
    exfalso.
    destruct (generateBindings_lazy w libRoot bindOpts options korehl schedule
                rc c Hb N) as [[f [Hin Hd]]|He].
    + destruct (Hup f Hin) as [Hu _]. congruence.
    + congruence.
  - destruct (generateBindings_idle w libRoot bindOpts options korehl rc c
                Hb Hup Hfinal Hcpus) as [tr [H1 [_ [H3 H4]]]].
    exists tr. auto.
Qed.

Lemma idle_run_needs_no_toolchain_witness :
  exists tr,
    generateBindings Sample.idle_world "/lib" Sample.bindOpts Sample.options
      false [0; 0; 0]
    = (Returned, tr)
    /\ compiled tr = false /\ linked tr = false.
Proof.
  assert (E : bindingsStage Sample.idle_world "/lib" Sample.bindOpts
                Sample.options initial
              = (Ok false, Sample.bound Sample.idle_world))
    by (vm_compute; reflexivity).
  assert (Hup : forall f,
             In f (found Sample.idle_world "/lib" Sample.bindOpts
                     (Sample.bound Sample.idle_world)) ->
             decide Sample.idle_world false f
               (targetFile_of Sample.idle_world "/lib" f) = UpToDate
             /\ ensured Sample.idle_world "/lib" f = true).
  { intros f Hf. vm_compute in Hf.
    destruct Hf as [<-|[<-|[<-|[]]]]; split; vm_compute; reflexivity. }
  assert (Hfinal : existsSync Sample.idle_world (finalLibrary "/lib" Sample.bindOpts)
                   = true)
    by (vm_compute; reflexivity).
  assert (Hcpus : 1 <= cpus Sample.idle_world) by (vm_compute; lia).
  pose proof (idle_run_needs_no_toolchain Sample.idle_world "/lib" Sample.bindOpts
                Sample.options false false (Sample.bound Sample.idle_world)
                E Hup Hfinal Hcpus) as [_ [tr [Hrun Hrest]]].
  exists tr. split; [|exact Hrest].
  rewrite <- Hrun. vm_compute. reflexivity.
Defined.

(* ================================================================== *)
(** * Further properties *)

(** ** Strings *)

Lemma length_append a b :
  String.length (a ++ b) = String.length a + String.length b.
Proof. induction a as [|c a IH]; simpl; [reflexivity | now rewrite IH]. Qed.

Lemma append_assoc a b c : ((a ++ b) ++ c)%string = (a ++ (b ++ c))%string.
Proof. induction a as [|x a IH]; simpl; [reflexivity | now rewrite IH]. Qed.

Lemma append_empty_r a : (a ++ "")%string = a.
Proof. induction a as [|x a IH]; simpl; [reflexivity | now rewrite IH]. Qed.

Lemma substring_prefix a b : substring 0 (String.length a) (a ++ b) = a.
Proof.
  induction a as [|c a IH]; simpl.
  - destruct b; reflexivity.
  - now rewrite IH.
Qed.

Lemma substring_skip a : forall n m s,
  substring (String.length a + n) m (a ++ s) = substring n m s.
Proof. induction a as [|c a IH]; intros n m s; simpl; [reflexivity | apply IH]. Qed.

Lemma substring_whole s : substring 0 (String.length s) s = s.
Proof. apply substring_all. lia. Qed.

(** A string is its first [n] characters followed by the rest. *)
Lemma substring_split s : forall n,
  n <= String.length s ->
  s = (substring 0 n s ++ substring n (String.length s - n) s)%string.
Proof.
  induction s as [|c s IH]; intros [|n] H; simpl in *.
  - reflexivity.
  - lia.
  - now rewrite substring_whole.
  - f_equal. apply IH. lia.
Qed.

Lemma endsWith_append a b : JS.endsWith (a ++ b) b = true.
Proof.
  unfold JS.endsWith. rewrite length_append.
  replace (String.length a + String.length b - String.length b)
    with (String.length a + 0) by lia.
  rewrite substring_skip, substring_whole, String.eqb_refl.
  rewrite andb_true_r. apply Nat.leb_le. lia.
Qed.

(** [s.endsWith(suffix)] holds exactly of the strings that are something
    followed by [suffix]; the something is what [substr] keeps. *)
Lemma endsWith_inv s suffix :
  JS.endsWith s suffix = true ->
  s = (JS.substr s 0 (String.length s - String.length suffix) ++ suffix)%string.
Proof.
  unfold JS.endsWith, JS.substr. intros H.
  apply andb_true_iff in H. destruct H as [Hle Heq].
  apply Nat.leb_le in Hle. apply String.eqb_eq in Heq.
  rewrite (substring_split s (String.length s - String.length suffix)) at 1 by lia.
  replace (String.length s - (String.length s - String.length suffix))
    with (String.length suffix) by lia.
  now rewrite Heq.
Qed.

Lemma append_inj_r a : forall c b d,
  String.length b = String.length d ->
  (a ++ b)%string = (c ++ d)%string -> a = c /\ b = d.
Proof.
  induction a as [|x a IH]; intros [|y c] b d Hlen H; simpl in *.
  - auto.
  - exfalso. rewrite H in Hlen. simpl in Hlen. rewrite length_append in Hlen. lia.
  - exfalso. rewrite <- H in Hlen. simpl in Hlen. rewrite length_append in Hlen. lia.
  - injection H as -> H. destruct (IH c b d Hlen H) as [-> ->]. auto.
Qed.

(** No string ends with [suffix] when its last characters are a [tail] of
    the same length that differs from it. *)
Lemma endsWith_other_tail s tail suffix :
  String.length tail = String.length suffix -> tail <> suffix ->
  JS.endsWith (s ++ tail) suffix = false.
Proof.
  intros Hlen Hne. destruct (JS.endsWith (s ++ tail) suffix) eqn:E; [|reflexivity].
  apply endsWith_inv in E.
  apply append_inj_r in E; [|exact Hlen]. destruct E as [_ E]. contradiction.
Qed.

(** ** Source discovery *)

Scheme node_mut := Induction for FS.node Sort Prop
  with entries_mut := Induction for FS.entries Sort Prop.

Combined Scheme node_entries_mut from node_mut, entries_mut.

Lemma ends_in_stem suffix s :
  ends_in suffix s = true <-> exists stem, s = (stem ++ suffix)%string.
Proof.
  induction s as [|c r IH]; cbn [ends_in].
  - rewrite orb_false_r. split.
    + intros H. apply String.eqb_eq in H. exists "". now rewrite <- H.
    + intros [stem H]. destruct stem; [|discriminate].
      apply String.eqb_eq. exact H.
  - rewrite orb_true_iff, IH. split.
    + intros [H|[stem ->]].
      * apply String.eqb_eq in H. exists "". now rewrite <- H.
      * exists (String c stem). reflexivity.
    + intros [[|c' stem] H].
      * left. apply String.eqb_eq. exact H.
      * right. exists stem. simpl in H. now injection H.
Qed.

Lemma endsWith_stem s suffix :
  JS.endsWith s suffix = true <-> exists stem, s = (stem ++ suffix)%string.
Proof.
  split.
  - intros H. eexists. apply (endsWith_inv _ _ H).
  - intros [stem ->]. apply endsWith_append.
Qed.

Lemma endsWith_ends_in s suffix : JS.endsWith s suffix = ends_in suffix s.
Proof.
  apply eq_true_iff_eq. now rewrite endsWith_stem, ends_in_stem.
Qed.

Lemma compilable_Compilable item : compilable item = true <-> Compilable item.
Proof.
  unfold compilable, Compilable. rewrite orb_true_iff, !endsWith_stem.
  split.
  - intros [[stem H]|[stem H]]; exists stem; auto.
  - intros [stem [H|H]]; [left | right]; exists stem; exact H.
Qed.

(** The scan of the code, with its accumulator, appends the walk of the
    specification. *)
Lemma addSources_walk w :
  (forall n dir acc,
     addSources_node w dir n acc = (acc ++ walk w dir n)%list)
  /\ (forall es dir acc,
        addSources_items w dir es acc = (acc ++ walk_entries w dir es)%list).
Proof.
  apply node_entries_mut; cbn [addSources_node addSources_items walk walk_entries].
  - intros _ dir acc. symmetry. apply app_nil_r.
  - intros _ es IH dir acc. apply IH.
  - intros dir acc. symmetry. apply app_nil_r.
  - intros name n IHn rest IHr dir acc.
    destruct n as [fm|cm ces].
    + unfold compilable. rewrite IHr, !endsWith_ends_in.
      destruct (ends_in ".cpp" name || ends_in ".c" name);
        rewrite <- ?app_assoc; reflexivity.
    + rewrite IHr, IHn, <- app_assoc. reflexivity.
Qed.

Lemma addSources_discovery w dir c :
  snd (addSources w dir c)
  = set_sourceFiles (sourceFiles c ++ discovery w dir)%list c.
Proof.
  unfold addSources, discovery.
  destruct (FS.lookup (root w) (Path.segments (cwd w) dir)) as [n|]; cbn [snd].
  - now rewrite (proj1 (addSources_walk w)).
  - now rewrite app_nil_r, set_sourceFiles_same.
Qed.

Lemma Discovered_nil w dir m p : ~ Discovered w dir (FS.Dir m FS.Nil) p.
Proof.
  intros H. inversion H as [? ? ? ? ? Hin|? ? ? ? ? ? ? Hin]; inversion Hin.
Qed.

Lemma Discovered_file w dir m p : ~ Discovered w dir (FS.File m) p.
Proof. intros H. inversion H. Qed.

Lemma Discovered_entry w dir m item child rest p :
  Discovered w dir (FS.Dir m (FS.Entry item child rest)) p <->
  (exists fm, child = FS.File fm /\ Compilable item
              /\ p = resolve w [dir; item])
  \/ (exists cm ces, child = FS.Dir cm ces
                     /\ Discovered w (resolve w [dir; item]) child p)
  \/ Discovered w dir (FS.Dir m rest) p.
Proof.
  split.
  - intros H. inversion H as [? ? ? ? fm Hin Hc|? ? ? ? cm ces ? Hin Hd]; subst.
    + inversion Hin; subst.
      * left. exists fm. auto.
      * right. right. eapply discovered_here; eassumption.
    + inversion Hin; subst.
      * right. left. exists cm, ces. auto.
      * right. right. eapply discovered_below; eassumption.
  - intros [[fm [-> [Hc ->]]]|[[cm [ces [-> Hd]]]|H]].
    + eapply discovered_here; [constructor | assumption].
    + eapply discovered_below; [constructor | assumption].
    + inversion H; subst.
      * eapply discovered_here; [constructor 2; eassumption | assumption].
      * eapply discovered_below; [constructor 2; eassumption | assumption].
Qed.

(** The walk holds exactly the compilable files below the node. *)
Lemma walk_Discovered w :
  forall n dir p, In p (walk w dir n) <-> Discovered w dir n p.
Proof.
  intros n.
  induction n using node_mut with
    (P0 := fun es => forall dir m p,
             In p (walk_entries w dir es)
             <-> Discovered w dir (FS.Dir m es) p);
    intros dir.
  - intros p. simpl. split; [tauto | apply Discovered_file].
  - intros p. simpl. apply IHn.
  - intros m p. simpl. split; [tauto | apply Discovered_nil].
  - intros m p. cbn [walk_entries]. rewrite in_app_iff.
    rewrite Discovered_entry, (IHn0 dir m p).
    destruct n as [fm|cm ces].
    + rewrite <- !endsWith_ends_in. fold (compilable name).
      destruct (compilable name) eqn:Hc.
      * apply compilable_Compilable in Hc. split.
        -- intros [[<-|[]]|H]; [left; exists fm; auto | auto].
        -- intros [[fm' [_ [_ ->]]]|[[cm [ces [Hn _]]]|H]];
             [left; left; reflexivity | discriminate | auto].
      * split.
        -- intros [[]|H]; auto.
        -- intros [[fm' [_ [Hc' _]]]|[[cm [ces [Hn _]]]|H]];
             [|discriminate | auto].
           apply compilable_Compilable in Hc'. congruence.
    + rewrite (IHn (resolve w [dir; name]) p). split.
      * intros [H|H]; [right; left; exists cm, ces; auto | auto].
      * intros [[fm [Hn _]]|[[cm' [ces' [_ H]]]|H]]; [discriminate | auto | auto].
Qed.

(** The walk has one path for each compilable file. *)
Lemma walk_length w :
  (forall n dir, List.length (walk w dir n) = matching_files n)
  /\ (forall es dir, List.length (walk_entries w dir es) = matching_entries es).
Proof.
  apply node_entries_mut; cbn [walk walk_entries matching_files matching_entries].
  - reflexivity.
  - intros _ es IH dir. apply IH.
  - reflexivity.
  - intros name n IHn rest IHr dir. rewrite length_app, IHr.
    destruct n as [fm|cm ces].
    + destruct (ends_in ".cpp" name || ends_in ".c" name); reflexivity.
    + now rewrite IHn.
Qed.

(** The walk looks at the tree and at the working directory only. *)
Lemma walk_same_tree w w' :
  cwd w' = cwd w ->
  (forall n dir, walk w' dir n = walk w dir n)
  /\ (forall es dir, walk_entries w' dir es = walk_entries w dir es).
Proof.
  intros Hc.
  apply node_entries_mut; cbn [walk walk_entries]; auto.
  intros name n IHn rest IHr dir.
  assert (Hres : resolve w' [dir; name] = resolve w [dir; name])
    by (unfold resolve; now rewrite Hc).
  rewrite IHr, Hres. destruct n; [reflexivity|]. now rewrite IHn.
Qed.

(** C9. A root that does not exist, or that is not a directory, is
    skipped without an error and leaves everything as it was. Otherwise
    the scan changes the list of sources only, and appends to it what
    the walk of the specification yields: the files at any depth below
    the root whose name ends in [.cpp] or [.c], and nothing else, one
    path for each of them, the entries of a directory in listing order.
    A tree without such a file contributes nothing. The sequence depends
    on the tree, the working directory and the root alone: a scan in any
    state of the pipeline, in any world with the same tree, appends the
    same sequence, and scanning twice appends it twice. *)
Theorem source_discovery :
  forall w dir c,
    (statSync w dir = None -> addSources w dir c = (Ok tt, c)) /\
    (forall st, statSync w dir = Some st -> FS.isDirectory st = false ->
                addSources w dir c = (Ok tt, c)) /\
    snd (addSources w dir c)
    = set_sourceFiles (sourceFiles c ++ discovery w dir)%list c /\
    (forall n, FS.lookup (root w) (Path.segments (cwd w) dir) = Some n ->
       (forall p, In p (discovery w dir) <-> Discovered w dir n p) /\
       List.length (discovery w dir) = matching_files n /\
       ((forall p, ~ Discovered w dir n p) -> snd (addSources w dir c) = c)) /\
    (forall w' c', cwd w' = cwd w -> root w' = root w ->
       sourceFiles (snd (addSources w' dir c'))
       = (sourceFiles c' ++ discovery w dir)%list) /\
    sourceFiles (snd (addSources w dir (snd (addSources w dir c))))
    = (sourceFiles c ++ discovery w dir ++ discovery w dir)%list /\
    (forall item,
       compilable item = true
       <-> exists stem, item = (stem ++ ".cpp")%string
                        \/ item = (stem ++ ".c")%string).
Proof.
  intros w dir c.
  split; [|split; [|split; [|split; [|split; [|split]]]]].
  - unfold addSources, statSync.
    destruct (FS.lookup (root w) (Path.segments (cwd w) dir)); [discriminate|].
    reflexivity.
  - unfold addSources, statSync. intros st.
    destruct (FS.lookup (root w) (Path.segments (cwd w) dir)) as [n|];
      [|discriminate].
    cbn [option_map]. intros [= <-] Hd.
    destruct n; [|discriminate]. cbn [addSources_node].
    now rewrite set_sourceFiles_same.
  - apply addSources_discovery.
  - intros n Hn. rewrite addSources_discovery. unfold discovery. rewrite Hn.
    split; [apply walk_Discovered|]. split; [apply (walk_length w)|].
    intros Hnone. rewrite (no_member_nil (walk w dir n)).
    + now rewrite app_nil_r, set_sourceFiles_same.
    + intros p Hp. apply (Hnone p). now apply walk_Discovered.
  - intros w' c' Hc Hr. rewrite addSources_discovery. cbn [sourceFiles set_sourceFiles].
    unfold discovery. rewrite Hc, Hr.
    destruct (FS.lookup (root w) (Path.segments (cwd w) dir)) as [n|];
      [|reflexivity].
    now rewrite (proj1 (walk_same_tree w w' Hc)).
  - rewrite !addSources_discovery. cbn [sourceFiles set_sourceFiles].
    now rewrite <- app_assoc.
  - intros item. apply compilable_Compilable.
Qed.

Lemma source_discovery_witness :
  addSources Sample.fresh_world "/lib/missing" initial = (Ok tt, initial)
  /\ addSources Sample.fresh_world "/lib/khafile.js" initial = (Ok tt, initial)
  /\ sourceFiles (snd (addSources Sample.fresh_world "/lib/src" initial))
     = ["/lib/src/foo.cpp"; "/lib/src/sub/bar.c"]
  /\ compilable "bar.c" = true.
Proof.
  destruct (source_discovery Sample.fresh_world "/lib/missing" initial)
    as [H1 _].
  destruct (source_discovery Sample.fresh_world "/lib/khafile.js" initial)
    as [_ [H2 _]].
  destruct (source_discovery Sample.fresh_world "/lib/src" initial)
    as [_ [_ [H3 [_ [_ [_ H7]]]]]].
  split; [apply H1; reflexivity|].
  split; [apply (H2 (FS.mkStats false 10)); reflexivity|].
  split; [rewrite H3; vm_compute; reflexivity|].
  apply H7. exists "bar". right. reflexivity.
Defined.

(** ** [koreplatform] and [checkKorePlatform] *)

Lemma koreplatform_native p : Main.koreplatform (p ++ "-native") = p.
Proof.
  unfold Main.koreplatform. rewrite endsWith_append.
  unfold JS.substr. rewrite length_append.
  replace (String.length p + String.length "-native" - String.length "-native")
    with (String.length p) by lia.
  apply substring_prefix.
Qed.

Lemma koreplatform_native_hl p : Main.koreplatform (p ++ "-native-hl") = p.
Proof.
  unfold Main.koreplatform.
  change (p ++ "-native-hl")%string with (p ++ ("-na" ++ "tive-hl"))%string at 1.
  rewrite <- append_assoc.
  rewrite (endsWith_other_tail (p ++ "-na") "tive-hl" "-native")
    by (reflexivity || discriminate).
  rewrite endsWith_append.
  unfold JS.substr. rewrite length_append.
  replace (String.length p + String.length "-native-hl" - String.length "-native-hl")
    with (String.length p) by lia.
  apply substring_prefix.
Qed.

Lemma koreplatform_hl p :
  JS.endsWith p "-native" = false -> Main.koreplatform (p ++ "-hl") = p.
Proof.
  intros Hp. unfold Main.koreplatform.
  assert (E1 : JS.endsWith (p ++ "-hl") "-native" = false).
  { destruct (JS.endsWith (p ++ "-hl") "-native") eqn:E; [|reflexivity].
    apply endsWith_inv in E. revert E.
    set (q := JS.substr _ _ _).
    change (q ++ "-native")%string with (q ++ ("-nat" ++ "ive"))%string.
    rewrite <- append_assoc. intros E.
    apply append_inj_r in E; [|reflexivity]. destruct E as [_ E]. discriminate. }
  assert (E2 : JS.endsWith (p ++ "-hl") "-native-hl" = false).
  { destruct (JS.endsWith (p ++ "-hl") "-native-hl") eqn:E; [|reflexivity].
    apply endsWith_inv in E. revert E.
    set (q := JS.substr _ _ _).
    change (q ++ "-native-hl")%string with (q ++ ("-native" ++ "-hl"))%string.
    rewrite <- append_assoc. intros E.
    apply append_inj_r in E; [|reflexivity]. destruct E as [E _].
    rewrite E, endsWith_append in Hp. discriminate. }
  rewrite E1, E2, endsWith_append.
  unfold JS.substr. rewrite length_append.
  replace (String.length p + String.length "-hl" - String.length "-hl")
    with (String.length p) by lia.
  apply substring_prefix.
Qed.

Lemma koreplatform_plain p :
  JS.endsWith p "-native" = false -> JS.endsWith p "-hl" = false ->
  Main.koreplatform p = p.
Proof.
  intros H1 H2. unfold Main.koreplatform. rewrite H1, H2.
  destruct (JS.endsWith p "-native-hl") eqn:E; [|reflexivity].
  exfalso. apply endsWith_inv in E. revert E.
  set (q := JS.substr _ _ _).
  change (q ++ "-native-hl")%string with (q ++ ("-native" ++ "-hl"))%string.
  rewrite <- append_assoc. intros E. rewrite E, endsWith_append in H2. discriminate.
Qed.

(** X11. [koreplatform] removes one target suffix: from [p-native] and
    from [p-native-hl] it gives [p], whatever [p] is; from [p-hl] it gives
    [p] when [p] does not itself end in [-native]; a name that ends in
    none of the three suffixes is returned as it is; and the result is
    always the beginning of the argument. *)
Theorem koreplatform_strips_suffix :
  forall p,
    Main.koreplatform (p ++ "-native") = p
    /\ Main.koreplatform (p ++ "-native-hl") = p
    /\ (JS.endsWith p "-native" = false -> Main.koreplatform (p ++ "-hl") = p)
    /\ (JS.endsWith p "-native" = false -> JS.endsWith p "-hl" = false ->
        Main.koreplatform p = p)
    /\ exists suffix, p = (Main.koreplatform p ++ suffix)%string.
Proof.
  intros p.
  split; [apply koreplatform_native|].
  split; [apply koreplatform_native_hl|].
  split; [apply koreplatform_hl|].
  split; [apply koreplatform_plain|].
  unfold Main.koreplatform.
  destruct (JS.endsWith p "-native") eqn:E1;
    [eexists; apply (endsWith_inv _ _ E1)|].
  destruct (JS.endsWith p "-native-hl") eqn:E2;
    [eexists; apply (endsWith_inv _ _ E2)|].
  destruct (JS.endsWith p "-hl") eqn:E3;
    [eexists; apply (endsWith_inv _ _ E3)|].
  exists "". now rewrite append_empty_r.
Qed.

Lemma koreplatform_strips_suffix_witness :
  Main.koreplatform ("android" ++ "-hl") = "android"
  /\ Main.koreplatform "krom" = "krom".
Proof.
  destruct (koreplatform_strips_suffix "android") as [_ [_ [H _]]].
  destruct (koreplatform_strips_suffix "krom") as [_ [_ [_ [H' _]]]].
  split; [apply H; reflexivity | apply H'; reflexivity].
Defined.

Lemma checkKorePlatform_names p :
  Main.checkKorePlatform p = true ->
  In p ["windows"; "windowsapp"; "ios"; "osx"; "android"; "linux"; "html5";
        "tizen"; "pi"; "tvos"; "ps4"; "xboxone"; "switch"].
Proof.
  unfold Main.checkKorePlatform. intros H.
  repeat (apply orb_true_iff in H; destruct H as [H|H]);
    apply String.eqb_eq in H; subst; simpl; tauto.
Qed.

(** X12. Every platform name that [checkKorePlatform] accepts is still
    accepted, as the same name, after [koreplatform] has removed the
    suffix of its native, HashLink or native HashLink target. *)
Theorem kore_targets_resolve :
  forall p,
    Main.checkKorePlatform p = true ->
    Main.koreplatform (p ++ "-native") = p
    /\ Main.koreplatform (p ++ "-hl") = p
    /\ Main.koreplatform (p ++ "-native-hl") = p
    /\ Main.koreplatform p = p
    /\ Main.checkKorePlatform (Main.koreplatform (p ++ "-hl")) = true.
Proof.
  intros p H.
  assert (Hn : JS.endsWith p "-native" = false /\ JS.endsWith p "-hl" = false).
  { apply checkKorePlatform_names in H. simpl in H.
    repeat (destruct H as [<-|H]; [split; reflexivity|]). contradiction. }
  destruct Hn as [Hn Hh].
  rewrite (koreplatform_hl p Hn).
  repeat split; auto using koreplatform_native, koreplatform_native_hl,
    koreplatform_plain.
Qed.

Lemma kore_targets_resolve_witness :
  Main.koreplatform ("android" ++ "-native") = "android"
  /\ Main.checkKorePlatform (Main.koreplatform ("android" ++ "-hl")) = true.
Proof.
  destruct (kore_targets_resolve "android") as [H1 [_ [_ [_ H5]]]];
    [reflexivity | split; assumption].
Defined.

(** ** [fixName] and [safeName] *)

Lemma replace_class_clean cls r s :
  cls r = false ->
  Main.all_chars (fun c => negb (cls c)) (Main.replace_class cls r s) = true.
Proof.
  intros Hr. induction s as [|c s IH]; simpl; [reflexivity|].
  rewrite IH, andb_true_r.
  destruct (cls c) eqn:E; [now rewrite Hr | now rewrite E].
Qed.

Lemma replace_class_fixed cls r s :
  Main.all_chars (fun c => negb (cls c)) s = true ->
  Main.replace_class cls r s = s.
Proof.
  induction s as [|c s IH]; simpl; [reflexivity|].
  intros H. apply andb_true_iff in H. destruct H as [Hc Hs].
  rewrite (IH Hs). destruct (cls c); [discriminate | reflexivity].
Qed.

Lemma replace_class_length cls r s :
  String.length (Main.replace_class cls r s) = String.length s.
Proof. induction s as [|c s IH]; simpl; [reflexivity | now rewrite IH]. Qed.

Lemma replace_class_append cls r a b :
  Main.replace_class cls r (a ++ b)
  = (Main.replace_class cls r a ++ Main.replace_class cls r b)%string.
Proof. induction a as [|c a IH]; simpl; [reflexivity | now rewrite IH]. Qed.

Lemma fixName_fixed s :
  Main.all_chars (fun c => negb (Main.fix_class c)) s = true ->
  (forall c rest, s = String c rest -> Main.is_digit c = false) ->
  Main.fixName s = s.
Proof.
  intros Hclean Hfirst. unfold Main.fixName.
  rewrite (replace_class_fixed _ _ _ Hclean).
  destruct s as [|c rest]; [reflexivity|].
  now rewrite (Hfirst c rest eq_refl).
Qed.

(** X9. The name [fixName] returns holds none of the characters [-], [@],
    space, [.], [/] and [\], and does not start with a digit; it is as
    long as the argument, or one character longer; it is empty only for
    the empty name; and fixing a fixed name changes nothing. *)
Theorem fixName_is_identifier :
  forall name,
    Main.all_chars (fun c => negb (Main.fix_class c)) (Main.fixName name) = true
    /\ (forall c rest, Main.fixName name = String c rest -> Main.is_digit c = false)
    /\ (String.length (Main.fixName name) = String.length name
        \/ String.length (Main.fixName name) = S (String.length name))
    /\ (Main.fixName name = "" <-> name = "")
    /\ Main.fixName (Main.fixName name) = Main.fixName name.
Proof.
  intros name. unfold Main.fixName.
  assert (Hclean := replace_class_clean Main.fix_class "_" name eq_refl).
  assert (Hlen := replace_class_length Main.fix_class "_" name).
  destruct (Main.replace_class Main.fix_class "_" name) as [|c rest] eqn:E.
  - destruct name; [|discriminate]. repeat split; auto; discriminate.
  - destruct (Main.is_digit c) eqn:Hd.
    + split; [exact Hclean|].
      split; [intros c' rest' H; injection H as <- _; reflexivity|].
      split; [right; simpl in *; lia|].
      split; [split; [discriminate | intros ->; discriminate]|].
      apply fixName_fixed.
      * change (Main.all_chars (fun c0 => negb (Main.fix_class c0))
                  (String c rest) = true) in Hclean.
        change ("_" ++ String c rest)%string with (String "_" (String c rest)).
        cbn [Main.all_chars]. cbn [Main.all_chars] in Hclean.
        rewrite Hclean. reflexivity.
      * intros c' rest' H. injection H as <- _. reflexivity.
    + split; [exact Hclean|].
      split; [intros c' rest' H; injection H as <- _; exact Hd|].
      split; [left; exact Hlen|].
      split; [split; [discriminate | intros ->; discriminate]|].
      apply fixName_fixed; [exact Hclean|].
      intros c' rest' H. injection H as <- _. exact Hd.
Qed.

(** X10. The name [safeName] returns holds neither [/] nor [\] and is as
    long as the argument; a name without these characters is unchanged,
    so applying [safeName] twice is applying it once; and the safe name of
    a concatenation is the concatenation of the safe names. *)
Theorem safeName_has_no_separator :
  forall name,
    Main.all_chars (fun c => negb (Main.slash_class c)) (Main.safeName name) = true
    /\ String.length (Main.safeName name) = String.length name
    /\ (Main.all_chars (fun c => negb (Main.slash_class c)) name = true ->
        Main.safeName name = name)
    /\ Main.safeName (Main.safeName name) = Main.safeName name
    /\ (forall rest,
          Main.safeName (name ++ rest)
          = (Main.safeName name ++ Main.safeName rest)%string).
Proof.
  intros name. unfold Main.safeName.
  assert (Hclean := replace_class_clean Main.slash_class "_" name eq_refl).
  split; [exact Hclean|].
  split; [apply replace_class_length|].
  split; [apply replace_class_fixed|].
  split; [apply replace_class_fixed; exact Hclean|].
  intros rest. apply replace_class_append.
Qed.

Lemma safeName_has_no_separator_witness :
  Main.safeName "My Game" = "My Game".
Proof.
  destruct (safeName_has_no_separator "My Game") as [_ [_ [H _]]].
  apply H. reflexivity.
Defined.

(** ** The target options of [createKorefile] *)

Section KoreTargetOptions.

Variable V : Type.

Lemma obj_get_store (k k' : string) (v : V) (o : Main.object V) :
  Main.obj_get k (Main.obj_store k' v o)
  = if String.eqb k' k then Some v else Main.obj_get k o.
Proof.
  induction o as [|[k0 v0] o IH]; simpl.
  - reflexivity.
  - destruct (String.eqb_spec k0 k') as [->|Hne]; simpl.
    + destruct (String.eqb k' k); reflexivity.
    + rewrite IH. destruct (String.eqb_spec k0 k) as [->|Hne'].
      * destruct (String.eqb_spec k' k); [congruence | reflexivity].
      * reflexivity.
Qed.

Lemma fold_left_pointwise (A B : Type) (f g : A -> B -> A) (l : list B) :
  (forall a b, f a b = g a b) -> forall a, fold_left f l a = fold_left g l a.
Proof.
  intros H. induction l as [|b l IH]; intros a; simpl; [reflexivity|].
  rewrite H. apply IH.
Qed.

Lemma obj_get_fold (sel : string -> bool) (key : string -> string) (k : string)
  (l : Main.object V) : forall o,
  Main.obj_get k
    (fold_left
       (fun kore (kv : string * V) =>
          if sel (fst kv) then Main.obj_store (key (fst kv)) (snd kv) kore
          else kore)
       l o)
  = match Main.last_stored sel key k l with
    | Some v => Some v
    | None => Main.obj_get k o
    end.
Proof.
  induction l as [|[k' v] l IH]; intros o; simpl; [reflexivity|].
  rewrite IH. destruct (Main.last_stored sel key k l); [reflexivity|].
  destruct (sel k'); simpl; [|reflexivity].
  rewrite obj_get_store. destruct (String.eqb (key k') k); reflexivity.
Qed.

Lemma obj_get_absent (k : string) (l : Main.object V) :
  ~ In k (map fst l) -> Main.obj_get k l = None.
Proof.
  induction l as [|[k1 v1] l IH]; simpl; [reflexivity|].
  intros H. destruct (String.eqb_spec k1 k); [exfalso; auto | apply IH; auto].
Qed.

(** With distinct keys, the last entry stored under [k] is the entry of
    the one key [k0] that [sel] and [key] send to [k]. *)
Lemma last_stored_unique (sel : string -> bool) (key : string -> string)
  (k k0 : string) (l : Main.object V) :
  NoDup (map fst l) ->
  (forall k', sel k' = true -> key k' = k -> k' = k0) ->
  Main.last_stored sel key k l
  = if sel k0 && String.eqb (key k0) k then Main.obj_get k0 l else None.
Proof.
  intros Hnd Huniq. induction l as [|[k' v] l IH]; simpl.
  - destruct (sel k0 && String.eqb (key k0) k); reflexivity.
  - inversion Hnd as [|? ? Hnotin Hnd']; subst.
    rewrite (IH Hnd').
    destruct (sel k' && String.eqb (key k') k) eqn:E.
    + apply andb_true_iff in E. destruct E as [E1 E2].
      apply String.eqb_eq in E2.
      assert (k' = k0) by auto. subst k'.
      rewrite E1, E2, !String.eqb_refl. cbn [andb].
      rewrite (obj_get_absent k0 l Hnotin). reflexivity.
    + destruct (sel k0 && String.eqb (key k0) k) eqn:E0; [|reflexivity].
      destruct (String.eqb_spec k' k0) as [->|Hne]; [congruence|].
      destruct (Main.obj_get k0 l); reflexivity.
Qed.

(** X13. In the target options [createKorefile] writes, an option [k]
    has the value of [k_native] when the project gives one, and otherwise
    the project's own value of [k], unless [k] itself ends in [_native]:
    the [_native] variant overrides, and no [_native] key is copied as it
    is. The one key that is never written is [__proto__]: storing under
    it, from [__proto__] or from [__proto___native], creates no
    property. *)
Theorem koreTargetOptions_override :
  forall (targetOptions : Main.object V) k,
    NoDup (map fst targetOptions) ->
    Main.obj_get k (Main.koreTargetOptions targetOptions)
    = if String.eqb k "__proto__" then None
      else
        match Main.obj_get (k ++ "_native") targetOptions with
        | Some v => Some v
        | None =>
            if JS.endsWith k "_native" then None
            else Main.obj_get k targetOptions
        end.
Proof.
  intros opts k Hnd. unfold Main.koreTargetOptions, Main.obj_set.
  set (strip := fun k' : string =>
                  JS.substr k' 0 (String.length k' - String.length "_native")).
  rewrite (fold_left_pointwise _ _ _
             (fun kore (kv : string * V) =>
                if JS.endsWith (fst kv) "_native"
                   && negb (String.eqb (strip (fst kv)) "__proto__")
                then Main.obj_store (strip (fst kv)) (snd kv) kore else kore))
    by (intros a b; unfold strip; destruct (JS.endsWith (fst b) "_native");
        [destruct (String.eqb _ "__proto__")|]; reflexivity).
  rewrite (obj_get_fold
             (fun k' => JS.endsWith k' "_native"
                        && negb (String.eqb (strip k') "__proto__")) strip).
  rewrite (last_stored_unique _ _ k (k ++ "_native") opts Hnd).
  2:{ intros k' Hs Hk. apply andb_true_iff in Hs. destruct Hs as [Hs _].
      rewrite (endsWith_inv _ _ Hs). fold (strip k'). rewrite Hk. reflexivity. }
  rewrite endsWith_append. cbn [andb].
  assert (Hstrip : strip (k ++ "_native") = k).
  { unfold strip, JS.substr. rewrite length_append.
    replace (String.length k + String.length "_native" - String.length "_native")
      with (String.length k) by lia.
    apply substring_prefix. }
  rewrite Hstrip, String.eqb_refl, andb_true_r.
  rewrite (fold_left_pointwise _ _ _
             (fun kore (kv : string * V) =>
                if negb (JS.endsWith (fst kv) "_native")
                   && negb (String.eqb (fst kv) "__proto__")
                then Main.obj_store (fst kv) (snd kv) kore else kore))
    by (intros a b; destruct (JS.endsWith (fst b) "_native");
        [|destruct (String.eqb _ "__proto__")]; reflexivity).
  rewrite (obj_get_fold
             (fun k' => negb (JS.endsWith k' "_native")
                        && negb (String.eqb k' "__proto__")) (fun k' => k')).
  rewrite (last_stored_unique _ _ k k opts Hnd) by (intros k' _ Hk; exact Hk).
  rewrite String.eqb_refl, andb_true_r.
  destruct (String.eqb k "__proto__"); cbn [negb andb];
    [rewrite andb_false_r; reflexivity|].
  rewrite andb_true_r.
  destruct (Main.obj_get (k ++ "_native") opts); [reflexivity|].
  destruct (JS.endsWith k "_native"); cbn [negb].
  - reflexivity.
  - destruct (Main.obj_get k opts); reflexivity.
Qed.

End KoreTargetOptions.

Lemma koreTargetOptions_override_witness :
  Main.obj_get "width"
    (Main.koreTargetOptions
       [("width", 800%Z); ("width_native", 1024%Z); ("__proto__", 5%Z)])
  = Some 1024%Z
  /\ Main.obj_get "__proto__"
       (Main.koreTargetOptions
          [("width", 800%Z); ("width_native", 1024%Z); ("__proto__", 5%Z)])
     = None.
Proof.
  assert (Hnd : NoDup (map fst [("width", 800%Z); ("width_native", 1024%Z);
                                ("__proto__", 5%Z)]))
    by (repeat constructor; simpl; intuition discriminate).
  split.
  - rewrite (koreTargetOptions_override Z _ "width" Hnd). reflexivity.
  - rewrite (koreTargetOptions_override Z _ "__proto__" Hnd). reflexivity.
Defined.

Lemma fixName_is_identifier_witness :
  Main.fixName "3d-model.png" = "_3d_model_png"
  /\ Main.is_digit "_"%char = false.
Proof.
  destruct (fixName_is_identifier "3d-model.png") as [_ [H _]].
  split; [reflexivity | apply (H "_"%char "3d_model_png"); reflexivity].
Defined.

(** ** The extra arguments of the linker *)

Lemma split_from_append sep s1 : forall cur s2,
  JS.split_from sep cur (s1 ++ String sep s2)
  = (JS.split_from sep cur s1 ++ JS.split_from sep "" s2)%list.
Proof.
  induction s1 as [|c s1 IH]; intros cur s2; simpl.
  - now rewrite Ascii.eqb_refl.
  - destruct (Ascii.eqb c sep); [simpl; f_equal; apply IH | apply IH].
Qed.

Lemma split_from_plain sep s : forall cur,
  Main.all_chars (fun c => negb (Ascii.eqb c sep)) s = true ->
  JS.split_from sep cur s = [(cur ++ s)%string].
Proof.
  induction s as [|c s IH]; intros cur H; simpl in *.
  - now rewrite append_empty_r.
  - apply andb_true_iff in H. destruct H as [Hc Hs].
    destruct (Ascii.eqb c sep); [discriminate|].
    rewrite (IH _ Hs), append_assoc. reflexivity.
Qed.

Lemma split_joined (r : list string) : forall a,
  JS.split_on " " (fold_left (fun a b : string => a ++ " " ++ b) r a)
  = (JS.split_on " " a ++ flat_map (JS.split_on " ") r)%list.
Proof.
  induction r as [|b r IH]; intros a; simpl.
  - now rewrite app_nil_r.
  - rewrite IH. unfold JS.split_on at 1.
    change (a ++ " " ++ b)%string with (a ++ String " " b)%string.
    rewrite split_from_append, <- app_assoc. reflexivity.
Qed.

(** X8. The extra linker arguments are the [emccArgs] of the library,
    each cut at its spaces, in order: joining them with spaces and
    splitting the result gives the splits of the single arguments. When
    no argument holds a space they are passed exactly as given. An empty
    list has no joined form (the reduction throws). *)
Theorem emccArgs_are_split_at_spaces :
  forall args,
    (forall joined,
       JS.reduce_spaces args = Some joined ->
       JS.split_on " " joined = flat_map (JS.split_on " ") args) /\
    (forall joined,
       JS.reduce_spaces args = Some joined ->
       Forall (fun a => Main.all_chars (fun c => negb (Ascii.eqb c " ")) a = true)
              args ->
       JS.split_on " " joined = args) /\
    (JS.reduce_spaces args = None <-> args = []).
Proof.
  intros args.
  assert (H1 : forall joined,
             JS.reduce_spaces args = Some joined ->
             JS.split_on " " joined = flat_map (JS.split_on " ") args).
  { intros joined H. destruct args as [|a r]; [discriminate|].
    simpl in H. injection H as <-. apply split_joined. }
  split; [exact H1|]. split.
  - intros joined H Hplain. rewrite (H1 joined H).
    clear -Hplain. induction Hplain as [|a r Ha Hr IH]; [reflexivity|].
    simpl. rewrite IH. unfold JS.split_on.
    rewrite (split_from_plain _ _ _ Ha). reflexivity.
  - destruct args; simpl; split; congruence.
Qed.

Lemma emccArgs_are_split_at_spaces_witness :
  JS.split_on " " "-s X=1" = ["-s"; "X=1"]
  /\ JS.split_on " " "-s TOTAL_MEMORY=64MB --bind"
     = ["-s"; "TOTAL_MEMORY=64MB"; "--bind"].
Proof.
  destruct (emccArgs_are_split_at_spaces ["-s"; "X=1"]) as [_ [H _]].
  destruct (emccArgs_are_split_at_spaces ["-s TOTAL_MEMORY=64MB"; "--bind"])
    as [H' _].
  split.
  - apply H; [reflexivity | repeat constructor].
  - apply (H' "-s TOTAL_MEMORY=64MB --bind"). reflexivity.
Defined.

(** ** The bindings stage *)

Lemma evaluateModifiedTimes_any w libRoot bindOpts c :
  evaluateModifiedTimes w libRoot bindOpts c
  = (fst (evaluateModifiedTimes w libRoot bindOpts initial), c).
Proof.
  unfold evaluateModifiedTimes, stat, ret, throw.
  destruct (existsSync w _); [|reflexivity].
  destruct (statSync w (khafile w libRoot)); [|reflexivity].
  destruct (statSync w (jsLibrary w libRoot bindOpts)); [|reflexivity].
  destruct (_ >? _)%Z; [reflexivity|].
  destruct (statSync w (webidlFile w libRoot bindOpts)); [|reflexivity].
  destruct (_ >? _)%Z; reflexivity.
Qed.

(** The two flags are never both set. *)
Lemma evaluateModifiedTimes_flags w libRoot bindOpts c rc rb :
  fst (evaluateModifiedTimes w libRoot bindOpts c) = Ok (rc, rb) ->
  (rc, rb) = (true, false) \/ (rc, rb) = (false, true) \/ (rc, rb) = (false, false).
Proof.
  unfold evaluateModifiedTimes, stat, ret, throw.
  destruct (existsSync w _); [|simpl; intros [= <- <-]; auto].
  destruct (statSync w (khafile w libRoot)); [|discriminate].
  destruct (statSync w (jsLibrary w libRoot bindOpts)); [|discriminate].
  destruct (_ >? _)%Z; [simpl; intros [= <- <-]; auto|].
  destruct (statSync w (webidlFile w libRoot bindOpts)); [|discriminate].
  destruct (_ >? _)%Z; simpl; intros [= <- <-]; auto.
Qed.

(** The bindings stage, case by case. *)
Lemma bindingsStage_cases w libRoot bindOpts options c :
  bindingsStage w libRoot bindOpts options c
  = match fst (evaluateModifiedTimes w libRoot bindOpts initial) with
    | Throw e => (Throw e, emits [generating libRoot] c)
    | Ok (rc, rb) =>
        if rc || rb then
          match haxe w with
          | None =>
              (Ok rc,
               emits [generating libRoot; haxe_call w libRoot options rc;
                      korefile_written w libRoot bindOpts] c)
          | Some e =>
              (Throw e,
               emits [generating libRoot; haxe_call w libRoot options rc] c)
          end
        else
          (Ok rc,
           emits [generating libRoot; korefile_written w libRoot bindOpts] c)
    end.
Proof.
  unfold bindingsStage, bind, modify.
  rewrite evaluateModifiedTimes_any.
  destruct (fst (evaluateModifiedTimes w libRoot bindOpts initial))
    as [[rc rb]|e]; [|reflexivity].
  destruct (rc || rb); [|reflexivity].
  unfold executeHaxe, bind, modify. destruct (haxe w); reflexivity.
Qed.

(** X1. The Haxe binding generator runs exactly when the verdict is not
    [NoOp], with [generate(true)] exactly for [RebuildAll], after the
    first log line and before the korefile is written. When the generator
    rejects, the stage throws its error, the korefile is not written, and
    the whole pipeline rejects with that error, under every schedule,
    having started nothing else. When reading a modification time throws,
    nothing but the first line is logged. *)
Theorem bindings_generated_unless_NoOp :
  forall w libRoot bindOpts options c,
    (forall flags,
       fst (evaluateModifiedTimes w libRoot bindOpts initial) = Ok flags ->
       (verdict_of flags = NoOp ->
        bindingsStage w libRoot bindOpts options c
        = (Ok false,
           emits [generating libRoot; korefile_written w libRoot bindOpts] c)) /\
       (verdict_of flags <> NoOp -> haxe w = None ->
        bindingsStage w libRoot bindOpts options c
        = (Ok (fst flags),
           emits [generating libRoot; haxe_call w libRoot options (fst flags);
                  korefile_written w libRoot bindOpts] c)
        /\ (fst flags = true <-> verdict_of flags = RebuildAll)) /\
       (forall e korehl schedule,
          verdict_of flags <> NoOp -> haxe w = Some e ->
          bindingsStage w libRoot bindOpts options c
          = (Throw e,
             emits [generating libRoot; haxe_call w libRoot options (fst flags)] c)
          /\ (unsupported options korehl = false ->
              generateBindings w libRoot bindOpts options korehl schedule
              = (Rejected e,
                 [generating libRoot; haxe_call w libRoot options (fst flags)])))) /\
    (forall e,
       fst (evaluateModifiedTimes w libRoot bindOpts initial) = Throw e ->
       bindingsStage w libRoot bindOpts options c
       = (Throw e, emits [generating libRoot] c)).
Proof.
  intros w libRoot bindOpts options c.
  assert (Hb := bindingsStage_cases w libRoot bindOpts options).
  split.
  - intros [rc rb] Hflags.
    destruct (evaluateModifiedTimes_flags _ _ _ _ _ _ Hflags) as [E|[E|E]];
      injection E as -> ->; cbn [verdict_of fst].
    + split; [discriminate|]. split.
      * intros _ Hh. rewrite Hb, Hflags, Hh. split; [reflexivity | tauto].
      * intros e korehl schedule _ Hh. rewrite Hb, Hflags, Hh.
        split; [reflexivity|]. intros Hu.
        unfold generateBindings. now rewrite Hu, Hb, Hflags, Hh.
    + split; [discriminate|]. split.
      * intros _ Hh. rewrite Hb, Hflags, Hh.
        split; [reflexivity | split; discriminate].
      * intros e korehl schedule _ Hh. rewrite Hb, Hflags, Hh.
        split; [reflexivity|]. intros Hu.
        unfold generateBindings. now rewrite Hu, Hb, Hflags, Hh.
    + split; [intros _; now rewrite Hb, Hflags|].
      split; [intros H; contradiction | intros e k sch H; contradiction].
  - intros e He. now rewrite Hb, He.
Qed.

Lemma bindings_generated_unless_NoOp_witness :
  bindingsStage Sample.fresh_world "/lib" Sample.bindOpts Sample.options initial
  = (Ok false,
     emits [generating "/lib";
            korefile_written Sample.fresh_world "/lib" Sample.bindOpts] initial)
  /\ bindingsStage Sample.reconfigured_world "/lib" Sample.bindOpts Sample.options
       initial
     = (Ok true,
        emits [generating "/lib";
               haxe_call Sample.reconfigured_world "/lib" Sample.options true;
               korefile_written Sample.reconfigured_world "/lib" Sample.bindOpts]
          initial).
Proof.
  destruct (bindings_generated_unless_NoOp Sample.fresh_world "/lib"
              Sample.bindOpts Sample.options initial) as [H1 _].
  destruct (bindings_generated_unless_NoOp Sample.reconfigured_world "/lib"
              Sample.bindOpts Sample.options initial) as [H2 _].
  split.
  - apply (H1 (false, false)); reflexivity.
  - apply (H2 (true, false)); [reflexivity | discriminate | reflexivity].
Defined.

(** ** Targets without a JavaScript library *)

Lemma emits_neutral es c :
  Forall (fun e => is_ReadEnv e = false /\ is_Spawn e = false
                   /\ is_SpawnSync e = false) es ->
  neutral c (emits es c).
Proof.
  intros H. revert c. induction H as [|e es [H1 [H2 H3]] _ IH]; intros c.
  - apply neutral_refl.
  - cbn [emits fold_left]. eapply neutral_trans; [|apply IH].
    constructor; closure_simpl; rewrite ?H1, ?H2, ?H3; closure_simpl; reflexivity.
Qed.

(** X2. For a target that is neither [krom] nor an [html5] target nothing
    is compiled or linked and the toolchain is not looked for, under every
    schedule: the run is the bindings stage followed by the closing log
    line, or, when the target is not a HashLink/C build either, the
    warning alone. *)
Theorem other_targets_compile_nothing :
  forall w libRoot bindOpts options korehl schedule,
    webTarget options = false ->
    generateBindings w libRoot bindOpts options korehl schedule
    = generateBindings w libRoot bindOpts options korehl []
    /\ compiled (snd (generateBindings w libRoot bindOpts options korehl schedule))
       = false
    /\ linked (snd (generateBindings w libRoot bindOpts options korehl schedule))
       = false
    /\ env_reads (snd (generateBindings w libRoot bindOpts options korehl schedule))
       = 0
    /\ (korehl = false ->
        exists warning,
          generateBindings w libRoot bindOpts options korehl schedule
          = (Returned, [LogInfo warning]))
    /\ (korehl = true ->
        forall recompileAll c,
          bindingsStage w libRoot bindOpts options initial = (Ok recompileAll, c) ->
          generateBindings w libRoot bindOpts options korehl schedule
          = (Returned, (trace c ++ [LogInfo (done_message libRoot)])%list)).
Proof.
  intros w libRoot bindOpts options korehl schedule Hweb.
  assert (Hu : unsupported options korehl = negb korehl).
  { unfold unsupported. unfold webTarget in Hweb.
    apply orb_false_iff in Hweb. destruct Hweb as [-> ->]. reflexivity. }
  unfold generateBindings. rewrite Hu, Hweb.
  assert (HN := bindingsStage_neutral w libRoot bindOpts options initial).
  destruct korehl; cbn [negb].
  - destruct (bindingsStage w libRoot bindOpts options initial) as [[rc|e] c];
      cbn [snd] in *.
    + split; [reflexivity|]. closure_simpl.
      rewrite (neutral_compiled _ _ HN), (neutral_linked _ _ HN),
        (neutral_reads _ _ HN).
      split; [reflexivity|]. split; [reflexivity|]. split; [reflexivity|].
      split; [discriminate|]. intros _ rc' c' H. injection H as <- <-. reflexivity.
    + split; [reflexivity|].
      rewrite (neutral_compiled _ _ HN), (neutral_linked _ _ HN),
        (neutral_reads _ _ HN).
      split; [reflexivity|]. split; [reflexivity|]. split; [reflexivity|].
      split; [discriminate|]. intros _ rc' c' H. discriminate.
  - split; [reflexivity|]. cbn [snd].
    rewrite compiled_one, linked_one, env_reads_one. cbn.
    split; [reflexivity|]. split; [reflexivity|]. split; [reflexivity|].
    split; [intros _; eexists; reflexivity | discriminate].
Qed.

Lemma other_targets_compile_nothing_witness :
  env_reads
    (snd (generateBindings Sample.fresh_world "/lib" Sample.bindOpts
            (mkOptions "android-hl" "/haxe" "/kha") true Sample.schedule)) = 0
  /\ exists warning,
       generateBindings Sample.fresh_world "/lib" Sample.bindOpts
         (mkOptions "flash" "/haxe" "/kha") false Sample.schedule
       = (Returned, [LogInfo warning]).
Proof.
  destruct (other_targets_compile_nothing Sample.fresh_world "/lib" Sample.bindOpts
              (mkOptions "android-hl" "/haxe" "/kha") true Sample.schedule)
    as [_ [_ [_ [H _]]]]; [reflexivity|].
  destruct (other_targets_compile_nothing Sample.fresh_world "/lib" Sample.bindOpts
              (mkOptions "flash" "/haxe" "/kha") false Sample.schedule)
    as [_ [_ [_ [_ [H' _]]]]]; [reflexivity|].
  split; [exact H | apply H'; reflexivity].
Defined.

(** ** The order of the sources *)

(** X3. The scan stage changes nothing but the list of sources, to which
    it appends what the discovery of the sources directory yields,
    followed by what the discovery of [khabind] yields, each as the
    specification's walk has it. A file below both roots is therefore
    listed twice: when the sources directory is [khabind] itself, every
    source appears two times. *)
Theorem scan_appends_both_roots :
  forall w libRoot bindOpts c,
    snd (scanStage w libRoot bindOpts c)
    = set_sourceFiles
        (sourceFiles c
         ++ discovery w (sourcesDirAbs w libRoot bindOpts)
         ++ discovery w (resolve w [libRoot; "khabind"]))%list c
    /\ (sourcesDirAbs w libRoot bindOpts = resolve w [libRoot; "khabind"] ->
        sourceFiles (snd (scanStage w libRoot bindOpts c))
        = (sourceFiles c
           ++ discovery w (resolve w [libRoot; "khabind"])
           ++ discovery w (resolve w [libRoot; "khabind"]))%list).
Proof.
  intros w libRoot bindOpts c.
  assert (H : snd (scanStage w libRoot bindOpts c)
              = set_sourceFiles
                  (sourceFiles c
                   ++ discovery w (sourcesDirAbs w libRoot bindOpts)
                   ++ discovery w (resolve w [libRoot; "khabind"]))%list c).
  { unfold scanStage, bind.
    assert (H1 := addSources_discovery w (sourcesDirAbs w libRoot bindOpts) c).
    destruct (addSources w (sourcesDirAbs w libRoot bindOpts) c) as [[[]|e] c1] eqn:E;
      cbn [snd] in H1.
    - rewrite addSources_discovery, H1. cbn [sourceFiles set_sourceFiles].
      rewrite <- app_assoc. destruct c; reflexivity.
    - exfalso. revert E. unfold addSources.
      destruct (FS.lookup _ _); discriminate. }
  split; [exact H|]. intros E. rewrite H, E. reflexivity.
Qed.

Lemma scan_appends_both_roots_witness :
  sourceFiles
    (snd (scanStage Sample.fresh_world "/lib"
            (mkKhabindOptions "mylib.idl" "mylib" "khabind" "" false [] "" ["-g"])
            initial))
  = ["/lib/khabind/mylib.cpp"; "/lib/khabind/mylib.cpp"].
Proof.
  destruct (scan_appends_both_roots Sample.fresh_world "/lib"
              (mkKhabindOptions "mylib.idl" "mylib" "khabind" "" false [] "" ["-g"])
              initial) as [_ H].
  rewrite H; reflexivity.
Defined.

(** ** What the units leave untouched *)

Lemma spawns_app tr tr' : spawns (tr ++ tr') = spawns tr + spawns tr'.
Proof. unfold spawns. now rewrite filter_app, length_app. Qed.

Lemma spawns_one e : spawns [e] = Nat.b2n (is_Spawn e).
Proof. unfold spawns. simpl. now destruct (is_Spawn e). Qed.

Lemma spawns_emit e c :
  spawns (trace (emit e c)) = spawns (trace c) + Nat.b2n (is_Spawn e).
Proof. cbn [trace emit]. now rewrite spawns_app, spawns_one. Qed.

(** The resolver changes the toolchain variables and the trace only, and
    starts no process. *)
Lemma ensureEmscripten_frame w c :
  targetFiles (snd (ensureEmscripten w c)) = targetFiles c
  /\ sourceFiles (snd (ensureEmscripten w c)) = sourceFiles c
  /\ invalidateCache (snd (ensureEmscripten w c)) = invalidateCache c
  /\ spawns (trace (snd (ensureEmscripten w c))) = spawns (trace c).
Proof.
  unfold ensureEmscripten. destruct (neq_empty (emsdk c)); [auto|].
  cbn [emsdk set_emsdk emit].
  destruct (env_EMSCRIPTEN w);
    cbn [snd targetFiles sourceFiles invalidateCache trace set_emcc set_emsdk emit];
    rewrite ?spawns_app, ?spawns_one; cbn [is_Spawn Nat.b2n];
    repeat split; lia.
Qed.

(** One step of a unit keeps the lists of sources and of objects, and
    starts the compiler exactly when the unit goes from stale and waiting
    to compiling. *)
Lemma compileSource_step_frame w libRoot bindOpts recompileAll j c :
  targetFiles (snd (compileSource_step w libRoot bindOpts recompileAll j c))
  = targetFiles c
  /\ sourceFiles (snd (compileSource_step w libRoot bindOpts recompileAll j c))
     = sourceFiles c
  /\ spawns (trace (snd (compileSource_step w libRoot bindOpts recompileAll j c)))
     + match fst (compileSource_step w libRoot bindOpts recompileAll j c) with
       | Pending j' => Nat.b2n (pending_stale w recompileAll j')
       | Settled _ => 0
       end
     = spawns (trace c) + Nat.b2n (pending_stale w recompileAll j).
Proof.
  destruct (at_phase j) as [|command args|] eqn:Hph.
  - rewrite (compileSource_step_AwaitFs _ _ _ _ _ _ Hph).
    unfold pending_stale at 2. rewrite Hph.
    destruct (decide w recompileAll (file j) (targetFile j)) eqn:Hd; cbn [is_Stale].
    + cbn. auto.
    + destruct (ensureEmscripten_frame w c) as [F1 [F2 [_ F4]]].
      destruct (ensureEmscripten w c) as [[[]|e] c']; cbn [fst snd] in *.
      * cbv zeta. destruct (String.eqb (emcc c') ""); cbn [fst snd].
        -- unfold pending_stale. cbn [at_phase abandon file targetFile].
           rewrite Hd. cbn [is_Stale]. rewrite spawns_emit.
           rewrite is_Spawn_compiling, trace_set_cache, F4.
           cbn [Nat.b2n targetFiles sourceFiles emit set_invalidateCache].
           repeat split; auto; lia.
        -- unfold pending_stale. cbn [at_phase]. rewrite !spawns_emit.
           rewrite is_Spawn_compiling, trace_set_cache, F4.
           cbn [Nat.b2n is_Spawn targetFiles sourceFiles emit set_invalidateCache].
           repeat split; auto; lia.
      * unfold pending_stale. cbn [at_phase abandon file targetFile].
        rewrite Hd. cbn [is_Stale]. repeat split; auto; lia.
    + cbn [fst snd]. unfold pending_stale. cbn [at_phase abandon file targetFile].
      rewrite Hd. auto.
  - rewrite (step_AwaitClose_eq _ _ _ _ _ _ _ _ Hph). cbn [fst snd].
    unfold pending_stale. rewrite Hph. auto.
  - rewrite (step_Abandoned_eq _ _ _ _ _ _ Hph). cbn [fst snd]. auto.
Qed.

(** ** Counting units *)

Lemma count_jobs_app f l l' :
  count_jobs f (l ++ l') = count_jobs f l + count_jobs f l'.
Proof. unfold count_jobs. now rewrite filter_app, length_app. Qed.

Lemma count_jobs_remove f (l : list job) : forall i x,
  nth_error l i = Some x ->
  count_jobs f (remove_nth i l) + Nat.b2n (f x) = count_jobs f l.
Proof.
  unfold count_jobs.
  induction l as [|a l IH]; intros [|i] x; simpl; try discriminate.
  - intros [= ->]. destruct (f x); simpl; lia.
  - intros H. specialize (IH i x H). destruct (f a); simpl; lia.
Qed.

Lemma count_jobs_replace f (l : list job) : forall i x y,
  nth_error l i = Some x ->
  count_jobs f (replace_nth i y l) + Nat.b2n (f x)
  = count_jobs f l + Nat.b2n (f y).
Proof.
  unfold count_jobs.
  induction l as [|a l IH]; intros [|i] x y; simpl; try discriminate.
  - intros [= ->]. destruct (f x), (f y); simpl; lia.
  - intros H. specialize (IH i x y H). destruct (f a); simpl; lia.
Qed.

Lemma length_remove_nth {A} (l : list A) : forall i x,
  nth_error l i = Some x -> S (List.length (remove_nth i l)) = List.length l.
Proof.
  induction l as [|a l IH]; intros [|i] x; simpl; try discriminate.
  - reflexivity.
  - intros H. now rewrite (IH i x H).
Qed.

Lemma length_replace_nth {A} (l : list A) : forall i y,
  List.length (replace_nth i y l) = List.length l.
Proof.
  induction l as [|a l IH]; intros [|i] y; simpl; auto.
Qed.

Lemma skipn_next {A} : forall k (l : list A) x rest,
  skipn k l = x :: rest ->
  skipn (S k) l = rest
  /\ firstn (S k) l = (firstn k l ++ [x])%list
  /\ S k <= List.length l.
Proof.
  induction k as [|k IH]; intros [|a l] x rest H; simpl in *; try discriminate.
  - injection H as -> ->. repeat split. lia.
  - destruct (IH l x rest H) as [H1 [H2 H3]].
    split; [exact H1|]. split; [now rewrite <- H2 | lia].
Qed.

Lemma count_jobs_le f (l : list job) : count_jobs f l <= List.length l.
Proof. unfold count_jobs. apply filter_length_le. Qed.

Lemma firstn_all_of_skipn {A} (l : list A) k : skipn k l = [] -> firstn k l = l.
Proof.
  intros H. rewrite <- (firstn_skipn k l) at 2. rewrite H. now rewrite app_nil_r.
Qed.

Lemma settled_Resolve_waiting p : settled p = Some Resolve -> waiting p = [].
Proof.
  unfold settled. destruct (failure p); [discriminate|].
  destruct (waiting p); [reflexivity | discriminate].
Qed.

(** ** The order in which the units start *)

Lemma stuck_executeTask w libRoot p : stuck p -> stuck (executeTask w libRoot p).
Proof.
  intros [j [Hj Hp]]. unfold stuck, executeTask.
  destruct (waiting p) as [|f rest]; [eauto|].
  destruct (compileSource_begin w libRoot f (vars p)) as [j' c'].
  exists j. cbn [running]. split; [apply in_or_app; auto | exact Hp].
Qed.

(** An abandoned unit stays in flight for ever. *)
Lemma stuck_step w libRoot bindOpts recompileAll i p :
  stuck p -> stuck (step w libRoot bindOpts recompileAll i p).
Proof.
  intros [j0 [Hj0 Hp0]]. unfold step.
  destruct (nth_error (running p) i) as [j|] eqn:Hnth; [|exists j0; auto].
  destruct (compileSource_step w libRoot bindOpts recompileAll j (vars p))
    as [[j'|s] c'] eqn:Hstep.
  - destruct (In_keep_replace_nth _ i j j' j0 Hnth Hj0) as [->|Hin].
    + rewrite (step_Abandoned_eq _ _ _ _ _ _ Hp0) in Hstep.
      injection Hstep as <- _. exists j.
      split; [eapply In_new_replace_nth; eassumption | exact Hp0].
    + exists j0. cbn [running]. split; assumption.
  - assert (Hin : In j0 (remove_nth i (running p))).
    { destruct (In_keep_remove_nth _ i j j0 Hnth Hj0) as [->|Hin]; [|exact Hin].
      rewrite (step_Abandoned_eq _ _ _ _ _ _ Hp0) in Hstep. discriminate. }
    assert (R : forall fl, stuck (mkPool (waiting p) (remove_nth i (running p)) fl c')).
    { intros fl. exists j0. split; assumption. }
    destruct s as [|e]; [|apply R].
    destruct (failure p); [apply R | apply stuck_executeTask, R].
Qed.

Lemma stuck_not_resolved p : stuck p -> settled p <> Some Resolve.
Proof.
  intros [j [Hj _]] Hs. apply settled_Resolve in Hs. destruct Hs as [_ Hr].
  rewrite Hr in Hj. contradiction.
Qed.

Lemma objects_of_next w libRoot k (tasks : list string) f rest :
  skipn k tasks = f :: rest ->
  objects_of w libRoot (S k) tasks
  = (objects_of w libRoot k tasks
       ++ (if ensured w libRoot f then [targetFile_of w libRoot f] else []))%list.
Proof.
  intros H. destruct (skipn_next _ _ _ _ H) as [_ [H2 _]].
  unfold objects_of. rewrite H2, filter_app, map_app. cbn [filter].
  destruct (ensured w libRoot f); reflexivity.
Qed.

Section Started.

Variable w : World.
Variable libRoot : string.
Variable bindOpts : KhabindOptions.
Variable recompileAll : bool.
Variable tasks : list string.
Variable c0 : closure.

Let Inv := started_inv w libRoot recompileAll tasks c0.

Lemma stale_files_cons f rest :
  stale_files w libRoot recompileAll (f :: rest)
  = Nat.b2n (is_Stale (decide w recompileAll f (targetFile_of w libRoot f)))
    + stale_files w libRoot recompileAll rest.
Proof. unfold stale_files. simpl. destruct (is_Stale _); reflexivity. Qed.

Lemma executeTask_started p : Inv p -> Inv (executeTask w libRoot p).
Proof.
  intros HI. assert (HS := stuck_executeTask w libRoot p).
  destruct HI as [[k [Hk [Hw [Ht Hen]]]] Hs Hn]. unfold executeTask in *.
  destruct (waiting p) as [|f rest] eqn:Hwait.
  - constructor; [exists k; rewrite Hwait; auto | assumption
                 | rewrite Hwait; assumption].
  - symmetry in Hw. destruct (skipn_next _ _ _ _ Hw) as [H1 [H2 H3]].
    assert (Ho := objects_of_next w libRoot k tasks f rest Hw).
    rewrite stale_files_cons in Hn.
    rewrite compileSource_begin_cases in *.
    destruct (ensured w libRoot f) eqn:He; constructor; cbn [waiting running vars].
    + exists (S k). split; [exact H3|]. split; [now rewrite H1|]. split.
      * cbn [targetFiles push_targetFile emit]. rewrite Ht, Ho, <- app_assoc.
        reflexivity.
      * destruct Hen as [Hall|Hst]; [left | right; exact (HS Hst)].
        intros f' Hf'. rewrite H2 in Hf'. apply in_app_or in Hf'.
        destruct Hf' as [Hf'|[<-|[]]]; [auto | exact He].
    + exact Hs.
    + rewrite trace_push, spawns_emit. cbn [is_Spawn Nat.b2n].
      rewrite count_jobs_app. unfold count_jobs at 2. cbn [filter].
      unfold pending_stale at 2. cbn [at_phase file targetFile].
      destruct (is_Stale _); cbn [List.length Nat.b2n] in *; lia.
    + exists (S k). split; [exact H3|]. split; [now rewrite H1|]. split.
      * cbn [targetFiles emit]. rewrite Ht, Ho, app_nil_r. reflexivity.
      * right. eexists. split; [apply in_or_app; right; left; reflexivity|].
        reflexivity.
    + exact Hs.
    + rewrite spawns_emit. cbn [is_Spawn Nat.b2n].
      rewrite count_jobs_app. unfold count_jobs at 2. cbn [filter].
      unfold pending_stale at 2. cbn [at_phase file targetFile].
      destruct (is_Stale _); cbn [List.length Nat.b2n] in *; lia.
Qed.

Lemma start_started : Inv (start w libRoot tasks c0).
Proof.
  unfold start.
  induction (Nat.min (cpus w) (List.length tasks)) as [|n IH].
  - unfold Nat.iter. constructor; cbn [nat_rect waiting running vars].
    + exists 0. unfold objects_of. cbn [skipn firstn filter map].
      rewrite app_nil_r.
      split; [lia|]. split; [reflexivity|]. split; [reflexivity|].
      left. intros f [].
    + reflexivity.
    + unfold count_jobs. cbn [filter List.length]. lia.
  - rewrite Nat.iter_succ. apply executeTask_started. exact IH.
Qed.

Lemma step_started i p :
  Inv p -> Inv (step w libRoot bindOpts recompileAll i p).
Proof.
  intros HI. assert (HS := stuck_step w libRoot bindOpts recompileAll i p).
  unfold step in *.
  destruct (nth_error (running p) i) as [j|] eqn:Hnth; [|assumption].
  pose proof (compileSource_step_frame w libRoot bindOpts recompileAll j (vars p))
    as F.
  destruct (compileSource_step w libRoot bindOpts recompileAll j (vars p))
    as [pr c'] eqn:Hstep.
  cbn [fst snd] in F. destruct F as [F1 [F2 F3]].
  destruct HI as [[k [Hk [Hw [Ht Hen]]]] Hs Hn].
  destruct pr as [j'|s].
  - constructor; cbn [waiting running vars].
    + exists k. rewrite F1. repeat split; auto.
      destruct Hen as [Hall|Hst]; [left; exact Hall | right; exact (HS Hst)].
    + congruence.
    + pose proof (count_jobs_replace (pending_stale w recompileAll)
                    _ _ _ j' Hnth). lia.
  - assert (HI' : forall fl,
               Inv (mkPool (waiting p) (remove_nth i (running p)) fl c')).
    { intros fl. constructor; cbn [waiting running vars].
      - exists k. rewrite F1. repeat split; auto.
        destruct Hen as [Hall|[j0 [Hj0 Hp0]]]; [left; exact Hall | right].
        destruct (In_keep_remove_nth _ i j j0 Hnth Hj0) as [->|Hin].
        + rewrite (step_Abandoned_eq _ _ _ _ _ _ Hp0) in Hstep. discriminate.
        + exists j0. split; assumption.
      - congruence.
      - pose proof (count_jobs_remove (pending_stale w recompileAll)
                      _ _ _ Hnth). lia. }
    destruct s as [|e]; [|apply HI'].
    destruct (failure p); [apply HI' | apply executeTask_started, HI'].
Qed.

Lemma run_jobs_started schedule :
  forall p, Inv p -> Inv (run_jobs w libRoot bindOpts recompileAll schedule p).
Proof.
  induction schedule as [|i rest IH]; intros p HI; simpl; [assumption|].
  destruct (settled p); [assumption|].
  apply IH, step_started, HI.
Qed.

Lemma executeTask_running p :
  List.length (running (executeTask w libRoot p)) <= S (List.length (running p)).
Proof.
  unfold executeTask. destruct (waiting p) as [|f rest]; [lia|].
  destruct (compileSource_begin w libRoot f (vars p)) as [j c].
  cbn [running]. rewrite length_app. simpl. lia.
Qed.

Lemma start_running c :
  List.length (running (start w libRoot tasks c))
  <= Nat.min (cpus w) (List.length tasks).
Proof.
  unfold start.
  induction (Nat.min (cpus w) (List.length tasks)) as [|n IH].
  - simpl. lia.
  - rewrite Nat.iter_succ.
    pose proof (executeTask_running
                  (Nat.iter n (executeTask w libRoot) (mkPool tasks [] None c))).
    lia.
Qed.

Lemma step_running i p :
  List.length (running (step w libRoot bindOpts recompileAll i p))
  <= List.length (running p).
Proof.
  unfold step.
  destruct (nth_error (running p) i) as [j|] eqn:Hnth; [|lia].
  pose proof (length_remove_nth _ _ _ Hnth) as Hr.
  destruct (compileSource_step w libRoot bindOpts recompileAll j (vars p))
    as [[j'|[|e]] c'].
  - cbn [running]. rewrite length_replace_nth. lia.
  - destruct (failure p).
    + cbn [running]. lia.
    + pose proof (executeTask_running
                    (mkPool (waiting p) (remove_nth i (running p)) None c')) as He.
      cbn [running] in He. lia.
  - cbn [running]. lia.
Qed.

Lemma run_jobs_running schedule :
  forall p,
    List.length (running (run_jobs w libRoot bindOpts recompileAll schedule p))
    <= List.length (running p).
Proof.
  induction schedule as [|i rest IH]; intros p; simpl; [lia|].
  destruct (settled p); [lia|].
  pose proof (IH (step w libRoot bindOpts recompileAll i p)).
  pose proof (step_running i p). lia.
Qed.

End Started.

Lemma jobsStage_started w libRoot bindOpts recompileAll schedule c :
  started_inv w libRoot recompileAll (sourceFiles c) c
    (jobsStage w libRoot bindOpts recompileAll schedule c).
Proof. unfold jobsStage. apply run_jobs_started, start_started. Qed.

(** X4. Under every schedule the units start in the order of the source
    list, and each, as it starts, ensures the directory of its object
    file and then pushes the path of that file. When a regular file
    stands where that directory is wanted, the unit is left before the
    push and stays abandoned, so the runner does not resolve. When the
    runner hands back, the object files are therefore those of the first
    [k] sources whose directory could be ensured, in order, after the
    ones that were there; the tasks that wait are the rest of the list;
    and the list of sources is as it was. When every unit has resolved,
    there is one object file for each source. *)
Theorem objects_follow_the_sources :
  forall w libRoot bindOpts recompileAll schedule c,
    (exists k,
       k <= List.length (sourceFiles c)
       /\ waiting (jobsStage w libRoot bindOpts recompileAll schedule c)
          = skipn k (sourceFiles c)
       /\ targetFiles (vars (jobsStage w libRoot bindOpts recompileAll schedule c))
          = (targetFiles c ++ objects_of w libRoot k (sourceFiles c))%list
       /\ (forall f, In f (firstn k (sourceFiles c)) ->
             ensured w libRoot f = false ->
             settled (jobsStage w libRoot bindOpts recompileAll schedule c)
             <> Some Resolve))
    /\ sourceFiles (vars (jobsStage w libRoot bindOpts recompileAll schedule c))
       = sourceFiles c
    /\ (settled (jobsStage w libRoot bindOpts recompileAll schedule c)
        = Some Resolve ->
        targetFiles (vars (jobsStage w libRoot bindOpts recompileAll schedule c))
        = (targetFiles c ++ map (targetFile_of w libRoot) (sourceFiles c))%list).
Proof.
  intros w libRoot bindOpts rc schedule c.
  destruct (jobsStage_started w libRoot bindOpts rc schedule c)
    as [[k [Hk [Hw [Ht Hen]]]] Hs _].
  split; [|split; [exact Hs|]].
  - exists k. repeat split; auto.
    intros f Hin He. destruct Hen as [Hall|Hst].
    + rewrite (Hall f Hin) in He. discriminate.
    + now apply stuck_not_resolved.
  - intros Hr. rewrite Ht. unfold objects_of.
    rewrite (firstn_all_of_skipn (sourceFiles c) k) in *
      by (rewrite <- Hw; now apply settled_Resolve_waiting).
    destruct Hen as [Hall|Hst]; [|now apply stuck_not_resolved in Hst].
    rewrite forallb_filter_id; [reflexivity|].
    apply forallb_forall. exact Hall.
Qed.

Lemma objects_follow_the_sources_witness :
  targetFiles
    (vars (jobsStage Sample.fresh_world "/lib" Sample.bindOpts false
             Sample.schedule
             (snd (scanStage Sample.fresh_world "/lib" Sample.bindOpts
                     (Sample.bound Sample.fresh_world)))))
  = ["/lib/khabind/bytecode/src/foo.cpp.bc";
     "/lib/khabind/bytecode/src/sub/bar.c.bc";
     "/lib/khabind/bytecode/khabind/mylib.cpp.bc"].
Proof.
  assert (E : settled
                (jobsStage Sample.fresh_world "/lib" Sample.bindOpts false
                   Sample.schedule
                   (snd (scanStage Sample.fresh_world "/lib" Sample.bindOpts
                           (Sample.bound Sample.fresh_world))))
              = Some Resolve)
    by (vm_compute; reflexivity).
  pose proof (objects_follow_the_sources Sample.fresh_world "/lib"
                Sample.bindOpts false Sample.schedule
                (snd (scanStage Sample.fresh_world "/lib" Sample.bindOpts
                        (Sample.bound Sample.fresh_world)))) as [_ [_ H]].
  rewrite (H E). vm_compute. reflexivity.
Defined.

(** X5. Under every schedule, no more units are in flight than the
    machine has processors, nor than there are sources; so no more
    compiler processes than that run at the same time. *)
Theorem compilers_bounded_by_cpus :
  forall w libRoot bindOpts recompileAll schedule c,
    List.length (running (jobsStage w libRoot bindOpts recompileAll schedule c))
    <= Nat.min (cpus w) (List.length (sourceFiles c))
    /\ count_jobs compiling_now
         (running (jobsStage w libRoot bindOpts recompileAll schedule c))
       <= cpus w.
Proof.
  intros w libRoot bindOpts rc schedule c. unfold jobsStage.
  pose proof (run_jobs_running w libRoot bindOpts rc schedule
                (start w libRoot (sourceFiles c) c)) as H1.
  pose proof (start_running w libRoot (sourceFiles c) c) as H2.
  pose proof (count_jobs_le compiling_now
                (running (run_jobs w libRoot bindOpts rc schedule
                            (start w libRoot (sourceFiles c) c)))) as H3.
  split; lia.
Qed.

(** ** How many compilers a run starts *)

Lemma spawns_of_compiled tr : compiled tr = false -> spawns tr = 0.
Proof.
  unfold compiled, spawns. induction tr as [|e tr IH]; simpl; [reflexivity|].
  destruct (is_Spawn e); simpl; [discriminate | exact IH].
Qed.






(** ** The command line of the linker *)

Lemma targetFiles_emits es : forall c, targetFiles (emits es c) = targetFiles c.
Proof.
  induction es as [|e es IH]; intros c; [reflexivity|].
  cbn [emits fold_left]. apply (IH (emit e c)).
Qed.

Lemma bindingsStage_targets w libRoot bindOpts options c :
  targetFiles (snd (bindingsStage w libRoot bindOpts options c)) = targetFiles c.
Proof.
  rewrite bindingsStage_cases.
  destruct (fst (evaluateModifiedTimes w libRoot bindOpts initial))
    as [[rc rb]|e]; [|apply targetFiles_emits].
  destruct (rc || rb); [|apply targetFiles_emits].
  destruct (haxe w); apply targetFiles_emits.
Qed.

Lemma addSources_targets w dir c :
  targetFiles (snd (addSources w dir c)) = targetFiles c.
Proof. unfold addSources. destruct (FS.lookup _ _); reflexivity. Qed.

Lemma scanStage_targets w libRoot bindOpts c :
  targetFiles (snd (scanStage w libRoot bindOpts c)) = targetFiles c.
Proof.
  unfold scanStage, bind.
  assert (H1 := addSources_targets w (sourcesDirAbs w libRoot bindOpts) c).
  destruct (addSources w (sourcesDirAbs w libRoot bindOpts) c) as [[[]|e] c1];
    cbn [snd] in *; [|assumption].
  now rewrite addSources_targets.
Qed.

(** With the variable set, the resolver answers, and the compiler is
    [emcc] under the directory the variable names. *)
Lemma ensureEmscripten_resolves w c sdk :
  toolchain_inv w c -> env_EMSCRIPTEN w = Some sdk ->
  exists c',
    ensureEmscripten w c = (Ok tt, c')
    /\ emcc c' = Path.join [sdk; "emcc"]
    /\ targetFiles c' = targetFiles c
    /\ exists pre, trace c' = (trace c ++ pre)%list.
Proof.
  intros [[H1 _]|[[_ [_ [H3 _]]]|[sdk' [H1 [H2 [H3 _]]]]]] Henv.
  - rewrite (ensureEmscripten_present w c sdk); [|now rewrite H1|exact Henv].
    eexists. split; [reflexivity|]. repeat split. eexists. reflexivity.
  - congruence.
  - assert (sdk' = sdk) by congruence. subst sdk'.
    destruct (neq_empty (emsdk c)) eqn:Hne.
    + rewrite (ensureEmscripten_cached w c Hne). exists c.
      repeat split; auto. exists []. now rewrite app_nil_r.
    + rewrite (ensureEmscripten_present w c sdk Hne Henv).
      eexists. split; [reflexivity|]. repeat split. eexists. reflexivity.
Qed.

(** X7. When the units have settled and the link stage runs, with the
    environment variable set and with link arguments, the run invokes
    [emcc] of that toolchain, in the library's directory, with the object
    files that were pushed, in the order of the sources, followed by the
    linker's own arguments, and announces that command line in the log
    before. The object files are those of the units that were started
    and found their directory: after a failed compile, of the first [k]
    sources only; when every unit resolved, of all the sources. *)
Theorem linker_command_line :
  forall w libRoot bindOpts options korehl schedule recompileAll c s sdk joined,
    webTarget options = true ->
    bindingsStage w libRoot bindOpts options initial = (Ok recompileAll, c) ->
    settled (units w libRoot bindOpts recompileAll schedule c) = Some s ->
    invalidateCache (vars (units w libRoot bindOpts recompileAll schedule c)) = true
    \/ existsSync w (finalLibrary libRoot bindOpts) = false ->
    env_EMSCRIPTEN w = Some sdk ->
    JS.reduce_spaces (emccArgs bindOpts) = Some joined ->
    exists k pre post,
      waiting (units w libRoot bindOpts recompileAll schedule c)
      = skipn k (found w libRoot bindOpts c)
      /\ (s = Resolve ->
          objects_of w libRoot k (found w libRoot bindOpts c)
          = map (targetFile_of w libRoot) (found w libRoot bindOpts c))
      /\ snd (generateBindings w libRoot bindOpts options korehl schedule)
         = (pre
              ++ running_emcc bindOpts joined
              :: SpawnSync (Path.join [sdk; "emcc"])
                   (objects_of w libRoot k (found w libRoot bindOpts c)
                      ++ link_args bindOpts joined)%list
                   libRoot
              :: post)%list
      /\ linked pre = false.
Proof.
  intros w libRoot bindOpts options korehl schedule rc c s sdk joined
         Hweb Hb Hs Hcond Henv Hargs.
  assert (Hf : fresh (snd (scanStage w libRoot bindOpts c))).
  { assert (H := prepared_fresh w libRoot bindOpts options).
    rewrite Hb in H. exact H. }
  assert (Ht0 : targetFiles (snd (scanStage w libRoot bindOpts c)) = []).
  { rewrite scanStage_targets.
    assert (H := bindingsStage_targets w libRoot bindOpts options initial).
    rewrite Hb in H. exact H. }
  unfold units, found in *. unfold generateBindings.
  rewrite (webTarget_supported _ korehl Hweb), Hb, Hweb.
  destruct (scanStage w libRoot bindOpts c) as [r0 c1]. cbn [snd] in *.
  assert (HI := jobsStage_inv w libRoot bindOpts rc schedule c1 Hf).
  destruct (jobsStage_started w libRoot bindOpts rc schedule c1)
    as [[k [Hk [Hw [Ht Hen]]]] _ _].
  set (p := jobsStage w libRoot bindOpts rc schedule c1) in *.
  rewrite Ht0 in Ht. cbn [app] in Ht.
  exists k.
  assert (Hall : s = Resolve ->
                 objects_of w libRoot k (sourceFiles c1)
                 = map (targetFile_of w libRoot) (sourceFiles c1)).
  { intros ->. unfold objects_of.
    rewrite (firstn_all_of_skipn (sourceFiles c1) k) in *
      by (rewrite <- Hw; now apply settled_Resolve_waiting).
    destruct Hen as [Hen|Hst]; [|now apply stuck_not_resolved in Hst].
    rewrite forallb_filter_id; [reflexivity|].
    apply forallb_forall. exact Hen. }
  rewrite Hs. fold_catch_log s p.
  assert (HC : closure_inv w (catch_log s (vars p))) by (apply catch_log_inv, HI).
  assert (HN := catch_log_neutral s (vars p)).
  assert (Hcond' : invalidateCache (catch_log s (vars p)) = true
                   \/ existsSync w (finalLibrary libRoot bindOpts) = false).
  { rewrite (neutral_cache _ _ HN). exact Hcond. }
  assert (Htc : targetFiles (catch_log s (vars p)) = targetFiles (vars p)).
  { destruct s; reflexivity. }
  rewrite (linkStage_run _ _ _ _ Hcond'), Hargs.
  assert (T : toolchain_inv w (emit (LogInfo linking) (catch_log s (vars p)))).
  { apply (toolchain_inv_same w (catch_log s (vars p)));
      [reflexivity | reflexivity | closure_simpl; reflexivity | apply HC]. }
  destruct (ensureEmscripten_resolves w _ sdk T Henv) as [c' [He0 [He [Htf _]]]].
  destruct (ensureEmscripten_inv w _ _ _ T He0) as [_ [_ [_ [_ [_ [Hli _]]]]]].
  rewrite He0. cbv zeta. rewrite He.
  destruct (String.eqb_spec (Path.join [sdk; "emcc"]) "") as [E|_];
    [exfalso; revert E; apply join_nonempty|].
  cbn [targetFiles emit] in Htf. rewrite Htf, Htc, Ht.
  destruct (emcc_link w _ _) as [[stderr stdout] status].
  cbn [fst snd trace emit].
  exists (trace c'), (link_diagnostics stderr stdout ++ [LogInfo (done_message libRoot)])%list.
  split; [exact Hw|]. split; [exact Hall|]. split.
  - rewrite <- !app_assoc. reflexivity.
  - rewrite Hli. closure_simpl. apply HC.
Qed.

Lemma linker_command_line_witness :
  In (SpawnSync "/emsdk/emcc"
        ["/lib/khabind/bytecode/src/foo.cpp.bc";
         "/lib/khabind/bytecode/src/sub/bar.c.bc";
         "/lib/khabind/bytecode/khabind/mylib.cpp.bc";
         "-O2"; "-s"; "EXPORT_NAME=mylib"; "-s"; "MODULARIZE=1";
         "-s"; "SINGLE_FILE=1"; "-s"; "WASM=0"; "-s"; "X=1";
         "-o"; "khabind/mylib.js"]
        "/lib")
     (snd (generateBindings Sample.fresh_world "/lib" Sample.bindOpts
             Sample.options false Sample.schedule)).
Proof.
  assert (E1 : bindingsStage Sample.fresh_world "/lib" Sample.bindOpts
                 Sample.options initial
               = (Ok false, Sample.bound Sample.fresh_world))
    by (vm_compute; reflexivity).
  assert (E2 : settled (units Sample.fresh_world "/lib" Sample.bindOpts false
                          Sample.schedule (Sample.bound Sample.fresh_world))
               = Some Resolve)
    by (vm_compute; reflexivity).
  assert (E3 : invalidateCache
                 (vars (units Sample.fresh_world "/lib" Sample.bindOpts false
                          Sample.schedule (Sample.bound Sample.fresh_world)))
               = true)
    by (vm_compute; reflexivity).
  pose proof (linker_command_line Sample.fresh_world "/lib" Sample.bindOpts
                Sample.options false Sample.schedule false
                (Sample.bound Sample.fresh_world) Resolve "/emsdk" "-s X=1"
                eq_refl E1 E2 (or_introl E3) eq_refl eq_refl)
    as [k [pre [post [_ [Hall [H _]]]]]].
  rewrite (Hall eq_refl) in H. rewrite H.
  apply in_or_app. right. right. left. reflexivity.
Defined.

(** ** A run without a toolchain, or without link arguments *)

Lemma stale_files_pos w libRoot recompileAll files f :
  In f files ->
  decide w recompileAll f (targetFile_of w libRoot f) = Stale ->
  1 <= stale_files w libRoot recompileAll files.
Proof.
  intros Hin Hd. unfold stale_files.
  assert (H : In f (filter
                      (fun f => is_Stale (decide w recompileAll f
                                            (targetFile_of w libRoot f)))
                      files)).
  { apply filter_In. split; [exact Hin | now rewrite Hd]. }
  destruct (filter _ files); [contradiction | simpl; lia].
Qed.

(** Without the environment variable no compiler is ever started. *)
Lemma no_toolchain_no_compile w c :
  closure_inv w c -> env_EMSCRIPTEN w = None -> compiled (trace c) = false.
Proof.
  intros [T I2 _ _] Henv. destruct (compiled (trace c)); [|reflexivity].
  destruct (I2 eq_refl) as [_ Hne].
  destruct (toolchain_resolved w c T Hne) as [sdk [H _]]. congruence.
Qed.

(** X14. Without the [EMSCRIPTEN] variable, a run that has a stale source
    neither returns nor rejects, under any schedule: the unit of the
    stale source throws inside its executor and its promise is never
    settled, so the runner never hands back. No compiler and no linker is
    started. *)
Theorem missing_toolchain_never_settles :
  forall w libRoot bindOpts options korehl schedule recompileAll c f,
    webTarget options = true ->
    bindingsStage w libRoot bindOpts options initial = (Ok recompileAll, c) ->
    env_EMSCRIPTEN w = None ->
    In f (found w libRoot bindOpts c) ->
    decide w recompileAll f (targetFile_of w libRoot f) = Stale ->
    fst (generateBindings w libRoot bindOpts options korehl schedule)
    = NeverSettles
    /\ compiled (snd (generateBindings w libRoot bindOpts options korehl schedule))
       = false
    /\ linked (snd (generateBindings w libRoot bindOpts options korehl schedule))
       = false.
Proof.
  intros w libRoot bindOpts options korehl schedule rc c f
         Hweb Hb Henv Hin Hd.
  assert (Hf : fresh (snd (scanStage w libRoot bindOpts c))).
  { assert (H := prepared_fresh w libRoot bindOpts options).
    rewrite Hb in H. exact H. }
  unfold found in Hin. unfold generateBindings.
  rewrite (webTarget_supported _ korehl Hweb), Hb, Hweb.
  destruct (scanStage w libRoot bindOpts c) as [r0 c1]. cbn [snd] in *.
  assert (HI := jobsStage_inv w libRoot bindOpts rc schedule c1 Hf).
  destruct (jobsStage_started w libRoot bindOpts rc schedule c1)
    as [_ _ Hn].
  set (p := jobsStage w libRoot bindOpts rc schedule c1) in *.
  assert (Hc : compiled (trace (vars p)) = false).
  { apply (no_toolchain_no_compile w); [apply HI | exact Henv]. }
  assert (Hs : settled p = None).
  { destruct (settled p) as [[|e]|] eqn:Hs; [| |reflexivity]; exfalso.
    - destruct (settled_Resolve _ Hs) as [_ Hr].
      rewrite (settled_Resolve_waiting _ Hs), Hr in Hn.
      rewrite (spawns_of_compiled _ Hc),
        (spawns_of_compiled _ (fresh_compiled _ Hf)) in Hn.
      pose proof (stale_files_pos w libRoot rc _ f Hin Hd).
      unfold stale_files at 1 in Hn. unfold count_jobs in Hn.
      cbn [filter List.length] in Hn. lia.
    - apply settled_Reject in Hs.
      rewrite (inv_failure _ _ _ _ _ HI) in Hc; [discriminate|].
      rewrite Hs. discriminate. }
  rewrite Hs. cbn [fst snd].
  split; [reflexivity|]. split; [exact Hc|].
  apply (inv_unlinked _ _ (inv_closure _ _ _ _ _ HI)).
Qed.

Lemma missing_toolchain_never_settles_witness :
  fst (generateBindings (Sample.world FS.Nil None) "/lib" Sample.bindOpts
         Sample.options false Sample.schedule)
  = NeverSettles.
Proof.
  assert (E1 : bindingsStage (Sample.world FS.Nil None) "/lib" Sample.bindOpts
                 Sample.options initial
               = (Ok false, Sample.bound (Sample.world FS.Nil None)))
    by (vm_compute; reflexivity).
  assert (E2 : In "/lib/src/foo.cpp"
                 (found (Sample.world FS.Nil None) "/lib" Sample.bindOpts
                    (Sample.bound (Sample.world FS.Nil None))))
    by (vm_compute; left; reflexivity).
  assert (E3 : decide (Sample.world FS.Nil None) false "/lib/src/foo.cpp"
                 (targetFile_of (Sample.world FS.Nil None) "/lib"
                    "/lib/src/foo.cpp")
               = Stale)
    by (vm_compute; reflexivity).
  pose proof (missing_toolchain_never_settles (Sample.world FS.Nil None) "/lib"
                Sample.bindOpts Sample.options false Sample.schedule false
                (Sample.bound (Sample.world FS.Nil None)) "/lib/src/foo.cpp"
                eq_refl E1 eq_refl E2 E3) as [H _].
  exact H.
Defined.

(** X15. When the units have settled and the link stage runs, the two
    ways it can fail reject the whole run before any linker is started:
    without the [EMSCRIPTEN] variable the run logs the missing variable as
    an error and rejects with that message; with the variable set but an
    empty [emccArgs], the [reduce] without initial value throws and the run
    rejects with that error. *)
Theorem link_stage_rejections :
  forall w libRoot bindOpts options korehl schedule recompileAll c s,
    webTarget options = true ->
    bindingsStage w libRoot bindOpts options initial = (Ok recompileAll, c) ->
    settled (units w libRoot bindOpts recompileAll schedule c) = Some s ->
    invalidateCache (vars (units w libRoot bindOpts recompileAll schedule c)) = true
    \/ existsSync w (finalLibrary libRoot bindOpts) = false ->
    (env_EMSCRIPTEN w = None ->
     fst (generateBindings w libRoot bindOpts options korehl schedule)
     = Rejected no_EMSCRIPTEN
     /\ In (LogError no_EMSCRIPTEN)
           (snd (generateBindings w libRoot bindOpts options korehl schedule))
     /\ linked (snd (generateBindings w libRoot bindOpts options korehl schedule))
        = false)
    /\ (env_EMSCRIPTEN w <> None -> emccArgs bindOpts = [] ->
        fst (generateBindings w libRoot bindOpts options korehl schedule)
        = Rejected "Reduce of empty array with no initial value"
        /\ linked (snd (generateBindings w libRoot bindOpts options korehl schedule))
           = false).
Proof.
  intros w libRoot bindOpts options korehl schedule rc c s Hweb Hb Hs Hcond.
  assert (Hf : fresh (snd (scanStage w libRoot bindOpts c))).
  { assert (H := prepared_fresh w libRoot bindOpts options).
    rewrite Hb in H. exact H. }
  unfold units in *. unfold generateBindings.
  rewrite (webTarget_supported _ korehl Hweb), Hb, Hweb.
  destruct (scanStage w libRoot bindOpts c) as [r0 c1]. cbn [snd] in *.
  assert (HI := jobsStage_inv w libRoot bindOpts rc schedule c1 Hf).
  set (p := jobsStage w libRoot bindOpts rc schedule c1) in *.
  rewrite Hs. fold_catch_log s p.
  destruct (settled_changed _ _ _ _ _ _ HI Hs) as [Hsdk _].
  assert (HC : closure_inv w (catch_log s (vars p))) by (apply catch_log_inv, HI).
  assert (HN := catch_log_neutral s (vars p)).
  assert (Hcond' : invalidateCache (catch_log s (vars p)) = true
                   \/ existsSync w (finalLibrary libRoot bindOpts) = false).
  { rewrite (neutral_cache _ _ HN). exact Hcond. }
  rewrite (linkStage_run _ _ _ _ Hcond').
  set (c2 := emit (LogInfo linking) (catch_log s (vars p))).
  assert (T : toolchain_inv w c2).
  { apply (toolchain_inv_same w (catch_log s (vars p)));
      [reflexivity | reflexivity | unfold c2; closure_simpl; reflexivity
      | apply HC]. }
  assert (Hl : linked (trace c2) = false).
  { unfold c2. closure_simpl. apply HC. }
  split.
  - intros Henv.
    assert (Hne : neq_empty (emsdk c2) = false).
    { destruct T as [[H1 _]|[[H1 _]|[sdk [H1 _]]]].
      - now rewrite H1.
      - exfalso. apply Hsdk. rewrite <- (neutral_emsdk _ _ HN). exact H1.
      - congruence. }
    rewrite (ensureEmscripten_absent w c2 Hne Henv). cbn [fst snd].
    split; [reflexivity|]. split.
    + cbn [trace emit set_emsdk]. rewrite !in_app_iff. right. left. reflexivity.
    + closure_simpl. cbn [trace set_emsdk emit]. closure_simpl. exact Hl.
  - intros Henv Hargs. rewrite Hargs. cbn [JS.reduce_spaces].
    destruct (ensureEmscripten_ready w c2 (toolchain_ready_env w c2 T Henv))
      as [c' [He _]].
    destruct (ensureEmscripten_inv w c2 _ _ T He) as [_ [_ [_ [_ [_ [Hli _]]]]]].
    rewrite He. cbn [fst snd]. split; [reflexivity|]. now rewrite Hli.
Qed.

Lemma link_stage_rejections_witness :
  fst (generateBindings Sample.fresh_world "/lib"
         (mkKhabindOptions "mylib.idl" "mylib" "src" "" false [] "" [])
         Sample.options false Sample.schedule)
  = Rejected "Reduce of empty array with no initial value".
Proof.
  assert (E1 : bindingsStage Sample.fresh_world "/lib"
                 (mkKhabindOptions "mylib.idl" "mylib" "src" "" false [] "" [])
                 Sample.options initial
               = (Ok false,
                  snd (bindingsStage Sample.fresh_world "/lib"
                         (mkKhabindOptions "mylib.idl" "mylib" "src" "" false []
                            "" [])
                         Sample.options initial)))
    by (vm_compute; reflexivity).
  assert (E2 : settled
                 (units Sample.fresh_world "/lib"
                    (mkKhabindOptions "mylib.idl" "mylib" "src" "" false [] "" [])
                    false Sample.schedule
                    (snd (bindingsStage Sample.fresh_world "/lib"
                            (mkKhabindOptions "mylib.idl" "mylib" "src" "" false
                               [] "" [])
                            Sample.options initial)))
               = Some Resolve)
    by (vm_compute; reflexivity).
  assert (E3 : invalidateCache
                 (vars
                    (units Sample.fresh_world "/lib"
                       (mkKhabindOptions "mylib.idl" "mylib" "src" "" false [] "" [])
                       false Sample.schedule
                       (snd (bindingsStage Sample.fresh_world "/lib"
                               (mkKhabindOptions "mylib.idl" "mylib" "src" "" false
                                  [] "" [])
                               Sample.options initial))))
               = true)
    by (vm_compute; reflexivity).
  pose proof (link_stage_rejections Sample.fresh_world "/lib"
                (mkKhabindOptions "mylib.idl" "mylib" "src" "" false [] "" [])
                Sample.options false Sample.schedule false _ Resolve
                eq_refl E1 E2 (or_introl E3)) as [_ H].
  destruct H as [H _]; [discriminate | reflexivity | exact H].
Defined.

(** ** The command line of the compiler *)

Lemma snoc_cases {A} (l : list A) : l = [] \/ exists l' x, l = (l' ++ [x])%list.
Proof. induction l using rev_ind; [left | right]; eauto. Qed.

Section CompilesOnly.

Variable w : World.
Variable libRoot : string.
Variable bindOpts : KhabindOptions.
Variable recompileAll : bool.
Variable tasks : list string.

Let Only := compiles_only w libRoot bindOpts recompileAll tasks.

Lemma compiles_only_none tr : compiled tr = false -> Only tr.
Proof.
  intros Hc pre command args dir post E. exfalso.
  rewrite E, compiled_app in Hc. apply orb_false_iff in Hc.
  destruct Hc as [_ Hc]. discriminate.
Qed.

Lemma compiles_only_quiet tr e :
  is_Spawn e = false -> Only tr -> Only (tr ++ [e])%list.
Proof.
  intros He H pre command args dir post E.
  destruct (snoc_cases post) as [->|[post' [x ->]]].
  - apply app_inj_tail in E. destruct E as [_ ->]. discriminate.
  - change (pre ++ Spawn command args dir :: post' ++ [x])%list
      with (pre ++ (Spawn command args dir :: post') ++ [x])%list in E.
    rewrite app_assoc in E. apply app_inj_tail in E. destruct E as [E _].
    exact (H _ _ _ _ _ E).
Qed.

Lemma compiles_only_quiet_app quiet :
  Forall (fun e => is_Spawn e = false) quiet ->
  forall tr, Only tr -> Only (tr ++ quiet)%list.
Proof.
  induction 1 as [|e quiet He _ IH]; intros tr H.
  - now rewrite app_nil_r.
  - change (e :: quiet) with ([e] ++ quiet)%list. rewrite app_assoc.
    apply IH, compiles_only_quiet; assumption.
Qed.

Lemma compiles_only_spawn tr f sdk :
  Only tr -> In f tasks ->
  decide w recompileAll f (targetFile_of w libRoot f) = Stale ->
  env_EMSCRIPTEN w = Some sdk ->
  In (EnsureDir (Path.dirname (targetFile_of w libRoot f))) tr ->
  In (LogInfo ("    Compiling " ++ Path.relative (cwd w) libRoot f)) tr ->
  Only (tr ++ [compile_of w libRoot bindOpts sdk f])%list.
Proof.
  intros H Hin Hd Henv Hdir Hlog pre command args dir post E.
  destruct (snoc_cases post) as [->|[post' [x ->]]].
  - apply app_inj_tail in E. destruct E as [-> E].
    exists f, sdk. auto 10.
  - change (pre ++ Spawn command args dir :: post' ++ [x])%list
      with (pre ++ (Spawn command args dir :: post') ++ [x])%list in E.
    rewrite app_assoc in E. apply app_inj_tail in E. destruct E as [E _].
    exact (H _ _ _ _ _ E).
Qed.

End CompilesOnly.

Lemma ensureEmscripten_events w c :
  exists pre,
    trace (snd (ensureEmscripten w c)) = (trace c ++ pre)%list
    /\ Forall (fun e => is_Spawn e = false) pre.
Proof.
  unfold ensureEmscripten. destruct (neq_empty (emsdk c)).
  - exists []. cbn [snd]. rewrite app_nil_r. auto.
  - cbn [emsdk set_emsdk emit]. destruct (env_EMSCRIPTEN w);
      cbn [snd trace set_emcc set_emsdk emit].
    + exists [ReadEnv "EMSCRIPTEN"]. split; [reflexivity|]. repeat constructor.
    + exists [ReadEnv "EMSCRIPTEN"; LogError no_EMSCRIPTEN].
      split; [now rewrite <- app_assoc|]. repeat constructor.
Qed.

Lemma toolchain_emcc w c :
  toolchain_inv w c -> emcc c <> "" ->
  exists sdk, env_EMSCRIPTEN w = Some sdk /\ emcc c = Path.join [sdk; "emcc"].
Proof.
  intros [[_ [E _]]|[[_ [E _]]|[sdk [H1 [_ [H3 _]]]]]] Hne; try contradiction.
  exists sdk. auto.
Qed.

(** What one step of a unit adds to the trace: events that start no
    process, and then, for a stale unit that found the compiler, the
    announcement and the compiler process. *)
Lemma compileSource_step_events w libRoot bindOpts recompileAll j c :
  exists quiet,
    Forall (fun e => is_Spawn e = false) quiet
    /\ (trace (snd (compileSource_step w libRoot bindOpts recompileAll j c))
        = (trace c ++ quiet)%list
        \/ (trace (snd (compileSource_step w libRoot bindOpts recompileAll j c))
            = ((trace c ++ quiet ++ [compiling w libRoot j])
                 ++ [Spawn (emcc (snd (compileSource_step w libRoot bindOpts
                                         recompileAll j c)))
                       (compile_args w libRoot bindOpts j) libRoot])%list
            /\ emcc (snd (compileSource_step w libRoot bindOpts recompileAll j c))
               <> ""
            /\ at_phase j = AwaitFs
            /\ decide w recompileAll (file j) (targetFile j) = Stale)).
Proof.
  destruct (at_phase j) as [|command args|] eqn:Hph.
  - rewrite (compileSource_step_AwaitFs _ _ _ _ _ _ Hph).
    destruct (decide w recompileAll (file j) (targetFile j)) eqn:Hd.
    + exists []. cbn [snd]. rewrite app_nil_r. auto.
    + destruct (ensureEmscripten_events w c) as [pre [Hpre Hq]].
      destruct (ensureEmscripten w c) as [[[]|e] c']; cbn [snd] in *.
      * cbv zeta. destruct (String.eqb_spec (emcc c') "") as [He|Hne];
          cbn [snd].
        -- exists (pre ++ [compiling w libRoot j])%list. split.
           ++ apply Forall_app. split; [exact Hq|]. repeat constructor.
           ++ left. cbn [trace emit set_invalidateCache]. rewrite Hpre.
              now rewrite <- app_assoc.
        -- exists pre. split; [exact Hq|]. right.
           cbn [trace emit set_invalidateCache emcc]. rewrite Hpre.
           rewrite <- !app_assoc. auto.
      * exists pre. auto.
    + exists []. cbn [snd]. rewrite app_nil_r. auto.
  - rewrite (step_AwaitClose_eq _ _ _ _ _ _ _ _ Hph). exists []. cbn [snd].
    rewrite app_nil_r. auto.
  - rewrite (step_Abandoned_eq _ _ _ _ _ _ Hph). exists []. cbn [snd].
    rewrite app_nil_r. auto.
Qed.

(** A unit that stays in flight keeps its source and its object file. *)
Lemma compileSource_step_same_unit w libRoot bindOpts recompileAll j c j' :
  fst (compileSource_step w libRoot bindOpts recompileAll j c) = Pending j' ->
  file j' = file j /\ targetFile j' = targetFile j.
Proof.
  destruct (at_phase j) as [|command args|] eqn:Hph.
  - rewrite (compileSource_step_AwaitFs _ _ _ _ _ _ Hph).
    destruct (decide w recompileAll (file j) (targetFile j)).
    + discriminate.
    + destruct (ensureEmscripten w c) as [[[]|e] c'].
      * cbv zeta. destruct (String.eqb (emcc c') ""); intros [= <-]; auto.
      * intros [= <-]; auto.
    + intros [= <-]; auto.
  - rewrite (step_AwaitClose_eq _ _ _ _ _ _ _ _ Hph). discriminate.
  - rewrite (step_Abandoned_eq _ _ _ _ _ _ Hph). intros [= <-]; auto.
Qed.

Section Ordered.

Variable w : World.
Variable libRoot : string.
Variable bindOpts : KhabindOptions.
Variable recompileAll : bool.
Variable tasks : list string.

Let Inv := pool_inv w libRoot recompileAll tasks.
Let Ord := ordered_inv w libRoot bindOpts recompileAll tasks.

Lemma executeTask_ordered p : Ord p -> Ord (executeTask w libRoot p).
Proof.
  intros HO. unfold executeTask.
  destruct (waiting p) as [|f rest]; [exact HO|].
  destruct HO as [O1 O2]. rewrite compileSource_begin_cases.
  destruct (ensured w libRoot f);
    constructor; cbn [vars running trace push_targetFile emit].
  all: try (apply compiles_only_quiet; [reflexivity | exact O1]).
  all: intros j Hj; apply in_or_app; apply in_app_or in Hj.
  all: destruct Hj as [Hj|[<-|[]]]; [left; auto | right; left; reflexivity].
Qed.

Lemma start_ordered c : fresh c -> Ord (start w libRoot tasks c).
Proof.
  intros Hf. unfold start.
  induction (Nat.min (cpus w) (List.length tasks)) as [|n IH].
  - unfold Nat.iter. constructor; cbn [nat_rect vars running].
    + apply compiles_only_none. apply Hf.
    + intros j [].
  - rewrite Nat.iter_succ. apply executeTask_ordered. exact IH.
Qed.

Lemma step_ordered i p :
  Inv p -> Ord p -> Ord (step w libRoot bindOpts recompileAll i p).
Proof.
  intros HI HO. unfold step.
  destruct (nth_error (running p) i) as [j|] eqn:Hnth; [|assumption].
  assert (Hin : In j (running p)) by (eapply nth_error_In; eassumption).
  destruct HO as [O1 O2].
  destruct (inv_jobs _ _ _ _ _ HI j Hin) as [Hfile Htarget].
  destruct (compileSource_step_events w libRoot bindOpts recompileAll j (vars p))
    as [quiet [Hq Hev]].
  pose proof (compileSource_step_same_unit w libRoot bindOpts recompileAll j
                (vars p)) as Hsame.
  assert (Htool : at_phase j = AwaitFs ->
                  toolchain_inv w
                    (snd (compileSource_step w libRoot bindOpts recompileAll j
                            (vars p)))).
  { intros Hph.
    destruct (compileSource_step w libRoot bindOpts recompileAll j (vars p))
      as [pr c'] eqn:Hstep.
    destruct (step_AwaitFs_inv _ _ _ _ _ _ _ _ Hph
                (inv_closure _ _ _ _ _ HI) Hstep) as [IC' _].
    apply IC'. }
  destruct (compileSource_step w libRoot bindOpts recompileAll j (vars p))
    as [pr c'].
  cbn [fst snd] in *.
  assert (A : compiles_only w libRoot bindOpts recompileAll tasks (trace c')).
  { destruct Hev as [->|[-> [Hne [Hph Hd]]]].
    - apply compiles_only_quiet_app; assumption.
    - destruct (toolchain_emcc w c' (Htool Hph) Hne) as [sdk [Henv He]].
      replace (Spawn (emcc c') (compile_args w libRoot bindOpts j) libRoot)
        with (compile_of w libRoot bindOpts sdk (file j)).
      2:{ unfold compile_of, compile_args. now rewrite He, Htarget. }
      apply compiles_only_spawn.
      + rewrite app_assoc. apply compiles_only_quiet; [reflexivity|].
        apply compiles_only_quiet_app; assumption.
      + exact Hfile.
      + rewrite <- Htarget. exact Hd.
      + exact Henv.
      + rewrite <- Htarget. apply in_or_app. left. auto.
      + rewrite app_assoc. apply in_or_app. right. left. reflexivity. }
  assert (B : forall j0, In j0 (running p) ->
                In (EnsureDir (Path.dirname (targetFile j0))) (trace c')).
  { intros j0 Hj0. specialize (O2 j0 Hj0).
    destruct Hev as [->|[-> _]]; rewrite <- ?app_assoc;
      apply in_or_app; left; exact O2. }
  assert (R : forall fl,
             Ord (mkPool (waiting p) (remove_nth i (running p)) fl c')).
  { intros fl. constructor; cbn [vars running]; [exact A|].
    intros j0 Hj0. apply B. eapply In_remove_nth; eassumption. }
  destruct pr as [j'|[|e]].
  - constructor; cbn [vars running]; [exact A|].
    intros j0 Hj0. apply In_replace_nth in Hj0. destruct Hj0 as [->|Hj0].
    + destruct (Hsame j' eq_refl) as [_ ->]. apply B. exact Hin.
    + apply B. exact Hj0.
  - destruct (failure p); [apply R | apply executeTask_ordered, R].
  - apply R.
Qed.

Lemma run_jobs_ordered schedule :
  forall p, Inv p -> Ord p ->
    Ord (run_jobs w libRoot bindOpts recompileAll schedule p).
Proof.
  induction schedule as [|i rest IH]; intros p HI HO; simpl; [assumption|].
  destruct (settled p); [assumption|].
  apply IH; [apply step_inv, HI | apply step_ordered; assumption].
Qed.

End Ordered.

Lemma Forall_quiet_diagnostics stderr stdout :
  Forall (fun e => is_Spawn e = false) (link_diagnostics stderr stdout).
Proof.
  unfold link_diagnostics.
  destruct (String.eqb stderr ""), (String.eqb stdout ""); repeat constructor.
Qed.

(** The link stage adds events that start no compiler. *)
Lemma linkStage_events w libRoot bindOpts c :
  exists post,
    trace (snd (linkStage w libRoot bindOpts c)) = (trace c ++ post)%list
    /\ Forall (fun e => is_Spawn e = false) post.
Proof.
  destruct (invalidateCache c) eqn:Hi;
    [|destruct (existsSync w (finalLibrary libRoot bindOpts)) eqn:He].
  2:{ rewrite (linkStage_skip _ _ _ _ Hi He). exists []. cbn [snd].
      rewrite app_nil_r. auto. }
  all: rewrite linkStage_run by auto.
  all: destruct (ensureEmscripten_events w (emit (LogInfo linking) c))
         as [pre [Hpre Hq]].
  all: cbn [trace emit] in Hpre; rewrite <- app_assoc in Hpre.
  all: destruct (ensureEmscripten w (emit (LogInfo linking) c)) as [[[]|e] c1];
         cbn [snd] in *;
         [|exists ([LogInfo linking] ++ pre)%list; split;
           [exact Hpre | apply Forall_app; split; [repeat constructor | exact Hq]]].
  all: destruct (JS.reduce_spaces (emccArgs bindOpts)) as [joined|];
         cbn [snd];
         [|exists ([LogInfo linking] ++ pre)%list; split;
           [exact Hpre | apply Forall_app; split; [repeat constructor | exact Hq]]].
  all: cbv zeta; destruct (String.eqb (emcc c1) "").
  all: try destruct (emcc_link w (emcc c1) _) as [[stderr stdout] status].
  all: cbn [snd trace emit]; rewrite Hpre, <- !app_assoc; eexists;
         (split; [reflexivity|]).
  all: repeat (apply Forall_app; split); try exact Hq; repeat constructor.
  all: apply Forall_quiet_diagnostics.
Qed.

(** X16. Every compiler process a run starts, under every schedule, is
    [emcc] of the toolchain the environment names, run in the library's
    directory on a stale source of the list, with the optimization flag,
    the include directory, the source, and the object file of that source
    as output; and it starts after the directory of the object file was
    ensured and the compile was announced. *)
Theorem compiler_command_line :
  forall w libRoot bindOpts options korehl schedule recompileAll c
         pre command args dir post,
    bindingsStage w libRoot bindOpts options initial = (Ok recompileAll, c) ->
    snd (generateBindings w libRoot bindOpts options korehl schedule)
    = (pre ++ Spawn command args dir :: post)%list ->
    exists f sdk,
      In f (found w libRoot bindOpts c)
      /\ decide w recompileAll f (targetFile_of w libRoot f) = Stale
      /\ env_EMSCRIPTEN w = Some sdk
      /\ Spawn command args dir = compile_of w libRoot bindOpts sdk f
      /\ In (EnsureDir (Path.dirname (targetFile_of w libRoot f))) pre
      /\ In (LogInfo ("    Compiling " ++ Path.relative (cwd w) libRoot f)) pre.
Proof.
  intros w libRoot bindOpts options korehl schedule rc c pre command args dir
         post Hb.
  revert pre command args dir post.
  change (compiles_only w libRoot bindOpts rc (found w libRoot bindOpts c)
            (snd (generateBindings w libRoot bindOpts options korehl schedule))).
  assert (Hf : fresh (snd (scanStage w libRoot bindOpts c))).
  { assert (H := prepared_fresh w libRoot bindOpts options).
    rewrite Hb in H. exact H. }
  assert (Hfc : fresh c).
  { assert (H := bindingsStage_neutral w libRoot bindOpts options initial).
    rewrite Hb in H. eapply neutral_fresh; [exact H | apply initial_fresh]. }
  unfold found, generateBindings. rewrite Hb.
  destruct (scanStage w libRoot bindOpts c) as [r0 c1]. cbn [snd] in Hf |- *.
  destruct (unsupported options korehl).
  { apply compiles_only_none. reflexivity. }
  destruct (webTarget options).
  2:{ apply compiles_only_none. cbn [snd]. closure_simpl. apply Hfc. }
  assert (HO : ordered_inv w libRoot bindOpts rc (sourceFiles c1)
                 (jobsStage w libRoot bindOpts rc schedule c1)).
  { unfold jobsStage. apply run_jobs_ordered;
      [apply start_inv | apply start_ordered]; exact Hf. }
  set (p := jobsStage w libRoot bindOpts rc schedule c1) in *.
  destruct HO as [O1 _].
  destruct (settled p) as [s|]; [|exact O1].
  fold_catch_log s p.
  assert (O2 : compiles_only w libRoot bindOpts rc (sourceFiles c1)
                 (trace (catch_log s (vars p)))).
  { destruct s as [|e]; [exact O1|].
    apply compiles_only_quiet; [reflexivity | exact O1]. }
  destruct (linkStage_events w libRoot bindOpts (catch_log s (vars p)))
    as [post [Hpost Hq]].
  destruct (linkStage w libRoot bindOpts (catch_log s (vars p)))
    as [[[]|e] c3]; cbn [snd trace emit] in *; rewrite Hpost.
  - apply compiles_only_quiet; [reflexivity|].
    apply compiles_only_quiet_app; assumption.
  - apply compiles_only_quiet_app; assumption.
Qed.

Lemma compiler_command_line_witness :
  exists f sdk,
    Spawn "/emsdk/emcc"
      ["-O2"; "-I/lib/src"; "-c"; "/lib/src/sub/bar.c"; "-o";
       "/lib/khabind/bytecode/src/sub/bar.c.bc"]
      "/lib"
    = compile_of Sample.fresh_world "/lib" Sample.bindOpts sdk f
    /\ decide Sample.fresh_world false f
         (targetFile_of Sample.fresh_world "/lib" f)
       = Stale.
Proof.
  assert (E1 : bindingsStage Sample.fresh_world "/lib" Sample.bindOpts
                 Sample.options initial
               = (Ok false, Sample.bound Sample.fresh_world))
    by (vm_compute; reflexivity).
  assert (E2 : snd (generateBindings Sample.fresh_world "/lib" Sample.bindOpts
                      Sample.options false Sample.schedule)
               = (firstn 9
                    (snd (generateBindings Sample.fresh_world "/lib"
                            Sample.bindOpts Sample.options false Sample.schedule))
                    ++ Spawn "/emsdk/emcc"
                         ["-O2"; "-I/lib/src"; "-c"; "/lib/src/sub/bar.c"; "-o";
                          "/lib/khabind/bytecode/src/sub/bar.c.bc"]
                         "/lib"
                    :: skipn 10
                         (snd (generateBindings Sample.fresh_world "/lib"
                                 Sample.bindOpts Sample.options false
                                 Sample.schedule)))%list)
    by (vm_compute; reflexivity).
  pose proof (compiler_command_line Sample.fresh_world "/lib" Sample.bindOpts
                Sample.options false Sample.schedule false
                (Sample.bound Sample.fresh_world) _ _ _ _ _ E1 E2)
    as [f [sdk [_ [H2 [_ [H4 _]]]]]].
  exists f, sdk. split; [exact H4 | exact H2].
Defined.

(* ================================================================== *)
(** * Which sources a run compiles *)

Lemma compiled_source_app w libRoot bindOpts f tr tr' :
  compiled_source w libRoot bindOpts f tr ->
  compiled_source w libRoot bindOpts f (tr ++ tr')%list.
Proof. intros [sdk H]. exists sdk. apply in_or_app. auto. Qed.

Lemma compiled_source_spawned w libRoot bindOpts f tr :
  compiled_source w libRoot bindOpts f tr -> spawned_on f tr = true.
Proof.
  intros [sdk H]. unfold spawned_on. apply existsb_exists.
  eexists. split; [exact H|]. cbn.
  rewrite String.eqb_refl, !orb_true_r. reflexivity.
Qed.

(** What one step does for a unit that has not started the compiler: it
    keeps the unit's source; when the unit then runs the compiler, the
    process is in the trace; and the unit resolves only when its source
    is up to date. *)
Lemma compileSource_step_outcome w libRoot bindOpts recompileAll j c :
  compiling_now j = false ->
  match fst (compileSource_step w libRoot bindOpts recompileAll j c) with
  | Pending j' =>
      file j' = file j
      /\ (compiling_now j' = false
          \/ (In (Spawn (emcc (snd (compileSource_step w libRoot bindOpts
                                      recompileAll j c)))
                    (compile_args w libRoot bindOpts j) libRoot)
                 (trace (snd (compileSource_step w libRoot bindOpts
                                recompileAll j c)))
              /\ emcc (snd (compileSource_step w libRoot bindOpts
                              recompileAll j c)) <> ""
              /\ at_phase j = AwaitFs))
  | Settled Resolve =>
      decide w recompileAll (file j) (targetFile j) = UpToDate
  | Settled (Reject _) => False
  end.
Proof.
  unfold compiling_now. destruct (at_phase j) as [|command args|] eqn:Hph;
    [|discriminate|]; intros _.
  - rewrite (compileSource_step_AwaitFs _ _ _ _ _ _ Hph).
    destruct (decide w recompileAll (file j) (targetFile j)) eqn:Hd;
      cbn [fst snd].
    + reflexivity.
    + destruct (ensureEmscripten w c) as [[[]|e] c']; cbn [fst snd].
      * cbv zeta. destruct (String.eqb_spec (emcc c') "") as [He|Hne];
          cbn [fst snd abandon file at_phase].
        -- auto.
        -- split; [reflexivity|]. right. cbn [emcc emit set_invalidateCache trace].
           split; [|auto]. apply in_or_app. right. left. reflexivity.
      * cbn [abandon file at_phase]. auto.
    + cbn [abandon file at_phase]. auto.
  - rewrite (step_Abandoned_eq _ _ _ _ _ _ Hph). cbn [fst]. rewrite Hph. auto.
Qed.

(** A step only adds to the trace. *)
Lemma compileSource_step_grows w libRoot bindOpts recompileAll j c :
  exists more,
    trace (snd (compileSource_step w libRoot bindOpts recompileAll j c))
    = (trace c ++ more)%list.
Proof.
  destruct (compileSource_step_events w libRoot bindOpts recompileAll j c)
    as [quiet [_ [H|[H _]]]]; rewrite H.
  - eexists. reflexivity.
  - rewrite <- !app_assoc. eexists. reflexivity.
Qed.

Section Served.

Variable w : World.
Variable libRoot : string.
Variable bindOpts : KhabindOptions.
Variable recompileAll : bool.
Variable tasks : list string.

Let Inv := pool_inv w libRoot recompileAll tasks.
Let Srv := served_inv w libRoot bindOpts recompileAll tasks.

Lemma executeTask_served p : Srv p -> Srv (executeTask w libRoot p).
Proof.
  intros [k [Hw Hall]]. unfold executeTask.
  destruct (waiting p) as [|f rest] eqn:Hwait.
  - exists k. rewrite Hwait. auto.
  - symmetry in Hw. destruct (skipn_next _ _ _ _ Hw) as [H1 [H2 _]].
    rewrite compileSource_begin_cases.
    exists (S k). rewrite H2.
    destruct (ensured w libRoot f); cbn [waiting running vars trace
                                         push_targetFile emit].
    all: split; [now rewrite H1|].
    all: intros f' Hf'; apply in_app_or in Hf'.
    all: destruct Hf' as [Hf'|[<-|[]]].
    all: try (left; eexists; split; [apply in_or_app; right; left; reflexivity|];
              split; reflexivity).
    all: destruct (Hall f' Hf') as [[j [Hj Hrest]]|[Hu|Hc]].
    all: try (left; exists j; split; [apply in_or_app; auto | exact Hrest]).
    all: try (right; left; exact Hu).
    all: right; right; apply compiled_source_app; exact Hc.
Qed.

Lemma start_served c : Srv (start w libRoot tasks c).
Proof.
  unfold start.
  induction (Nat.min (cpus w) (List.length tasks)) as [|n IH].
  - unfold Nat.iter. exists 0. cbn [nat_rect waiting skipn firstn].
    split; [reflexivity | intros f []].
  - rewrite Nat.iter_succ. apply executeTask_served. exact IH.
Qed.

Lemma step_served i p :
  Inv p -> Srv p -> Srv (step w libRoot bindOpts recompileAll i p).
Proof.
  intros HI HS. unfold step.
  destruct (nth_error (running p) i) as [j|] eqn:Hnth; [|assumption].
  assert (Hin : In j (running p)) by (eapply nth_error_In; eassumption).
  destruct (inv_jobs _ _ _ _ _ HI j Hin) as [Hfile Htarget].
  destruct HS as [k [Hw Hall]].
  pose proof (compileSource_step_outcome w libRoot bindOpts recompileAll j (vars p))
    as Hout.
  destruct (compileSource_step_grows w libRoot bindOpts recompileAll j (vars p))
    as [more Hmore].
  assert (Htool : at_phase j = AwaitFs ->
                  toolchain_inv w
                    (snd (compileSource_step w libRoot bindOpts recompileAll j
                            (vars p)))).
  { intros Hph.
    destruct (compileSource_step w libRoot bindOpts recompileAll j (vars p))
      as [pr c'] eqn:Hstep.
    destruct (step_AwaitFs_inv _ _ _ _ _ _ _ _ Hph
                (inv_closure _ _ _ _ _ HI) Hstep) as [IC' _].
    apply IC'. }
  destruct (compileSource_step w libRoot bindOpts recompileAll j (vars p))
    as [pr c'].
  cbn [fst snd] in *.
  (* what becomes of a task served by a unit other than [j], or served
     already *)
  assert (Hold : forall (l' : list job) f,
             (forall j0, In j0 (running p) -> j0 = j \/ In j0 l') ->
             In f (firstn k tasks) ->
             (exists j0, In j0 (running p) /\ file j0 = f
                         /\ compiling_now j0 = false /\ j0 = j)
             \/ (exists j0, In j0 l' /\ file j0 = f /\ compiling_now j0 = false)
             \/ decide w recompileAll f (targetFile_of w libRoot f) = UpToDate
             \/ compiled_source w libRoot bindOpts f (trace c')).
  { intros l' f Hkeep Hf.
    destruct (Hall f Hf) as [[j0 [Hj0 [Hf0 Hc0]]]|[Hu|Hc]].
    - destruct (Hkeep j0 Hj0) as [->|Hin0].
      + left. exists j. auto.
      + right. left. exists j0. auto.
    - auto.
    - right. right. right. rewrite Hmore. now apply compiled_source_app. }
  destruct pr as [j'|s].
  - exists k. cbn [waiting running vars]. split; [exact Hw|].
    intros f Hf.
    destruct (Hold (replace_nth i j' (running p)) f) as [[j0 [_ [Hf0 [Hc0 ->]]]]|H];
      [intros j0 Hj0; eapply In_keep_replace_nth; eassumption | exact Hf | |exact H].
    destruct (Hout Hc0) as [Hsame [Hquiet|[Hspawn [Hne Hph]]]].
    + left. exists j'. split; [eapply In_new_replace_nth; eassumption|].
      split; [congruence | exact Hquiet].
    + right. right.
      destruct (toolchain_emcc w c' (Htool Hph) Hne) as [sdk [Henv He]].
      exists sdk. unfold compile_of. rewrite <- Hf0, <- He, <- Htarget.
      exact Hspawn.
  - assert (R : forall fl,
               Srv (mkPool (waiting p) (remove_nth i (running p)) fl c')).
    { intros fl. exists k. cbn [waiting running vars]. split; [exact Hw|].
      intros f Hf.
      destruct (Hold (remove_nth i (running p)) f)
        as [[j0 [_ [Hf0 [Hc0 ->]]]]|H];
        [intros j0 Hj0; eapply In_keep_remove_nth; eassumption | exact Hf
        | |exact H].
      specialize (Hout Hc0). destruct s as [|e]; [|contradiction].
      right. left. rewrite <- Hf0, <- Htarget. exact Hout. }
    destruct s as [|e]; [|apply R].
    destruct (failure p); [apply R | apply executeTask_served, R].
Qed.

Lemma run_jobs_served schedule :
  forall p, Inv p -> Srv p ->
    Srv (run_jobs w libRoot bindOpts recompileAll schedule p).
Proof.
  induction schedule as [|i rest IH]; intros p HI HS; simpl; [assumption|].
  destruct (settled p); [assumption|].
  apply IH; [apply step_inv, HI | apply step_served; assumption].
Qed.

End Served.

(** The trace of a run, when the bindings stage completes: every
    compiler process is the compile of a stale source found. *)
Lemma generateBindings_compiles_only
  w libRoot bindOpts options korehl schedule rc c :
  bindingsStage w libRoot bindOpts options initial = (Ok rc, c) ->
  compiles_only w libRoot bindOpts rc (found w libRoot bindOpts c)
    (snd (generateBindings w libRoot bindOpts options korehl schedule)).
Proof.
  intros Hb.
  assert (Hf : fresh (snd (scanStage w libRoot bindOpts c))).
  { assert (H := prepared_fresh w libRoot bindOpts options).
    rewrite Hb in H. exact H. }
  assert (Hfc : fresh c).
  { assert (H := bindingsStage_neutral w libRoot bindOpts options initial).
    rewrite Hb in H. eapply neutral_fresh; [exact H | apply initial_fresh]. }
  unfold found, generateBindings. rewrite Hb.
  destruct (scanStage w libRoot bindOpts c) as [r0 c1]. cbn [snd] in Hf |- *.
  destruct (unsupported options korehl).
  { apply compiles_only_none. reflexivity. }
  destruct (webTarget options).
  2:{ apply compiles_only_none. cbn [snd]. closure_simpl. apply Hfc. }
  assert (HO : ordered_inv w libRoot bindOpts rc (sourceFiles c1)
                 (jobsStage w libRoot bindOpts rc schedule c1)).
  { unfold jobsStage. apply run_jobs_ordered;
      [apply start_inv | apply start_ordered]; exact Hf. }
  set (p := jobsStage w libRoot bindOpts rc schedule c1) in *.
  destruct HO as [O1 _].
  destruct (settled p) as [s|]; [|exact O1].
  fold_catch_log s p.
  assert (O2 : compiles_only w libRoot bindOpts rc (sourceFiles c1)
                 (trace (catch_log s (vars p)))).
  { destruct s as [|e]; [exact O1|].
    apply compiles_only_quiet; [reflexivity | exact O1]. }
  destruct (linkStage_events w libRoot bindOpts (catch_log s (vars p)))
    as [post [Hpost Hq]].
  destruct (linkStage w libRoot bindOpts (catch_log s (vars p)))
    as [[[]|e] c3]; cbn [snd trace emit] in *; rewrite Hpost.
  - apply compiles_only_quiet; [reflexivity|].
    apply compiles_only_quiet_app; assumption.
  - apply compiles_only_quiet_app; assumption.
Qed.

(** A source that was compiled was stale. *)
Lemma compiled_source_stale w libRoot bindOpts rc files f tr :
  compiles_only w libRoot bindOpts rc files tr ->
  compiled_source w libRoot bindOpts f tr ->
  decide w rc f (targetFile_of w libRoot f) = Stale.
Proof.
  intros Honly [sdk Hin]. apply in_split in Hin.
  destruct Hin as [pre [post E]].
  destruct (Honly pre _ _ _ post E) as [f' [sdk' [_ [Hd [_ [Heq _]]]]]].
  unfold compile_of in Heq. injection Heq as _ Hf _. now subst f'.
Qed.

(** When every unit of a run has resolved, each source found is up to
    date or was compiled. *)
Lemma generateBindings_served
  w libRoot bindOpts options korehl schedule rc c f :
  webTarget options = true ->
  bindingsStage w libRoot bindOpts options initial = (Ok rc, c) ->
  settled (units w libRoot bindOpts rc schedule c) = Some Resolve ->
  In f (found w libRoot bindOpts c) ->
  decide w rc f (targetFile_of w libRoot f) = UpToDate
  \/ compiled_source w libRoot bindOpts f
       (snd (generateBindings w libRoot bindOpts options korehl schedule)).
Proof.
  intros Hweb Hb Hs Hin.
  assert (Hf : fresh (snd (scanStage w libRoot bindOpts c))).
  { assert (H := prepared_fresh w libRoot bindOpts options).
    rewrite Hb in H. exact H. }
  unfold units, found in *. unfold generateBindings.
  rewrite (webTarget_supported _ korehl Hweb), Hb, Hweb.
  destruct (scanStage w libRoot bindOpts c) as [r0 c1]. cbn [snd] in *.
  assert (HS : served_inv w libRoot bindOpts rc (sourceFiles c1)
                 (jobsStage w libRoot bindOpts rc schedule c1)).
  { unfold jobsStage. apply run_jobs_served; [apply start_inv, Hf|].
    apply start_served. }
  set (p := jobsStage w libRoot bindOpts rc schedule c1) in *.
  destruct HS as [k [Hw Hall]].
  rewrite (firstn_all_of_skipn (sourceFiles c1) k) in Hall
    by (rewrite <- Hw; now apply settled_Resolve_waiting).
  destruct (settled_Resolve _ Hs) as [_ Hrun].
  rewrite Hs. cbn [catch_log].
  destruct (Hall f Hin) as [[j [Hj _]]|[Hu|Hc]].
  - rewrite Hrun in Hj. contradiction.
  - left. exact Hu.
  - right.
    destruct (linkStage_events w libRoot bindOpts (vars p)) as [post [Hpost _]].
    destruct (linkStage w libRoot bindOpts (vars p)) as [[[]|e] c3];
      cbn [snd trace emit] in *; rewrite Hpost.
    + rewrite <- app_assoc. now apply compiled_source_app.
    + now apply compiled_source_app.
Qed.

(** C4, as the code has it. The unit of a source skips the compile, that
    is, resolves without starting a compiler, if and only if the object
    artifact exists, the artifact is not older than the source (the
    source's mtime is not greater than the artifact's, so equal mtimes
    skip) and the full-rebuild flag is not set; under the flag, or
    without an object artifact, the unit never skips, and it starts the
    compiler when the toolchain resolves. For a whole run this gives:
    when every unit has resolved, a source found is skipped (not
    compiled) if and only if the three conditions hold on the tree the
    run starts with; in particular every source found is then compiled
    under the full-rebuild flag, whatever the mtimes, and so is a source
    whose object artifact is missing. The sources found are taken to
    have object files of their own (none found twice, no two with the
    same object file), so that no unit looks at a file that the compiler
    of another unit writes. *)
Theorem skip_rule :
  (forall w libRoot bindOpts recompileAll j c,
     at_phase j = AwaitFs ->
     (skipped w libRoot bindOpts recompileAll j c <->
      existsSync w (targetFile j) = true
      /\ artifact_not_older w (file j) (targetFile j)
      /\ recompileAll = false)
     /\ (recompileAll = true \/ existsSync w (targetFile j) = false ->
         ~ skipped w libRoot bindOpts recompileAll j c)
     /\ (recompileAll = true \/ existsSync w (targetFile j) = false ->
         toolchain_ready w c ->
         exists command args c',
           compileSource_step w libRoot bindOpts recompileAll j c
           = (Pending (mkJob (file j) (targetFile j) (AwaitClose command args)), c')
           /\ In (Spawn command args libRoot) (trace c')
           /\ In (file j) args
           /\ invalidateCache c' = true))
  /\ (forall w libRoot bindOpts options korehl schedule recompileAll c,
        webTarget options = true ->
        bindingsStage w libRoot bindOpts options initial = (Ok recompileAll, c) ->
        settled (units w libRoot bindOpts recompileAll schedule c)
        = Some Resolve ->
        objects_distinct w libRoot (found w libRoot bindOpts c) ->
        forall f,
          In f (found w libRoot bindOpts c) ->
          (~ compiled_source w libRoot bindOpts f
               (snd (generateBindings w libRoot bindOpts options korehl schedule))
           <-> existsSync w (targetFile_of w libRoot f) = true
               /\ artifact_not_older w f (targetFile_of w libRoot f)
               /\ recompileAll = false)
          /\ (recompileAll = true
              \/ existsSync w (targetFile_of w libRoot f) = false ->
              compiled_source w libRoot bindOpts f
                (snd (generateBindings w libRoot bindOpts options korehl
                        schedule)))).
Proof.
  split.
  - intros w libRoot bindOpts rc j c Hph.
    assert (Hskip := skipped_decide w libRoot bindOpts rc j c Hph).
    assert (Hup := decide_UpToDate w rc (file j) (targetFile j)).
    split; [tauto|]. split.
    + intros Hst Hs. apply Hskip, Hup in Hs. destruct Hs as [He [_ Hrc]].
      destruct Hst; congruence.
    + intros Hst Hready.
      assert (Hd : decide w rc (file j) (targetFile j) = Stale).
      { unfold decide. destruct Hst as [-> | ->]; [|reflexivity].
        destruct (existsSync w (targetFile j)); reflexivity. }
      rewrite (compileSource_step_AwaitFs _ _ _ _ _ _ Hph), Hd.
      destruct (ensureEmscripten_ready w c Hready) as [c' [-> [Hne _]]].
      destruct (String.eqb_spec (emcc c') ""); [contradiction|].
      do 3 eexists. split; [reflexivity|].
      split; [|split].
      * simpl. rewrite !in_app_iff. right. left. reflexivity.
      * simpl. auto.
      * reflexivity.
  - intros w libRoot bindOpts options korehl schedule rc c Hweb Hb Hs _ f Hin.
    assert (Honly := generateBindings_compiles_only w libRoot bindOpts options
                       korehl schedule rc c Hb).
    assert (Hserved := generateBindings_served w libRoot bindOpts options korehl
                         schedule rc c f Hweb Hb Hs Hin).
    assert (Hup := decide_UpToDate w rc f (targetFile_of w libRoot f)).
    split; [split|].
    + intros Hnot. apply Hup. destruct Hserved; [assumption | contradiction].
    + intros Hcond Hc. apply Hup in Hcond.
      rewrite (compiled_source_stale _ _ _ _ _ _ _ Honly Hc) in Hcond.
      discriminate.
    + intros Hst. destruct Hserved as [Hu|Hc]; [|exact Hc].
      apply Hup in Hu. destruct Hu as [He [_ Hrc]]. destruct Hst; congruence.
Qed.

Lemma skip_rule_witness :
  skipped Sample.one_object_world "/lib" Sample.bindOpts false
    (mkJob "/lib/src/foo.cpp" "/lib/khabind/bytecode/src/foo.cpp.bc" AwaitFs)
    initial
  /\ ~ compiled_source Sample.one_object_world "/lib" Sample.bindOpts
         "/lib/src/foo.cpp"
         (snd (generateBindings Sample.one_object_world "/lib" Sample.bindOpts
                 Sample.options false Sample.schedule))
  /\ compiled_source Sample.one_object_world "/lib" Sample.bindOpts
       "/lib/src/sub/bar.c"
       (snd (generateBindings Sample.one_object_world "/lib" Sample.bindOpts
               Sample.options false Sample.schedule)).
Proof.
  destruct skip_rule as [Hunit Hrun].
  assert (E1 : bindingsStage Sample.one_object_world "/lib" Sample.bindOpts
                 Sample.options initial
               = (Ok false, Sample.bound Sample.one_object_world))
    by (vm_compute; reflexivity).
  assert (E2 : settled (units Sample.one_object_world "/lib" Sample.bindOpts false
                          Sample.schedule (Sample.bound Sample.one_object_world))
               = Some Resolve)
    by (vm_compute; reflexivity).
  assert (E3 : objects_distinct Sample.one_object_world "/lib"
                 (found Sample.one_object_world "/lib" Sample.bindOpts
                    (Sample.bound Sample.one_object_world))).
  { unfold objects_distinct. vm_compute.
    repeat constructor; cbn; intuition discriminate. }
  assert (F1 : In "/lib/src/foo.cpp"
                 (found Sample.one_object_world "/lib" Sample.bindOpts
                    (Sample.bound Sample.one_object_world)))
    by (vm_compute; left; reflexivity).
  assert (F2 : In "/lib/src/sub/bar.c"
                 (found Sample.one_object_world "/lib" Sample.bindOpts
                    (Sample.bound Sample.one_object_world)))
    by (vm_compute; right; left; reflexivity).
  assert (X1 : existsSync Sample.one_object_world
                 (targetFile_of Sample.one_object_world "/lib" "/lib/src/foo.cpp")
               = true)
    by (vm_compute; reflexivity).
  assert (X2 : existsSync Sample.one_object_world
                 (targetFile_of Sample.one_object_world "/lib" "/lib/src/sub/bar.c")
               = false)
    by (vm_compute; reflexivity).
  assert (N1 : artifact_not_older Sample.one_object_world "/lib/src/foo.cpp"
                 (targetFile_of Sample.one_object_world "/lib" "/lib/src/foo.cpp")).
  { exists 7%Z, 22%Z. split; [vm_compute; reflexivity|].
    split; [vm_compute; reflexivity | lia]. }
  pose proof (Hunit Sample.one_object_world "/lib" Sample.bindOpts false
                (mkJob "/lib/src/foo.cpp" "/lib/khabind/bytecode/src/foo.cpp.bc"
                   AwaitFs)
                initial eq_refl) as [U1 _].
  pose proof (Hrun Sample.one_object_world "/lib" Sample.bindOpts Sample.options
                false Sample.schedule false (Sample.bound Sample.one_object_world)
                eq_refl E1 E2 E3 "/lib/src/foo.cpp" F1) as [R1 _].
  pose proof (Hrun Sample.one_object_world "/lib" Sample.bindOpts Sample.options
                false Sample.schedule false (Sample.bound Sample.one_object_world)
                eq_refl E1 E2 E3 "/lib/src/sub/bar.c" F2) as [_ R2].
  split; [|split].
  - apply U1. split; [exact X1|]. split; [exact N1 | reflexivity].
  - apply R1. split; [exact X1|]. split; [exact N1 | reflexivity].
  - apply R2. right. exact X2.
Defined.

(** With equal mtimes the unit for [src/sub/bar.c] is skipped although
    its object artifact is not newer than the source. *)
Lemma skipped_iff_newer_fails :
  ~ skipped_iff_newer Sample.same_time_world "/lib" Sample.bindOpts false
      (mkJob "/lib/src/sub/bar.c" "/lib/khabind/bytecode/src/sub/bar.c.bc" AwaitFs)
      initial.
Proof.
  intros [H _].
  assert (Hs : skipped Sample.same_time_world "/lib" Sample.bindOpts false
                 (mkJob "/lib/src/sub/bar.c"
                    "/lib/khabind/bytecode/src/sub/bar.c.bc" AwaitFs)
                 initial) by reflexivity.
  destruct (H Hs) as [_ [[s [t [Hs' [Ht Hgt]]]] _]].
  vm_compute in Hs', Ht. injection Hs' as <-. injection Ht as <-. lia.
Qed.

(** With one processor and a compiler that rejects the first source, the
    run goes on to the link after the first unit: the two other sources
    are found and not compiled, under the full-rebuild flag and without
    object artifacts. *)
Lemma every_source_compiled_fails :
  ~ every_source_compiled Sample.single_world "/lib" Sample.bindOpts
      Sample.options false [0; 0].
Proof.
  intros H.
  assert (E1 : bindingsStage Sample.single_world "/lib" Sample.bindOpts
                 Sample.options initial
               = (Ok true, Sample.bound Sample.single_world))
    by (vm_compute; reflexivity).
  assert (F : In "/lib/src/sub/bar.c"
                (found Sample.single_world "/lib" Sample.bindOpts
                   (Sample.bound Sample.single_world)))
    by (vm_compute; right; left; reflexivity).
  specialize (H true _ "/lib/src/sub/bar.c" E1 F (or_introl eq_refl)).
  apply compiled_source_spawned in H. vm_compute in H. discriminate.
Qed.

(** C4, as stated, fails twice. With equal mtimes a unit is skipped
    although its object artifact is not newer than the source. And the
    sources found are not all compiled under the full-rebuild flag, nor
    when their object artifact is missing: the first compile that fails
    ends the compiling, and the units that were not started compile
    nothing. *)
Lemma skip_rule_as_stated_fails :
  ~ skipped_iff_newer Sample.same_time_world "/lib" Sample.bindOpts false
      (mkJob "/lib/src/sub/bar.c" "/lib/khabind/bytecode/src/sub/bar.c.bc" AwaitFs)
      initial
  /\ ~ every_source_compiled Sample.single_world "/lib" Sample.bindOpts
         Sample.options false [0; 0].
Proof.
  split; [exact skipped_iff_newer_fails | exact every_source_compiled_fails].
Qed.
